(** * Polymarket whale tracker: resolution, ranking and signal pipeline

    A shallow embedding of the ledger store ([database.py]), the resolution
    checker ([resolution_checker.py]), the position tracker ([tracker.py]),
    the feed client ([polymarket_api.py]), the performance analyzer
    ([scripts/new_scoring_system.py]) and the signal engine
    ([scripts/trade_signals.py]), one module or more for each, followed by
    the vocabulary of the statements (module [Spec]) and by the properties.

    Modelling conventions.
    - Python floats and SQLite REAL columns are exact rationals ([Q]); the
      binary rounding of IEEE arithmetic is not modelled.  Statements about
      computed amounts are up to [Qeq] ([==]).
    - A nullable SQLite column is an [option]; an SQLite table is the list of
      its rows in rowid order; an [UPDATE ... WHERE] is a [map] over the rows.
      Primary keys are unique by hypothesis ([unique_trade_ids],
      [unique_addresses], [unique_condition_ids]) where a statement needs it.
    - Timestamps are whole seconds and the clock is an explicit argument.
    - What the network answers is an argument: the response of the market
      feed, the live price of a market, the positions of a wallet, the
      answer to each attempt of a request.
    - A Python call that can raise returns a [result]; [try/except] is
      [try_except].
    - Logging is not modelled.  The notification sink is the list of the
      alerts sent where a statement counts them, and the time slept is
      kept for [_request] only. *)

From Stdlib Require Import ZArith QArith Qround Qabs List String Ascii Bool.
From Stdlib Require Import Lia Lqa Permutation Sorted.
Import ListNotations.

Local Open Scope string_scope.
Local Open Scope Z_scope.
Local Open Scope Q_scope.

(** ** Python values *)

Module Py.

(** Exceptions that the modelled code can meet. *)
Inductive exn : Type :=
| TimeoutError
| ZeroDivisionError
| TypeError
| AttributeError
| ValueError
| ClientError.

Inductive result (A : Type) : Type :=
| Return (a : A)
| Raise (e : exn).

Arguments Return {A} a.
Arguments Raise {A} e.

Definition bind {A B : Type} (m : result A) (k : A -> result B) : result B :=
  match m with
  | Return a => k a
  | Raise e => Raise e
  end.

(** [try: body / except Exception: handler]. *)
Definition try_except {A : Type} (body : result A) (handler : exn -> result A)
  : result A :=
  match body with
  | Return a => Return a
  | Raise e => handler e
  end.

(** A [for] loop whose body can raise: the first raise ends the loop. *)
Fixpoint for_each {A S : Type} (body : S -> A -> result S) (l : list A) (s : S)
  : result S :=
  match l with
  | [] => Return s
  | x :: l' => bind (body s x) (for_each body l')
  end.

Definition Qlt_bool (a b : Q) : bool := negb (Qle_bool b a).

(** Float division: a zero divisor raises. *)
Definition div (a b : Q) : result Q :=
  if Qeq_bool b 0 then Raise ZeroDivisionError else Return (a / b).

(** [x or d] on a nullable number: [None] and [0] are both falsy. *)
Definition or_Q (x : option Q) (d : Q) : Q :=
  match x with
  | Some q => if Qeq_bool q 0 then d else q
  | None => d
  end.

Definition or_Z (x : option Z) (d : Z) : Z :=
  match x with
  | Some z => if (z =? 0)%Z then d else z
  | None => d
  end.

(** [x or ''] on a nullable string. *)
Definition or_str (x : option string) (d : string) : string :=
  match x with
  | Some s => if (s =? "")%string then d else s
  | None => d
  end.

(** [str.upper] on ASCII text. *)
Definition upper_ascii (c : ascii) : ascii :=
  let n := nat_of_ascii c in
  if ((97 <=? n) && (n <=? 122))%nat then ascii_of_nat (n - 32) else c.

Fixpoint upper (s : string) : string :=
  match s with
  | EmptyString => EmptyString
  | String c s' => String (upper_ascii c) (upper s')
  end.

(** [round(x, ndigits)]: the nearest multiple of [10^-ndigits], a tie going to
    the even neighbour. *)
Definition round_half_even (y : Q) : Z :=
  let f := Qfloor y in
  let r := y - inject_Z f in
  if Qlt_bool r (1 # 2) then f
  else if Qlt_bool (1 # 2) r then (f + 1)%Z
  else if Z.even f then f else (f + 1)%Z.

Definition round (x : Q) (ndigits : nat) : Q :=
  let scale := Z.pow 10 (Z.of_nat ndigits) in
  Qmake (round_half_even (x * inject_Z scale)) (Z.to_pos scale).

(** [min(a, b)]: the second argument only when it is strictly smaller. *)
Definition min (a b : Q) : Q := if Qlt_bool b a then b else a.

(** [list.sort(key=..., reverse=True)], for a key order given by its strict
    test [lt x y] (the key of [x] is below the key of [y]).  The sort is
    stable, also when reversed: items with equal keys keep their order.  A
    stable sort has one possible result, computed here by insertion. *)
Fixpoint insert_desc {A : Type} (lt : A -> A -> bool) (x : A) (l : list A) : list A :=
  match l with
  | [] => [x]
  | y :: l' => if lt x y then y :: insert_desc lt x l' else x :: y :: l'
  end.

Definition sort_desc {A : Type} (lt : A -> A -> bool) (l : list A) : list A :=
  fold_right (insert_desc lt) [] l.

End Py.

Import Py.

(** ** The ledger store: [database.py] *)

Module Whale.
Record t : Type := mk {
  address : string;
  total_volume : option Q;
  win_count : option Z;
  loss_count : option Z
}.
Definition set_stats (w : t) (wins losses : option Z) : t :=
  mk (address w) (total_volume w) wins losses.
End Whale.

Module Trade.
Record t : Type := mk {
  id : Z;
  whale_address : string;
  market_id : string;
  market_question : string;
  side : option string;
  size : option Q;
  entry_price : option Q;
  entry_time : Z;
  resolved : option bool;
  outcome : option string;
  pnl : option Q
}.
(** [SET resolved = TRUE, outcome = ?, pnl = ?] *)
Definition set_resolution (r : t) (o : string) (p : Q) : t :=
  mk (id r) (whale_address r) (market_id r) (market_question r) (side r)
     (size r) (entry_price r) (entry_time r) (Some true) (Some o) (Some p).
(** [resolved = 0 OR resolved IS NULL] *)
Definition is_unresolved (r : t) : bool :=
  match resolved r with
  | None => true
  | Some b => negb b
  end.
(** [resolved = FALSE]: a NULL flag does not match. *)
Definition resolved_is_false (r : t) : bool :=
  match resolved r with
  | None => false
  | Some b => negb b
  end.
End Trade.

Module Market.
Record t : Type := mk {
  market_id : string;
  question : string;
  resolved : option bool;
  resolution : option string;
  resolved_at : option Z
}.
(** [SET resolved = TRUE, resolution = ?, resolved_at = ?] *)
Definition set_resolution (m : t) (winner : string) (now : Z) : t :=
  mk (market_id m) (question m) (Some true) (Some winner) (Some now).
End Market.

Module Database.

Record t : Type := mk {
  whales : list Whale.t;
  trades : list Trade.t;
  markets : list Market.t
}.

Definition with_whales (db : t) (ws : list Whale.t) : t :=
  mk ws (trades db) (markets db).
Definition with_trades (db : t) (ts : list Trade.t) : t :=
  mk (whales db) ts (markets db).
Definition with_markets (db : t) (ms : list Market.t) : t :=
  mk (whales db) (trades db) ms.

(** [SELECT * FROM whales WHERE address = ?], first row. *)
Definition get_whale (address : string) (db : t) : option Whale.t :=
  find (fun w => (Whale.address w =? address)%string) (whales db).

(** [add_whale]: INSERT OR IGNORE on the primary key; the counters take
    their default 0. *)
Definition add_whale (address : string) (total_volume : option Q) (db : t) : t * bool :=
  if existsb (fun w => (Whale.address w =? address)%string) (whales db)
  then (db, false)
  else (with_whales db
          (whales db ++ [Whale.mk address total_volume (Some 0%Z) (Some 0%Z)]),
        true).

(** [UPDATE whales SET total_volume = ? WHERE address = ?] *)
Definition update_whale_volume (address : string) (total_volume : option Q) (db : t) : t :=
  with_whales db
    (map (fun w => if (Whale.address w =? address)%string
                   then Whale.mk (Whale.address w) total_volume
                                 (Whale.win_count w) (Whale.loss_count w)
                   else w)
         (whales db)).

(** [UPDATE whales SET win_count = ?, loss_count = ? WHERE address = ?] *)
Definition update_whale_stats (address : string) (win_count loss_count : option Z)
  (db : t) : t :=
  with_whales db
    (map (fun w => if (Whale.address w =? address)%string
                   then Whale.set_stats w win_count loss_count else w)
         (whales db)).

(** The rowid an AUTOINCREMENT insert receives: one more than the largest. *)
Definition next_trade_id (rows : list Trade.t) : Z :=
  (fold_right Z.max 0 (map Trade.id rows) + 1)%Z.

(** [add_trade]: a plain INSERT; the new row is unresolved with NULL outcome
    and pnl.  Returns the store and [cursor.lastrowid]; a failure of SQLite
    itself (the [-1] result) is not modelled. *)
Definition add_trade (whale_address market_id market_question : string)
  (side : option string) (size entry_price : option Q) (now : Z) (db : t)
  : t * Z :=
  let rowid := next_trade_id (trades db) in
  (with_trades db
     (trades db ++
      [Trade.mk rowid whale_address market_id market_question side size
                entry_price now (Some false) None None]),
   rowid).

(** [SELECT * FROM trades WHERE id = ?], first row. *)
Definition get_trade (trade_id : Z) (db : t) : option Trade.t :=
  find (fun r => (Trade.id r =? trade_id)%Z) (trades db).

(** [SELECT * FROM trades WHERE resolved = FALSE] *)
Definition get_unresolved_trades (db : t) : list Trade.t :=
  filter Trade.resolved_is_false (trades db).

(** The comparison of a nullable TEXT column with a bound string. *)
Definition side_matches (stored : option string) (side : string) : bool :=
  match stored with
  | Some s => (s =? side)%string
  | None => false
  end.

(** [trade_exists]: is there a row with this whale, market and side? *)
Definition trade_exists (whale_address market_id side : string) (db : t) : bool :=
  existsb (fun r => (Trade.whale_address r =? whale_address)%string
                    && (Trade.market_id r =? market_id)%string
                    && side_matches (Trade.side r) side)
          (trades db).

(** [resolve_trade]: [UPDATE trades SET ... WHERE id = ?], no other test. *)
Definition resolve_trade (trade_id : Z) (outcome : string) (pnl : Q) (db : t) : t :=
  with_trades db
    (map (fun r => if (Trade.id r =? trade_id)%Z
                   then Trade.set_resolution r outcome pnl else r)
         (trades db)).

(** Outcome and pnl of one trade in [resolve_trades_by_market]. *)
Definition trade_result (resolution : string) (trade : Trade.t)
  : result (string * Q) :=
  match Trade.side trade with
  | None => Raise AttributeError
  | Some s =>
    let side := upper s in
    let won := ((side =? "YES")%string && (resolution =? "YES")%string)
               || ((side =? "NO")%string && (resolution =? "NO")%string) in
    let outcome := if won then "WIN" else "LOSS" in
    match Trade.size trade, Trade.entry_price trade with
    | Some size, Some entry_price =>
      if won then Return (outcome, size * (1 - entry_price))
      else Return (outcome, (- size) * entry_price)
    | _, _ => Raise TypeError
    end
  end.

(** The counter update that follows each resolved trade. *)
Definition bump_whale (whale_address outcome : string) (db : t) : result t :=
  match get_whale whale_address db with
  | None => Return db
  | Some whale =>
    if (outcome =? "WIN")%string then
      match Whale.win_count whale with
      | Some w => Return (update_whale_stats whale_address (Some (w + 1)%Z)
                                             (Whale.loss_count whale) db)
      | None => Raise TypeError
      end
    else
      match Whale.loss_count whale with
      | Some l => Return (update_whale_stats whale_address
                                             (Whale.win_count whale)
                                             (Some (l + 1)%Z) db)
      | None => Raise TypeError
      end
  end.

(** The loop of [resolve_trades_by_market] over the fetched rows.  Every
    write is committed at once, so a raise leaves the earlier writes in the
    store: the store is returned beside the exception. *)
Fixpoint resolve_fetched (resolution : string) (fetched : list Trade.t) (db : t)
  : t * option exn :=
  match fetched with
  | [] => (db, None)
  | trade :: rest =>
    match trade_result resolution trade with
    | Raise e => (db, Some e)
    | Return (outcome, pnl) =>
      let db1 := resolve_trade (Trade.id trade) outcome pnl db in
      match bump_whale (Trade.whale_address trade) outcome db1 with
      | Raise e => (db1, Some e)
      | Return db2 => resolve_fetched resolution rest db2
      end
    end
  end.

(** [resolve_trades_by_market]: the rows fetched are those of the market with
    [resolved = FALSE]. *)
Definition resolve_trades_by_market (market_id resolution : string) (db : t)
  : t * option exn :=
  let fetched :=
    filter (fun r => (Trade.market_id r =? market_id)%string
                     && Trade.resolved_is_false r)
           (trades db) in
  resolve_fetched resolution fetched db.

(** [add_market]: INSERT OR IGNORE on the primary key. *)
Definition add_market (market_id question : string) (db : t) : t * bool :=
  if existsb (fun m => (Market.market_id m =? market_id)%string) (markets db)
  then (db, false)
  else (with_markets db (markets db ++ [Market.mk market_id question (Some false) None None]),
        true).

(** [SELECT * FROM markets WHERE market_id = ?], first row. *)
Definition get_market (market_id : string) (db : t) : option Market.t :=
  find (fun m => (Market.market_id m =? market_id)%string) (markets db).

(** The [UPDATE markets SET resolved, resolution, resolved_at WHERE market_id]
    that both resolution paths run. *)
Definition mark_market_resolved (market_id resolution : string) (now : Z) (db : t) : t :=
  with_markets db
    (map (fun m => if (Market.market_id m =? market_id)%string
                   then Market.set_resolution m resolution now else m)
         (markets db)).

(** [resolve_market]: the market row is written first, then its trades. *)
Definition resolve_market (market_id resolution : string) (now : Z) (db : t)
  : t * option exn :=
  resolve_trades_by_market market_id resolution
    (mark_market_resolved market_id resolution now db).

End Database.

(** ** The resolution engine: [resolution_checker.py] *)

Module ResolutionChecker.

(** One entry of [results["whale_updates"]]. *)
Record stats : Type := mk_stats {
  st_wins : Z;
  st_losses : Z;
  st_pnl : Q
}.

(** The dict that [resolve_market_trades] returns; [whale_updates] keeps the
    insertion order of the Python dict. *)
Record results : Type := mk_results {
  trades_resolved : Z;
  wins : Z;
  losses : Z;
  total_pnl : Q;
  whale_updates : list (string * stats)
}.

Definition empty_results : results := mk_results 0 0 0 0 [].

(** [SELECT ... WHERE market_id = ? AND (resolved = 0 OR resolved IS NULL)] *)
Definition fetch_unresolved (market_id : string) (db : Database.t) : list Trade.t :=
  filter (fun r => (Trade.market_id r =? market_id)%string && Trade.is_unresolved r)
         (Database.trades db).

(** Lines 150-170: did the trade win, and outcome and pnl. *)
Definition verdict (winner : string) (trade : Trade.t) : result (bool * string * Q) :=
  let side := upper (or_str (Trade.side trade) "") in
  let size := or_Q (Trade.size trade) 0 in
  let entry_price := or_Q (Trade.entry_price trade) (1 # 2) in
  let won := (side =? winner)%string in
  let outcome := if won then "WIN" else "LOSS" in
  bind (if won then
          bind (if Qlt_bool 0 entry_price then div size entry_price else Return 0)
               (fun shares => Return (shares - size))
        else Return (- size))
       (fun pnl => Return (won, outcome, pnl)).

(** [whale_updates[whale]] created on first use, then incremented. *)
Fixpoint bump_update (whale : string) (won : bool) (pnl : Q)
  (updates : list (string * stats)) : list (string * stats) :=
  match updates with
  | [] =>
    [(whale, if won then mk_stats 1 0 (0 + pnl) else mk_stats 0 1 (0 + pnl))]
  | (w, s) :: rest =>
    if (w =? whale)%string then
      (w, if won then mk_stats (st_wins s + 1) (st_losses s) (st_pnl s + pnl)
          else mk_stats (st_wins s) (st_losses s + 1) (st_pnl s + pnl)) :: rest
    else (w, s) :: bump_update whale won pnl rest
  end.

(** The body of the loop over the fetched trades. *)
Definition resolve_one (winner : string) (acc : Database.t * results) (trade : Trade.t)
  : result (Database.t * results) :=
  let '(db, res) := acc in
  bind (verdict winner trade) (fun '(won, outcome, pnl) =>
    let db' := Database.resolve_trade (Trade.id trade) outcome pnl db in
    let res' :=
      mk_results (trades_resolved res + 1)
                 (if won then wins res + 1 else wins res)
                 (if won then losses res else losses res + 1)
                 (total_pnl res + pnl)
                 (bump_update (Trade.whale_address trade) won pnl (whale_updates res)) in
    Return (db', res')).

(** The body of the loop over [whale_updates]: the counters are read, the
    batch is added and the row is written back; unknown whales are skipped. *)
Definition flush_one (db : Database.t) (entry : string * stats) : Database.t :=
  let '(whale, s) := entry in
  match Database.get_whale whale db with
  | Some row =>
    let new_wins := (or_Z (Whale.win_count row) 0 + st_wins s)%Z in
    let new_losses := (or_Z (Whale.loss_count row) 0 + st_losses s)%Z in
    Database.update_whale_stats whale (Some new_wins) (Some new_losses) db
  | None => db
  end.

(** [resolve_market_trades]: nothing is committed before the last line, so a
    raise would leave the store as it was. *)
Definition resolve_market_trades (market_id winner : string) (now : Z) (db : Database.t)
  : result (Database.t * results) :=
  let fetched := fetch_unresolved market_id db in
  bind (for_each (resolve_one winner) fetched (db, empty_results)) (fun '(db1, res) =>
    let db2 := fold_left flush_one (whale_updates res) db1 in
    Return (Database.mark_market_resolved market_id winner now db2, res)).

End ResolutionChecker.

(** ** The oracle client: [ResolutionChecker.check_market_resolution]

    The response of the feed is an argument; the session set up before the
    [try] and task cancellation are not modelled. *)

Module Oracle.

(** A field of a JSON object as the code reads it: missing (the default of
    [.get] applies), of the expected type, or of a type on which the next
    operation raises. *)
Inductive field (A : Type) : Type :=
| Absent
| Present (a : A)
| Malformed.

Arguments Absent {A}.
Arguments Present {A} a.
Arguments Malformed {A}.

(** An item of [data['tokens']]; [tok_winner] is the truth value of
    [token.get('winner', False)]. *)
Record token_fields : Type := mk_token {
  tok_winner : bool;
  tok_outcome : field string;
  tok_price : field Q
}.

Inductive token : Type :=
| Token (t : token_fields)
| NotAnObject.

(** The decoded body of the response. *)
Inductive body : Type :=
| InvalidJson                      (* [resp.json()] raises *)
| Empty                            (* a falsy document *)
| NotAMarket                       (* truthy, but without [.get] *)
| MarketData (closed : bool) (tokens : field (list token)) (question : option string).

(** What the GET on [/markets/<id>] comes to. *)
Inductive response : Type :=
| Failed (e : exn)                 (* timeout or any other exception *)
| Http (status : Z) (b : body).

Record resolution : Type := mk_resolution {
  res_market_id : string;
  res_question : string;
  res_winner : string;
  res_resolved_at : Z
}.

Definition is_yes_no (outcome : string) : bool :=
  (outcome =? "YES")%string || (outcome =? "NO")%string.

(** [token.get('outcome', '').upper()] *)
Definition outcome_upper (t : token) : result string :=
  match t with
  | NotAnObject => Raise AttributeError
  | Token f =>
    match tok_outcome f with
    | Absent => Return (upper "")
    | Present s => Return (upper s)
    | Malformed => Raise AttributeError
    end
  end.

(** [float(token.get('price', 0))] *)
Definition price_of (t : token) : result Q :=
  match t with
  | NotAnObject => Raise AttributeError
  | Token f =>
    match tok_price f with
    | Absent => Return 0
    | Present q => Return q
    | Malformed => Raise ValueError
    end
  end.

Definition winner_flag (t : token) : result bool :=
  match t with
  | NotAnObject => Raise AttributeError
  | Token f => Return (tok_winner f)
  end.

(** First loop: the first token flagged as winner whose outcome is YES or NO. *)
Fixpoint flagged_winner (tokens : list token) : result (option string) :=
  match tokens with
  | [] => Return None
  | t :: rest =>
    bind (winner_flag t) (fun flagged =>
      if flagged then
        bind (outcome_upper t) (fun outcome =>
          if is_yes_no outcome then Return (Some outcome) else flagged_winner rest)
      else flagged_winner rest)
  end.

(** Second loop: the first YES or NO token priced above 0.99. *)
Fixpoint priced_winner (tokens : list token) : result (option string) :=
  match tokens with
  | [] => Return None
  | t :: rest =>
    bind (price_of t) (fun price =>
      bind (outcome_upper t) (fun outcome =>
        if Qlt_bool (99 # 100) price && is_yes_no outcome
        then Return (Some outcome) else priced_winner rest))
  end.

(** The statements inside [try:]. *)
Definition check_body (market_id : string) (now : Z) (r : response)
  : result (option resolution) :=
  match r with
  | Failed e => Raise e
  | Http status b =>
    if (status =? 404)%Z then Return None
    else if negb (status =? 200)%Z then Return None
    else
      match b with
      | InvalidJson => Raise ValueError
      | Empty => Return None
      | NotAMarket => Raise AttributeError
      | MarketData closed tokens question =>
        if negb closed then Return None
        else
          match tokens with
          | Malformed => Raise TypeError
          | Absent | Present [] => Return None
          | Present (t :: ts) =>
            bind (flagged_winner (t :: ts)) (fun flagged =>
              bind (match flagged with
                    | Some w => Return (Some w)
                    | None => priced_winner (t :: ts)
                    end)
                   (fun winner =>
                      match winner with
                      | Some w =>
                        Return (Some (mk_resolution market_id
                                        (match question with
                                         | Some q => q
                                         | None => "Unknown"
                                         end)
                                        w now))
                      | None => Return None
                      end))
          end
      end
  end.

(** [check_market_resolution]: both handlers return [None]. *)
Definition check_market_resolution (market_id : string) (now : Z) (r : response)
  : result (option resolution) :=
  try_except (check_body market_id now r)
    (fun e => match e with
              | TimeoutError => Return None
              | _ => Return None
              end).

End Oracle.

(** ** The batch run: [ResolutionChecker.check_all_unresolved] *)

Module ResolutionRun.

(** [market_id LIKE '0x%']: SQLite's LIKE ignores the case of ASCII letters. *)
Definition is_hex_id (market_id : string) : bool :=
  match market_id with
  | String c0 (String c1 _) =>
    (Ascii.eqb c0 "0" && (Ascii.eqb c1 "x" || Ascii.eqb c1 "X"))%bool
  | _ => false
  end.

(** [SELECT DISTINCT]: each value once; the order, which SQL leaves open, is
    that of the first occurrences. *)
Fixpoint distinct (l : list string) : list string :=
  match l with
  | [] => []
  | x :: l' => x :: filter (fun y => negb (y =? x)%string) (distinct l')
  end.

(** [get_unresolved_market_ids] *)
Definition get_unresolved_market_ids (db : Database.t) : list string :=
  distinct
    (map Trade.market_id
         (filter (fun r => Trade.is_unresolved r && is_hex_id (Trade.market_id r))
                 (Database.trades db))).

(** An item of [summary["resolutions"]]. *)
Record resolved_market : Type := mk_resolved_market {
  rm_question : string;
  rm_winner : string;
  rm_trades : Z;
  rm_pnl : Q
}.

Record summary : Type := mk_summary {
  markets_checked : Z;
  markets_resolved : Z;
  total_trades_resolved : Z;
  total_wins : Z;
  total_losses : Z;
  total_pnl : Q;
  resolutions : list resolved_market
}.

(** The external feed: what the GET for each market id comes to. *)
Definition feed : Type := string -> Oracle.response.

(** The body of the loop over the market ids; the progress file and the
    pauses are left out. *)
Definition check_one (f : feed) (now : Z) (acc : Database.t * summary)
  (market_id : string) : result (Database.t * summary) :=
  let '(db, s) := acc in
  bind (Oracle.check_market_resolution market_id now (f market_id)) (fun resolution =>
    match resolution with
    | Some r =>
      bind (ResolutionChecker.resolve_market_trades market_id (Oracle.res_winner r) now db)
           (fun '(db', result) =>
              Return (db',
                      mk_summary (markets_checked s)
                        (markets_resolved s + 1)
                        (total_trades_resolved s + ResolutionChecker.trades_resolved result)
                        (total_wins s + ResolutionChecker.wins result)
                        (total_losses s + ResolutionChecker.losses result)
                        (total_pnl s + ResolutionChecker.total_pnl result)
                        (resolutions s ++
                         [mk_resolved_market (Oracle.res_question r) (Oracle.res_winner r)
                            (ResolutionChecker.trades_resolved result)
                            (ResolutionChecker.total_pnl result)])))
    | None => Return (db, s)
    end).

(** [check_all_unresolved] *)
Definition check_all_unresolved (f : feed) (now : Z) (db : Database.t)
  : result (Database.t * summary) :=
  let market_ids := get_unresolved_market_ids db in
  for_each (check_one f now) market_ids
    (db, mk_summary (Z.of_nat (List.length market_ids)) 0 0 0 0 0 []).

End ResolutionRun.

(** ** The position tracker: [WhaleTracker.check_whale_positions] *)

Module WhaleTracker.

(** A position as [get_active_positions_for_wallet] builds it. *)
Record position : Type := mk_position {
  pos_market_id : string;
  pos_market_question : string;
  pos_side : string;
  pos_size : Q;
  pos_entry_price : Q
}.

(** The body of the loop over the positions. *)
Definition check_position (whale_address : string) (now : Z)
  (db : Database.t) (pos : position) : Database.t :=
  if (pos_market_id pos =? "")%string then db
  else if Database.trade_exists whale_address (pos_market_id pos) (pos_side pos) db then db
  else
    let db1 := fst (Database.add_market (pos_market_id pos) (pos_market_question pos) db) in
    fst (Database.add_trade whale_address (pos_market_id pos) (pos_market_question pos)
           (Some (pos_side pos)) (Some (pos_size pos)) (Some (pos_entry_price pos))
           now db1).

(** [check_whale_positions]: a failed fetch is logged and changes nothing. *)
Definition check_whale_positions (whale_address : string) (now : Z)
  (fetched : result (list position)) (db : Database.t) : Database.t :=
  match fetched with
  | Raise _ => db
  | Return positions => fold_left (check_position whale_address now) positions db
  end.

End WhaleTracker.

(** ** The performance analyzer: [scripts/new_scoring_system.py] *)

Module PerformanceAnalyzer.

(** A profit factor: a float or [float('inf')]. *)
Inductive factor : Type :=
| Finite (q : Q)
| Infinite.

(** The metrics dict of a whale.  [max_drawdown], [consistency_score] (a
    square root), the averages and [last_trade] are left out: ranking reads
    none of them. *)
Record performance : Type := mk_performance {
  address : string;
  total_trades : Z;
  win_count : Z;
  loss_count : Z;
  win_rate : Q;
  total_wagered : Q;
  total_pnl : Q;
  roi : Q;
  profit_factor : factor;
  is_profitable : bool;
  sample_confidence : Q;
  rank : option Z;
  ranking_score : option Q
}.

(** A resolved trade as the query returns it: outcome, pnl, size. *)
Definition row : Type := (option string * Q * Q)%type.

Definition row_outcome (r : row) : option string := fst (fst r).
Definition row_pnl (r : row) : Q := snd (fst r).
Definition row_size (r : row) : Q := snd r.

Definition outcome_is (o : string) (r : row) : bool :=
  match row_outcome r with
  | Some s => (s =? o)%string
  | None => false
  end.

(** [sum(...)]: from 0, left to right. *)
Definition sum (l : list Q) : Q := fold_left Qplus l 0.

Definition len {A : Type} (l : list A) : Z := Z.of_nat (List.length l).

(** [get_whale_performance] on the resolved trades of the whale, whose sizes
    and pnls are numbers (on a NULL Python raises a [TypeError]); the
    address, which [get_qualified_whales] adds to the dict, is set here. *)
Definition get_whale_performance (whale_address : string) (trades : list row)
  (min_resolved_trades : Z) : result (option performance) :=
  if (len trades <? min_resolved_trades)%Z then Return None
  else
    let total_trades := len trades in
    let win_count := len (filter (outcome_is "WIN") trades) in
    let loss_count := len (filter (outcome_is "LOSS") trades) in
    bind (div (inject_Z win_count) (inject_Z total_trades)) (fun ratio =>
      let win_rate := ratio * 100 in
      let total_wagered := sum (map (fun t => Qabs (row_size t)) trades) in
      let total_pnl := sum (map row_pnl trades) in
      let roi := if Qlt_bool 0 total_wagered
                 then total_pnl / total_wagered * 100 else 0 in
      let total_wins_amount :=
        sum (map row_pnl (filter (fun t => Qlt_bool 0 (row_pnl t)) trades)) in
      let total_losses_amount :=
        Qabs (sum (map row_pnl (filter (fun t => Qlt_bool (row_pnl t) 0) trades))) in
      let profit_factor :=
        if Qlt_bool 0 total_losses_amount
        then Finite (round (total_wins_amount / total_losses_amount) 2)
        else Infinite in
      Return (Some (mk_performance whale_address total_trades win_count loss_count
                      (round win_rate 1) (round total_wagered 2) (round total_pnl 2)
                      (round roi 1) profit_factor (Qlt_bool 0 total_pnl)
                      (min 1 (inject_Z total_trades / 50))
                      None None))).

(** [min(whale['profit_factor'], 3)] *)
Definition capped_factor (f : factor) : Q :=
  match f with
  | Finite q => min q 3
  | Infinite => 3
  end.

(** The local function [ranking_score] of [rank_whales]. *)
Definition score (whale : performance) : Q :=
  let roi_score := roi whale * sample_confidence whale in
  let win_rate_bonus := (win_rate whale - 50) * (1 # 2) in
  let profit_factor_bonus := capped_factor (profit_factor whale) * 10 in
  roi_score + win_rate_bonus + profit_factor_bonus.

Definition set_rank (whale : performance) (r : Z) (s : Q) : performance :=
  mk_performance (address whale) (total_trades whale) (win_count whale)
    (loss_count whale) (win_rate whale) (total_wagered whale) (total_pnl whale)
    (roi whale) (profit_factor whale) (is_profitable whale)
    (sample_confidence whale) (Some r) (Some s).

(** The loop that numbers the sorted whales from [i]. *)
Fixpoint add_ranks (i : Z) (whales : list performance) : list performance :=
  match whales with
  | [] => []
  | whale :: rest => set_rank whale (i + 1) (round (score whale) 2) :: add_ranks (i + 1) rest
  end.

(** [rank_whales] *)
Definition rank_whales (qualified_whales : list performance) : list performance :=
  add_ranks 0 (sort_desc (fun a b => Qlt_bool (score a) (score b)) qualified_whales).

End PerformanceAnalyzer.

(** ** The signal engine: [scripts/trade_signals.py] *)

Module TradeSignalsGenerator.

(** The thresholds set in [__init__]. *)
Definition MIN_WIN_RATE : Q := 60.
Definition MIN_RESOLVED_TRADES : Z := 20.
Definition MIN_ROI : Q := 10.

(** A row of [get_proven_whales]. *)
Record whale : Type := mk_whale {
  address : string;
  resolved_trades : Z;
  win_rate : Q;
  roi : Q;
  total_pnl : Q;
  wins : Z;
  losses : Z
}.

(** The dict of [get_current_market_price], without its key [resolved],
    which nothing reads; [active] is the truth value of
    [market.get('active', False)]. *)
Record price_data : Type := mk_price_data {
  yes_price : Q;
  no_price : Q;
  active : bool
}.

(** A signal; [whale_stats] holds the whole row of the whale, [price_data]
    is flattened, and [generated_at] is left out. *)
Record signal : Type := mk_signal {
  signal_id : string;
  market_id : string;
  market_question : string;
  direction : string;
  whale_address : string;
  whale_stats : whale;
  whale_entry : Q;
  current_yes : Q;
  current_no : Q;
  recommended_price : Q;
  edge_estimate : Q;
  trade_time : Z;
  trade_size : option Q;
  confidence : string
}.


(** [_calculate_confidence] *)
Definition calculate_confidence (w : whale) (edge : Q) : string :=
  let s1 := if Qle_bool 70 (win_rate w) then 3%Z
            else if Qle_bool 65 (win_rate w) then 2%Z else 1%Z in
  let s2 := if (50 <=? resolved_trades w)%Z then 3%Z
            else if (30 <=? resolved_trades w)%Z then 2%Z else 1%Z in
  let s3 := if Qle_bool 20 edge then 3%Z
            else if Qle_bool 15 edge then 2%Z else 1%Z in
  let score := (0 + s1 + s2 + s3)%Z in
  if (8 <=? score)%Z then "HIGH"
  else if (6 <=? score)%Z then "MEDIUM"
  else "LOW".

Definition count_rows (p : Trade.t -> bool) (rows : list Trade.t) : Z :=
  Z.of_nat (List.length (filter p rows)).

Definition is_resolved (r : Trade.t) : bool :=
  match Trade.resolved r with
  | Some true => true
  | _ => false
  end.

Definition outcome_is (o : string) (r : Trade.t) : bool :=
  match Trade.outcome r with
  | Some s => (s =? o)%string
  | None => false
  end.

(** [SUM(CASE WHEN t.resolved = 1 THEN col ELSE 0 END)]: NULLs add nothing. *)
Definition sum_resolved (col : Trade.t -> option Q) (rows : list Trade.t) : Q :=
  fold_left (fun acc r => if is_resolved r
                          then match col r with
                               | Some v => acc + v
                               | None => acc
                               end
                          else acc)
            rows 0.

(** One group of the aggregate query and the Python test on it; the counts
    and sums are never NULL, so the [or 0] of the code changes nothing. *)
Definition proven_row (db : Database.t) (w : Whale.t) : list whale :=
  let rows := filter (fun r => (Trade.whale_address r =? Whale.address w)%string)
                     (Database.trades db) in
  let resolved_trades := count_rows is_resolved rows in
  let wins := count_rows (outcome_is "WIN") rows in
  let losses := count_rows (outcome_is "LOSS") rows in
  let total_pnl := sum_resolved Trade.pnl rows in
  let total_wagered := sum_resolved Trade.size rows in
  if (resolved_trades <? MIN_RESOLVED_TRADES)%Z then []
  else if (0 <? resolved_trades)%Z then
    let win_rate := inject_Z wins / inject_Z resolved_trades * 100 in
    let roi := if Qlt_bool 0 total_wagered
               then total_pnl / total_wagered * 100 else 0 in
    if Qle_bool MIN_WIN_RATE win_rate && Qle_bool MIN_ROI roi then
      [mk_whale (Whale.address w) resolved_trades (round win_rate 1) (round roi 1)
                (round total_pnl 2) wins losses]
    else []
  else [].

(** [get_proven_whales]: the groups, in the order of the whales table (SQL
    leaves it open), then sorted by ROI. *)
Definition get_proven_whales (db : Database.t) : list whale :=
  sort_desc (fun a b => Qlt_bool (roi a) (roi b))
            (flat_map (proven_row db) (Database.whales db)).


(** The live price feed: [None] stands for every failed or empty fetch. *)
Definition price_feed : Type := string -> option price_data.





(** An item of [position['whales']]. *)
Record member : Type := mk_member {
  mem_address : string;
  mem_win_rate : Q;
  mem_resolved_trades : Z;
  mem_edge : Q
}.

(** An entry of [market_positions] while the signals are grouped. *)
Record group : Type := mk_group {
  grp_market_id : string;
  grp_market_question : string;
  grp_direction : string;
  grp_whales : list member;
  grp_total_edge : Q
}.

(** The same entry once the aggregates of a consensus are written to it. *)
Record consensus : Type := mk_consensus {
  position : group;
  avg_win_rate : Q;
  total_resolved_trades : Z;
  avg_edge : Q;
  whale_count : Z;
  consensus_confidence : string
}.

(** [f"{market_id}_{direction}"] *)
Definition key_of (market_id direction : string) : string :=
  (market_id ++ "_" ++ direction)%string.

Definition member_of (s : signal) : member :=
  mk_member (whale_address s) (win_rate (whale_stats s))
            (resolved_trades (whale_stats s)) (edge_estimate s).

(** The body of the grouping loop: the entry of the key is created on its
    first signal; the dict keeps its keys in insertion order. *)
Fixpoint add_signal (s : signal) (market_positions : list (string * group))
  : list (string * group) :=
  match market_positions with
  | [] =>
    [(key_of (market_id s) (direction s),
      mk_group (market_id s) (market_question s) (direction s)
               ([] ++ [member_of s])%list (0 + edge_estimate s))]
  | (k, g) :: rest =>
    if (k =? key_of (market_id s) (direction s))%string then
      (k, mk_group (grp_market_id g) (grp_market_question g) (grp_direction g)
                   (grp_whales g ++ [member_of s])%list
                   (grp_total_edge g + edge_estimate s)) :: rest
    else (k, g) :: add_signal s rest
  end.

Definition group_signals (signals : list signal) : list (string * group) :=
  fold_left (fun market_positions s => add_signal s market_positions) signals [].

Definition sum_Q (l : list Q) : Q := fold_left Qplus l 0.
Definition sum_Z (l : list Z) : Z := fold_left Z.add l 0%Z.
Definition len {A : Type} (l : list A) : Z := Z.of_nat (List.length l).

(** [_calculate_consensus_confidence] *)
Definition calculate_consensus_confidence (whale_count : Z)
  (avg_win_rate avg_edge : Q) (total_trades : Z) : string :=
  let score :=
    (0 + Z.min 4 whale_count
     + (if Qle_bool 70 avg_win_rate then 3
        else if Qle_bool 65 avg_win_rate then 2 else 1)
     + (if Qle_bool 20 avg_edge then 3
        else if Qle_bool 15 avg_edge then 2 else 1)
     + (if 100 <=? total_trades then 2 else 1))%Z in
  if (10 <=? score)%Z then "VERY HIGH"
  else if (8 <=? score)%Z then "HIGH"
  else if (6 <=? score)%Z then "MEDIUM"
  else "LOW".

(** The aggregates of an entry with two whales or more; the divisor is the
    length just tested. *)
Definition aggregate (g : group) : consensus :=
  let n := len (grp_whales g) in
  let avg_win_rate := sum_Q (map mem_win_rate (grp_whales g)) / inject_Z n in
  let total_resolved_trades := sum_Z (map mem_resolved_trades (grp_whales g)) in
  let avg_edge := grp_total_edge g / inject_Z n in
  mk_consensus g avg_win_rate total_resolved_trades avg_edge n
    (calculate_consensus_confidence n avg_win_rate avg_edge total_resolved_trades).

(** The sort key [(avg_edge, avg_win_rate)], compared as Python tuples. *)
Definition key_lt (a b : consensus) : bool :=
  if Qeq_bool (avg_edge a) (avg_edge b)
  then Qlt_bool (avg_win_rate a) (avg_win_rate b)
  else Qlt_bool (avg_edge a) (avg_edge b).

(** [detect_consensus_signals] *)
Definition detect_consensus_signals (signals : list signal) : list consensus :=
  let market_positions := group_signals signals in
  let consensus_signals :=
    map (fun kp => aggregate (snd kp))
        (filter (fun kp => (2 <=? len (grp_whales (snd kp)))%Z) market_positions) in
  sort_desc key_lt consensus_signals.

End TradeSignalsGenerator.

(** ** Reads of the ledger store: [database.py] *)

Module Queries.

(** [get_all_whales]: [SELECT * FROM whales]. *)
Definition get_all_whales (db : Database.t) : list Whale.t := Database.whales db.

(** [get_whale_win_rate]: the counters of the whale and its win rate in per
    cent; zeros for an unknown address and for a whale with no resolved
    trade. *)
Definition get_whale_win_rate (address : string) (db : Database.t) : Z * Z * Q :=
  match Database.get_whale address db with
  | None => (0%Z, 0%Z, 0)
  | Some whale =>
    let wins := or_Z (Whale.win_count whale) 0 in
    let losses := or_Z (Whale.loss_count whale) 0 in
    let total := (wins + losses)%Z in
    let rate := if (0 <? total)%Z
                then inject_Z wins / inject_Z total * 100 else 0 in
    (wins, losses, rate)
  end.

(** [m.resolved = FALSE]: a NULL flag does not match. *)
Definition market_is_open (m : Market.t) : bool :=
  match Market.resolved m with
  | Some b => negb b
  | None => false
  end.

(** [get_unresolved_markets]: the open markets joined with their trades that
    have [resolved = FALSE].  [market_id] is the primary key of the markets,
    so the rows that DISTINCT merges are the copies of one market. *)
Definition get_unresolved_markets (db : Database.t) : list Market.t :=
  filter (fun m => market_is_open m
                   && existsb (fun t => (Market.market_id m =? Trade.market_id t)%string
                                        && Trade.resolved_is_false t)
                              (Database.trades db))
         (Database.markets db).

End Queries.

(** ** The figures of the ledger: [ResolutionChecker.get_resolution_stats] *)

Module ResolutionStats.

Record t : Type := mk {
  total_trades : Z;
  resolved_trades : Z;
  unresolved_trades : Z;
  wins : Z;
  losses : Z;
  total_pnl : Q;
  win_rate : Q
}.

(** [resolved = 1] *)
Definition is_resolved (r : Trade.t) : bool :=
  match Trade.resolved r with
  | Some true => true
  | _ => false
  end.

(** [outcome = 'WIN'], [outcome = 'LOSS'] *)
Definition outcome_is (o : string) (r : Trade.t) : bool :=
  match Trade.outcome r with
  | Some s => (s =? o)%string
  | None => false
  end.

(** [SUM(CASE WHEN c THEN 1 ELSE 0 END)]: NULL on an empty table. *)
Definition sum_case (c : Trade.t -> bool) (rows : list Trade.t) : option Z :=
  match rows with
  | [] => None
  | _ => Some (fold_left (fun acc r => if c r then acc + 1 else acc + 0)%Z rows 0%Z)
  end.

(** [SUM(CASE WHEN resolved = 1 THEN pnl ELSE 0 END)]: a NULL term is
    skipped, and the sum is NULL when every term is. *)
Definition sum_pnl (rows : list Trade.t) : option Q :=
  fold_left (fun acc r =>
               match (if is_resolved r then Trade.pnl r else Some 0) with
               | Some v => Some (match acc with
                                 | Some a => a + v
                                 | None => v
                                 end)
               | None => acc
               end)
            rows None.

(** [get_resolution_stats] *)
Definition get_resolution_stats (db : Database.t) : t :=
  let rows := Database.trades db in
  let total_trades := Z.of_nat (List.length rows) in
  let resolved_trades := or_Z (sum_case is_resolved rows) 0 in
  let wins := or_Z (sum_case (outcome_is "WIN") rows) 0 in
  let losses := or_Z (sum_case (outcome_is "LOSS") rows) 0 in
  let total_resolved := (wins + losses)%Z in
  mk total_trades resolved_trades (total_trades - resolved_trades)%Z wins losses
     (or_Q (sum_pnl rows) 0)
     (if (0 <? total_resolved)%Z
      then inject_Z wins / inject_Z total_resolved * 100 else 0).

End ResolutionStats.

(** ** Whale discovery: [WhaleTracker.discover_whales] *)

Module WhaleDiscovery.

(** An item of the list that [PolymarketAPI.discover_whales] returns, with
    the two keys that the tracker reads. *)
Record found : Type := mk_found {
  fw_address : string;
  fw_total_volume : Q
}.

(** The body of the loop: a new address is added, the volume of a known one
    is updated. *)
Definition discover_one (acc : Database.t * Z) (whale : found) : Database.t * Z :=
  let '(db, new_count) := acc in
  let '(db1, added) :=
    Database.add_whale (fw_address whale) (Some (fw_total_volume whale)) db in
  if added then (db1, (new_count + 1)%Z)
  else (Database.update_whale_volume (fw_address whale) (Some (fw_total_volume whale)) db1,
        new_count).

(** [discover_whales]: a failed discovery is logged and returns no whale;
    the count of the new whales, which the code logs, is returned beside the
    store. *)
Definition discover_whales (discovered : result (list found)) (db : Database.t)
  : Database.t * Z * list found :=
  match discovered with
  | Raise _ => (db, 0%Z, [])
  | Return whales =>
    let '(db', new_count) := fold_left discover_one whales (db, 0%Z) in
    (db', new_count, whales)
  end.

End WhaleDiscovery.

(** ** More of the performance analyzer: the drawdown, the qualified whales *)

Module PerformanceDetails.

(** The variables of the loop of lines 70-81 of [get_whale_performance]. *)
Record state : Type := mk_state {
  running_pnl : Q;
  peak : Q;
  max_drawdown : Q
}.

(** The body of the loop, for a trade with this pnl. *)
Definition step (st : state) (pnl : Q) : state :=
  let running_pnl := running_pnl st + pnl in
  let peak := if Qlt_bool (peak st) running_pnl then running_pnl else peak st in
  let drawdown := peak - running_pnl in
  let max_drawdown := if Qlt_bool (max_drawdown st) drawdown
                      then drawdown else max_drawdown st in
  mk_state running_pnl peak max_drawdown.

(** [max_drawdown] at the end of the loop; the dict holds it rounded to two
    digits. *)
Definition drawdown (trades : list PerformanceAnalyzer.row) : Q :=
  max_drawdown (fold_left step (map PerformanceAnalyzer.row_pnl trades) (mk_state 0 0 0)).

Definition reported_drawdown (trades : list PerformanceAnalyzer.row) : Q :=
  round (drawdown trades) 2.

(** The query of [get_whale_performance]: the resolved trades of the whale,
    [ORDER BY entry_time]; trades entered at the same time keep the order
    of the table, which SQL leaves open. *)
Definition resolved_trades (db : Database.t) (whale_address : string) : list Trade.t :=
  sort_desc (fun a b => (Trade.entry_time b <? Trade.entry_time a)%Z)
    (filter (fun r => (Trade.whale_address r =? whale_address)%string
                      && ResolutionStats.is_resolved r)
            (Database.trades db)).

(** The cells of a fetched trade that the metrics read: on a NULL pnl or
    size the sums raise a [TypeError]. *)
Definition as_row (r : Trade.t) : result PerformanceAnalyzer.row :=
  match Trade.pnl r, Trade.size r with
  | Some pnl, Some size => Return (Trade.outcome r, pnl, size)
  | _, _ => Raise TypeError
  end.

Fixpoint as_rows (l : list Trade.t) : result (list PerformanceAnalyzer.row) :=
  match l with
  | [] => Return []
  | r :: l' =>
    bind (as_row r) (fun x => bind (as_rows l') (fun xs => Return (x :: xs)))
  end.

(** [get_whale_performance] on the store. *)
Definition get_whale_performance (db : Database.t) (whale_address : string)
  (min_resolved_trades : Z) : result (option PerformanceAnalyzer.performance) :=
  let trades := resolved_trades db whale_address in
  if (PerformanceAnalyzer.len trades <? min_resolved_trades)%Z then Return None
  else
    bind (as_rows trades) (fun rows =>
      PerformanceAnalyzer.get_whale_performance whale_address rows min_resolved_trades).




End PerformanceDetails.

(** ** The feed client: [polymarket_api.py] *)

Module PolymarketAPI.

(** What one GET comes to. *)
Inductive attempt (A : Type) : Type :=
| Ok (payload : A)                 (* status 200 and a body that decodes *)
| InvalidJson                      (* status 200, [response.json()] raises a ValueError *)
| RateLimited                      (* status 429 *)
| ErrorStatus (status : Z)         (* any other status *)
| Timeout                          (* [asyncio.TimeoutError] *)
| ClientFailure.                   (* [aiohttp.ClientError] *)

Arguments Ok {A} payload.
Arguments InvalidJson {A}.
Arguments RateLimited {A}.
Arguments ErrorStatus {A} status.
Arguments Timeout {A}.
Arguments ClientFailure {A}.

(** The settings of [__init__]. *)
Definition rate_limit_delay : Q := 3 # 10.
Definition max_retries : nat := 3.
Definition backoff_factor : Z := 2.

(** [self._rate_limit_delay * (self._backoff_factor ** attempt)] *)
Definition backoff (attempt : nat) : Q :=
  rate_limit_delay * inject_Z (backoff_factor ^ Z.of_nat attempt).

(** What a call of [_request] comes to: what it returns or raises, how many
    requests it made and how many seconds it slept. *)
Record call (A : Type) : Type := mk_call {
  returned : result (option A);
  requests : nat;
  slept : Q
}.

Arguments mk_call {A} returned requests slept.
Arguments returned {A} c.
Arguments requests {A} c.
Arguments slept {A} c.

(** The loop of [_request] over the attempts still to make; [respond] gives
    the answer of the feed to each attempt. *)
Fixpoint request_loop {A : Type} (respond : nat -> attempt A) (attempts : list nat)
  (made : nat) (waited : Q) : call A :=
  match attempts with
  | [] => mk_call (Return None) made waited
  | attempt :: rest =>
    let waited := waited + rate_limit_delay in
    match respond attempt with
    | Ok payload => mk_call (Return (Some payload)) (S made) waited
    | InvalidJson => mk_call (Raise ValueError) (S made) waited
    | RateLimited => request_loop respond rest (S made) (waited + backoff attempt)
    | ErrorStatus _ => mk_call (Return None) (S made) waited
    | Timeout | ClientFailure =>
      request_loop respond rest (S made)
        (if (attempt <? max_retries - 1)%nat then waited + backoff attempt else waited)
    end
  end.

(** [_request] *)
Definition _request {A : Type} (respond : nat -> attempt A) : call A :=
  request_loop respond (seq 0 max_retries) 0 0.

(** A position as the feed sends it, with the keys that
    [get_active_positions_for_wallet] reads; [conditionId] and [title] are
    strings when present. *)
Record raw_position : Type := mk_raw_position {
  raw_size : Oracle.field Q;
  raw_current_value : Oracle.field Q;
  raw_condition_id : option string;
  raw_title : option string;
  raw_outcome : Oracle.field string;
  raw_avg_price : Oracle.field Q;
  raw_price : Oracle.field Q;
  raw_cur_price : Oracle.field Q;
  raw_current_price : Oracle.field Q;
  raw_pnl : Oracle.field Q
}.

(** [get_user_positions]: [result if result else []]. *)
Definition get_user_positions (respond : nat -> attempt (list raw_position))
  : result (list raw_position) :=
  bind (returned (_request respond))
       (fun result => Return (match result with
                              | Some positions => positions
                              | None => []
                              end)).

(** [float(pos.get(key, default))]: a value that is not a number raises a
    ValueError or a TypeError. *)
Definition to_float (x : Oracle.field Q) (default : Q) : result Q :=
  match x with
  | Oracle.Absent => Return default
  | Oracle.Present q => Return q
  | Oracle.Malformed => Raise ValueError
  end.

(** [float(pos.get(key, pos.get(other, 0.5)))] *)
Definition to_float_or (x other : Oracle.field Q) : result Q :=
  match x with
  | Oracle.Absent => to_float other (1 # 2)
  | _ => to_float x (1 # 2)
  end.

(** [max(a, b)]: the second argument only when it is strictly larger. *)
Definition max (a b : Q) : Q := if Qlt_bool a b then b else a.

(** [pos.get('outcome', 'YES').upper()] *)
Definition side_of (pos : raw_position) : result string :=
  match raw_outcome pos with
  | Oracle.Absent => Return (upper "YES")
  | Oracle.Present s => Return (upper s)
  | Oracle.Malformed => Raise AttributeError
  end.

(** The statements inside [try:] for one position: [None] when the position
    is below the minimum. *)
Definition parse_position (min_size : Q) (pos : raw_position)
  : result (option WhaleTracker.position) :=
  bind (to_float (raw_size pos) 0) (fun size =>
  bind (to_float (raw_current_value pos) size) (fun current_value =>
    let value := max size current_value in
    if Qle_bool min_size value then
      bind (side_of pos) (fun side =>
      bind (to_float_or (raw_avg_price pos) (raw_price pos)) (fun entry_price =>
      bind (to_float_or (raw_cur_price pos) (raw_current_price pos)) (fun _ =>
      bind (to_float (raw_pnl pos) 0) (fun _ =>
        Return (Some (WhaleTracker.mk_position
                        (match raw_condition_id pos with
                         | Some m => m
                         | None => ""
                         end)
                        (match raw_title pos with
                         | Some q => q
                         | None => "Unknown"
                         end)
                        side value entry_price))))))
    else Return None)).

(** The loop over the positions: a ValueError or a TypeError skips the
    position, any other exception leaves the loop. *)
Fixpoint significant_positions (min_size : Q) (positions : list raw_position)
  (significant : list WhaleTracker.position) : result (list WhaleTracker.position) :=
  match positions with
  | [] => Return significant
  | pos :: rest =>
    match parse_position min_size pos with
    | Return (Some p) => significant_positions min_size rest (significant ++ [p])
    | Return None => significant_positions min_size rest significant
    | Raise ValueError | Raise TypeError =>
      significant_positions min_size rest significant
    | Raise e => Raise e
    end
  end.

(** [get_active_positions_for_wallet] *)
Definition get_active_positions_for_wallet
  (respond : nat -> attempt (list raw_position)) (min_size : Q)
  : result (list WhaleTracker.position) :=
  bind (get_user_positions respond)
       (fun positions => significant_positions min_size positions []).

End PolymarketAPI.

(** ** The markets seen: table [seen_markets] of [database.py] *)

Module SeenMarket.
Record t : Type := mk {
  condition_id : string;
  slug : string;
  question : string;
  first_seen : Z;
  volume : option Q;
  liquidity : option Q;
  initial_yes_price : option Q;
  initial_no_price : option Q;
  price_1hr_yes : option Q;
  price_24hr_yes : option Q;
  price_7d_yes : option Q;
  checked_1hr : option bool;
  checked_24hr : option bool;
  checked_7d : option bool
}.
End SeenMarket.

Module SeenMarkets.

(** The table, in rowid order. *)
Definition t : Type := list SeenMarket.t.

(** [is_market_seen] *)
Definition is_market_seen (condition_id : string) (table : t) : bool :=
  existsb (fun m => (SeenMarket.condition_id m =? condition_id)%string) table.

(** [add_seen_market]: INSERT OR IGNORE on the primary key; the checkpoint
    prices are NULL and the flags take their default FALSE. *)
Definition add_seen_market (condition_id slug question : string) (volume liquidity : Q)
  (yes_price no_price : option Q) (now : Z) (table : t) : t * bool :=
  if is_market_seen condition_id table then (table, false)
  else ((table ++ [SeenMarket.mk condition_id slug question now (Some volume)
                                 (Some liquidity) yes_price no_price None None None
                                 (Some false) (Some false) (Some false)])%list,
        true).

(** The three UPDATE statements of [update_market_price]. *)
Definition set_1hr (yes_price : Q) (m : SeenMarket.t) : SeenMarket.t :=
  SeenMarket.mk (SeenMarket.condition_id m) (SeenMarket.slug m) (SeenMarket.question m)
    (SeenMarket.first_seen m) (SeenMarket.volume m) (SeenMarket.liquidity m)
    (SeenMarket.initial_yes_price m) (SeenMarket.initial_no_price m)
    (Some yes_price) (SeenMarket.price_24hr_yes m) (SeenMarket.price_7d_yes m)
    (Some true) (SeenMarket.checked_24hr m) (SeenMarket.checked_7d m).

Definition set_24hr (yes_price : Q) (m : SeenMarket.t) : SeenMarket.t :=
  SeenMarket.mk (SeenMarket.condition_id m) (SeenMarket.slug m) (SeenMarket.question m)
    (SeenMarket.first_seen m) (SeenMarket.volume m) (SeenMarket.liquidity m)
    (SeenMarket.initial_yes_price m) (SeenMarket.initial_no_price m)
    (SeenMarket.price_1hr_yes m) (Some yes_price) (SeenMarket.price_7d_yes m)
    (SeenMarket.checked_1hr m) (Some true) (SeenMarket.checked_7d m).

Definition set_7d (yes_price : Q) (m : SeenMarket.t) : SeenMarket.t :=
  SeenMarket.mk (SeenMarket.condition_id m) (SeenMarket.slug m) (SeenMarket.question m)
    (SeenMarket.first_seen m) (SeenMarket.volume m) (SeenMarket.liquidity m)
    (SeenMarket.initial_yes_price m) (SeenMarket.initial_no_price m)
    (SeenMarket.price_1hr_yes m) (SeenMarket.price_24hr_yes m) (Some yes_price)
    (SeenMarket.checked_1hr m) (SeenMarket.checked_24hr m) (Some true).

Definition update_where (condition_id : string) (f : SeenMarket.t -> SeenMarket.t)
  (table : t) : t :=
  map (fun m => if (SeenMarket.condition_id m =? condition_id)%string then f m else m)
      table.

(** [update_market_price]: a timeframe other than the three changes
    nothing. *)
Definition update_market_price (condition_id timeframe : string) (yes_price : Q)
  (table : t) : t :=
  if (timeframe =? "1hr")%string then update_where condition_id (set_1hr yes_price) table
  else if (timeframe =? "24hr")%string
       then update_where condition_id (set_24hr yes_price) table
  else if (timeframe =? "7d")%string
       then update_where condition_id (set_7d yes_price) table
  else table.

(** [flag = FALSE]: a NULL flag does not match. *)
Definition is_false (flag : option bool) : bool :=
  match flag with
  | Some b => negb b
  | None => false
  end.

Definition has_initial_price (m : SeenMarket.t) : bool :=
  match SeenMarket.initial_yes_price m with
  | Some _ => true
  | None => false
  end.

(** The WHERE clause of [get_markets_needing_check] for a flag and an age in
    seconds. *)
Definition needs_check (flag : SeenMarket.t -> option bool) (age now : Z)
  (m : SeenMarket.t) : bool :=
  is_false (flag m) && (SeenMarket.first_seen m <? now - age)%Z && has_initial_price m.

(** [get_markets_needing_check]: for a timeframe other than the three no
    query runs and the cursor has no row. *)
Definition get_markets_needing_check (timeframe : string) (now : Z) (table : t)
  : list SeenMarket.t :=
  if (timeframe =? "1hr")%string
  then filter (needs_check SeenMarket.checked_1hr 3600 now) table
  else if (timeframe =? "24hr")%string
       then filter (needs_check SeenMarket.checked_24hr 86400 now) table
  else if (timeframe =? "7d")%string
       then filter (needs_check SeenMarket.checked_7d 604800 now) table
  else [].

(** [get_seen_market_count] *)
Definition get_seen_market_count (table : t) : Z := Z.of_nat (List.length table).

End SeenMarkets.

(** ** New markets and price checkpoints: [tracker.py] *)

Module MarketWatch.

(** A market as the feed sends it, with the keys that [check_new_markets]
    reads; the condition ids, the question and the slug are strings where
    the key is present; an item of [outcomePrices] is [None] when [float]
    raises on it. *)
Record raw_market : Type := mk_raw_market {
  raw_conditionId : option string;
  raw_condition_id : option string;
  raw_question : option string;
  raw_slug : option string;
  raw_volume : Oracle.field Q;
  raw_liquidity : Oracle.field Q;
  raw_outcome_prices : list (option Q)
}.

(** The alert for a new market. *)
Record alert : Type := mk_alert {
  al_question : string;
  al_slug : string;
  al_volume : Q;
  al_liquidity : Q;
  al_yes_price : option Q
}.

(** [market.get('conditionId') or market.get('condition_id')], with [None]
    when the result is falsy. *)
Definition condition_id_of (market : raw_market) : option string :=
  match raw_conditionId market with
  | Some c => if (c =? "")%string
              then match raw_condition_id market with
                   | Some c' => if (c' =? "")%string then None else Some c'
                   | None => None
                   end
              else Some c
  | None => match raw_condition_id market with
            | Some c' => if (c' =? "")%string then None else Some c'
            | None => None
            end
  end.

(** [float(market.get(key, 0) or 0)] *)
Definition amount (x : Oracle.field Q) : result Q :=
  match x with
  | Oracle.Absent => Return 0
  | Oracle.Present q => Return (if Qeq_bool q 0 then 0 else q)
  | Oracle.Malformed => Raise ValueError
  end.

(** The initial prices: the inner [try] keeps what was assigned before
    [float] raised. *)
Definition initial_prices (outcome_prices : list (option Q)) : option Q * option Q :=
  match outcome_prices with
  | first :: second :: _ =>
    match first with
    | Some yes => (Some yes, second)
    | None => (None, None)
    end
  | _ => (None, None)
  end.

(** The state of the loop of [check_new_markets]: the table, the alerts
    sent and [new_count]. *)
Definition watch : Type := (SeenMarkets.t * list alert * Z)%type.

(** The body of the loop. *)
Definition check_market (now : Z) (acc : watch) (market : raw_market) : result watch :=
  let '(table, alerts, new_count) := acc in
  match condition_id_of market with
  | None => Return acc
  | Some condition_id =>
    if SeenMarkets.is_market_seen condition_id table then Return acc
    else
      let question := match raw_question market with
                      | Some q => q
                      | None => "Unknown"
                      end in
      let slug := match raw_slug market with
                  | Some s => s
                  | None => ""
                  end in
      bind (amount (raw_volume market)) (fun volume =>
      bind (amount (raw_liquidity market)) (fun liquidity =>
        let '(yes_price, no_price) := initial_prices (raw_outcome_prices market) in
        let table' := fst (SeenMarkets.add_seen_market condition_id slug question volume
                             liquidity yes_price no_price now table) in
        Return (table',
                (alerts ++ [mk_alert question slug volume liquidity yes_price])%list,
                (new_count + 1)%Z)))
  end.

(** The loop, which the outer [try] ends at the first exception: what was
    written before stays written. *)
Fixpoint check_markets (now : Z) (markets : list raw_market) (acc : watch) : watch :=
  match markets with
  | [] => acc
  | market :: rest =>
    match check_market now acc market with
    | Return acc' => check_markets now rest acc'
    | Raise _ => acc
    end
  end.

(** [check_new_markets]: a failed fetch is logged and changes nothing. *)
Definition check_new_markets (now : Z) (fetched : result (list raw_market))
  (table : SeenMarkets.t) : watch :=
  match fetched with
  | Raise _ => (table, [], 0%Z)
  | Return markets => check_markets now markets (table, [], 0%Z)
  end.

(** The live prices: what [get_market_prices] comes to for a market, the
    prices YES and NO, [None] for the empty dict, or the exception that
    [_request] lets through. *)
Definition price_feed : Type := string -> result (option (Q * Q)).

(** The alert for a price move. *)
Record move : Type := mk_move {
  mv_question : string;
  mv_timeframe : string;
  mv_initial : Q;
  mv_current : Q;
  mv_gain_pct : Q
}.

(** The body of the first loop of [check_market_price_updates]: a price that
    is missing or 0 is falsy and writes nothing. *)
Definition checkpoint_1hr (prices : price_feed) (acc : SeenMarkets.t * list move)
  (market : SeenMarket.t) : result (SeenMarkets.t * list move) :=
  let '(table, moves) := acc in
  bind (prices (SeenMarket.condition_id market)) (fun answer =>
    match answer with
    | Some (yes_price, _) =>
      if Qeq_bool yes_price 0 then Return acc
      else
        let table' := SeenMarkets.update_market_price (SeenMarket.condition_id market)
                        "1hr" yes_price table in
        let initial := or_Q (SeenMarket.initial_yes_price market) 0 in
        if negb (Qeq_bool initial 0) && Qlt_bool 0 initial then
          bind (div (yes_price - initial) initial) (fun ratio =>
            let gain_pct := ratio * 100 in
            if Qlt_bool 20 (Qabs gain_pct)
            then Return (table',
                         (moves ++ [mk_move (SeenMarket.question market) "1hr" initial
                                            yes_price gain_pct])%list)
            else Return (table', moves))
        else Return (table', moves)
    | None => Return acc
    end).

(** The body of the second loop. *)
Definition checkpoint_24hr (prices : price_feed) (acc : SeenMarkets.t * list move)
  (market : SeenMarket.t) : result (SeenMarkets.t * list move) :=
  let '(table, moves) := acc in
  bind (prices (SeenMarket.condition_id market)) (fun answer =>
    match answer with
    | Some (yes_price, _) =>
      if Qeq_bool yes_price 0 then Return acc
      else Return (SeenMarkets.update_market_price (SeenMarket.condition_id market)
                     "24hr" yes_price table, moves)
    | None => Return acc
    end).

(** A loop that the outer [try] ends at the first exception. *)
Fixpoint until_raise {A S : Type} (body : S -> A -> result S) (l : list A) (s : S)
  : S * option exn :=
  match l with
  | [] => (s, None)
  | x :: l' =>
    match body s x with
    | Return s' => until_raise body l' s'
    | Raise e => (s, Some e)
    end
  end.

(** [check_market_price_updates]: ten markets at most for each timeframe;
    the second query runs after the writes of the first loop. *)
Definition check_market_price_updates (prices : price_feed) (now : Z)
  (table : SeenMarkets.t) : SeenMarkets.t * list move :=
  let markets_1hr := SeenMarkets.get_markets_needing_check "1hr" now table in
  match until_raise (checkpoint_1hr prices) (firstn 10 markets_1hr) (table, []) with
  | (acc, Some _) => acc
  | (acc, None) =>
    let markets_24hr := SeenMarkets.get_markets_needing_check "24hr" now (fst acc) in
    fst (until_raise (checkpoint_24hr prices) (firstn 10 markets_24hr) acc)
  end.

End MarketWatch.

(** * Vocabulary of the statements *)

Module Spec.

(** The rows that [resolve_market_trades] fetches. *)
Definition selected (market_id : string) (r : Trade.t) : bool :=
  (Trade.market_id r =? market_id)%string && Trade.is_unresolved r.

(** The side as the resolution engine reads it. *)
Definition side_read (r : Trade.t) : string := upper (or_str (Trade.side r) "").

Definition won (winner : string) (r : Trade.t) : bool :=
  (side_read r =? winner)%string.

(** The entry price as the resolution engine reads it. *)
Definition price_read (r : Trade.t) : Q := or_Q (Trade.entry_price r) (1 # 2).

Definition size_read (r : Trade.t) : Q := or_Q (Trade.size r) 0.

Definition pnl_value (winner : string) (r : Trade.t) : Q :=
  if won winner r then
    (if Qlt_bool 0 (price_read r) then size_read r / price_read r else 0) - size_read r
  else - size_read r.

Definition outcome_value (winner : string) (r : Trade.t) : string :=
  if won winner r then "WIN" else "LOSS".

(** The row once settled against the winner. *)
Definition settle (winner : string) (r : Trade.t) : Trade.t :=
  Trade.set_resolution r (outcome_value winner r) (pnl_value winner r).

(** The write of the loop body for the fetched row [t], seen on a stored
    row [r]. *)
Definition write_for (winner : string) (t r : Trade.t) : Trade.t :=
  if (Trade.id r =? Trade.id t)%Z
  then Trade.set_resolution r (outcome_value winner t) (pnl_value winner t)
  else r.

(** The tallies of the loop body for the fetched row [t]. *)
Definition tally (winner : string) (res : ResolutionChecker.results) (t : Trade.t)
  : ResolutionChecker.results :=
  ResolutionChecker.mk_results
    (ResolutionChecker.trades_resolved res + 1)
    (if won winner t then ResolutionChecker.wins res + 1 else ResolutionChecker.wins res)
    (if won winner t then ResolutionChecker.losses res
     else ResolutionChecker.losses res + 1)
    (ResolutionChecker.total_pnl res + pnl_value winner t)
    (ResolutionChecker.bump_update (Trade.whale_address t) (won winner t)
       (pnl_value winner t) (ResolutionChecker.whale_updates res)).

(** Reading the dict [whale_updates]. *)
Definition mem (a : string) (u : list (string * ResolutionChecker.stats)) : bool :=
  existsb (fun e => (fst e =? a)%string) u.

Definition stat_of (a : string) (u : list (string * ResolutionChecker.stats))
  : ResolutionChecker.stats :=
  match find (fun e => (fst e =? a)%string) u with
  | Some e => snd e
  | None => ResolutionChecker.mk_stats 0 0 0
  end.

(** The fetched positions of a whale, and how many of them won or lost. *)
Definition held_by (a : string) (l : list Trade.t) : list Trade.t :=
  filter (fun t => (Trade.whale_address t =? a)%string) l.

Definition wins_of (winner a : string) (l : list Trade.t) : Z :=
  Z.of_nat (List.length (filter (won winner) (held_by a l))).

Definition losses_of (winner a : string) (l : list Trade.t) : Z :=
  Z.of_nat (List.length (filter (fun t => negb (won winner t)) (held_by a l))).

(** A whale row once the tallies [s] of a batch are added to its counters. *)
Definition credit (s : ResolutionChecker.stats) (x : Whale.t) : Whale.t :=
  Whale.set_stats x
    (Some (or_Z (Whale.win_count x) 0 + ResolutionChecker.st_wins s)%Z)
    (Some (or_Z (Whale.loss_count x) 0 + ResolutionChecker.st_losses s)%Z).

(** Primary keys are unique. *)
Definition unique_trade_ids (db : Database.t) : Prop :=
  NoDup (map Trade.id (Database.trades db)).

Definition unique_addresses (db : Database.t) : Prop :=
  NoDup (map Whale.address (Database.whales db)).

(** Scenario of the specification: market M resolves to YES; one position
    YES 100 at 0.4, one position NO 50 at 0.5. *)
Definition scenario_yes : Trade.t :=
  Trade.mk 1 "0xaaa" "0xm1" "Will it rain?" (Some "YES") (Some 100) (Some (4 # 10))
           0 (Some false) None None.

Definition scenario_no : Trade.t :=
  Trade.mk 2 "0xbbb" "0xm1" "Will it rain?" (Some "NO") (Some 50) (Some (1 # 2))
           0 (Some false) None None.

Definition scenario_db : Database.t :=
  Database.mk
    [Whale.mk "0xaaa" (Some 60000) (Some 0%Z) (Some 0%Z);
     Whale.mk "0xbbb" (Some 75000) (Some 0%Z) (Some 0%Z)]
    [scenario_yes; scenario_no]
    [Market.mk "0xm1" "Will it rain?" (Some false) None None].

(** A winning position whose stored entry price is 0. *)
Definition free_entry : Trade.t :=
  Trade.mk 1 "0xaaa" "0xm1" "Will it rain?" (Some "YES") (Some 100) (Some 0)
           0 (Some false) None None.

Definition free_entry_db : Database.t :=
  Database.mk [Whale.mk "0xaaa" (Some 60000) (Some 0%Z) (Some 0%Z)]
              [free_entry]
              [Market.mk "0xm1" "Will it rain?" (Some false) None None].

(** A stored position is well shaped: resolved with an outcome WIN or LOSS
    and a pnl, or not resolved with neither. *)
Definition well_shaped (r : Trade.t) : Prop :=
  match Trade.resolved r with
  | Some true =>
    (Trade.outcome r = Some "WIN" \/ Trade.outcome r = Some "LOSS")
    /\ Trade.pnl r <> None
  | _ => Trade.outcome r = None /\ Trade.pnl r = None
  end.

(** The store of the scenario once the market is resolved to YES. *)
Definition settled_db : Database.t :=
  Database.mk
    [Whale.mk "0xaaa" (Some 60000) (Some 1%Z) (Some 0%Z);
     Whale.mk "0xbbb" (Some 75000) (Some 0%Z) (Some 1%Z)]
    [Trade.set_resolution scenario_yes "WIN" 150;
     Trade.set_resolution scenario_no "LOSS" (- (50))]
    [Market.mk "0xm1" "Will it rain?" (Some true) (Some "YES") (Some 0%Z)].

(** The duplicate-detection key of a stored position. *)
Definition has_key (whale_address market_id side : string) (r : Trade.t) : bool :=
  (Trade.whale_address r =? whale_address)%string
  && (Trade.market_id r =? market_id)%string
  && Database.side_matches (Trade.side r) side.

(** How many stored positions carry the key. *)
Definition key_count (whale_address market_id side : string) (db : Database.t) : nat :=
  List.length (filter (has_key whale_address market_id side) (Database.trades db)).

(** At most one stored position for each key. *)
Definition one_per_key (db : Database.t) : Prop :=
  forall whale_address market_id side,
    (key_count whale_address market_id side db <= 1)%nat.

(** The failures of the feed that the oracle client has to absorb: the
    request fails or times out, the status is not 200, the body is missing,
    is not JSON, is not an object, its token list is not a list, or the
    list starts with an item that is not an object. *)
Definition transient_failure (r : Oracle.response) : Prop :=
  match r with
  | Oracle.Failed _ => True
  | Oracle.Http status b =>
    status <> 200%Z
    \/ match b with
       | Oracle.InvalidJson | Oracle.Empty | Oracle.NotAMarket => True
       | Oracle.MarketData _ tokens _ =>
         tokens = Oracle.Malformed
         \/ exists rest, tokens = Oracle.Present (Oracle.NotAnObject :: rest)
       end
  end.

(** Tokens whose outcome and price can be read. *)
Definition readable (f : Oracle.token_fields) : Prop :=
  Oracle.tok_outcome f <> Oracle.Malformed /\ Oracle.tok_price f <> Oracle.Malformed.

Definition outcome_text (f : Oracle.token_fields) : string :=
  upper (match Oracle.tok_outcome f with
         | Oracle.Present s => s
         | _ => ""
         end).

Definition price_value (f : Oracle.token_fields) : Q :=
  match Oracle.tok_price f with
  | Oracle.Present q => q
  | _ => 0
  end.

(** First tier: the first token flagged as winner with outcome YES or NO. *)
Definition flagged (fs : list Oracle.token_fields) : option Oracle.token_fields :=
  find (fun f => Oracle.tok_winner f && Oracle.is_yes_no (outcome_text f)) fs.

(** Second tier: the first YES or NO token priced strictly above 0.99. *)
Definition priced (fs : list Oracle.token_fields) : option Oracle.token_fields :=
  find (fun f => Qlt_bool (99 # 100) (price_value f)
                 && Oracle.is_yes_no (outcome_text f)) fs.

Definition two_tier_winner (fs : list Oracle.token_fields) : option string :=
  match flagged fs with
  | Some f => Some (outcome_text f)
  | None => option_map outcome_text (priced fs)
  end.

(** The second tier as the specification words it: a price of 0.99 or more. *)
Definition priced_as_specified (fs : list Oracle.token_fields)
  : option Oracle.token_fields :=
  find (fun f => Qle_bool (99 # 100) (price_value f)
                 && Oracle.is_yes_no (outcome_text f)) fs.

Definition winner_as_specified (fs : list Oracle.token_fields) : option string :=
  match flagged fs with
  | Some f => Some (outcome_text f)
  | None => option_map outcome_text (priced_as_specified fs)
  end.

(** A market not yet closed whose YES token already carries the winner
    flag. *)
Definition flagged_tokens : list Oracle.token_fields :=
  [Oracle.mk_token true (Oracle.Present "Yes") (Oracle.Present 1);
   Oracle.mk_token false (Oracle.Present "No") (Oracle.Present 0)].

(** A closed market, no winner flag, YES priced at exactly 0.99. *)
Definition settling_tokens : list Oracle.token_fields :=
  [Oracle.mk_token false (Oracle.Present "Yes") (Oracle.Present (99 # 100));
   Oracle.mk_token false (Oracle.Present "No") (Oracle.Present (1 # 100))].

(** The order that a descending sort establishes between an item and the
    items after it: its key is not below theirs. *)
Definition not_below {A : Type} (lt : A -> A -> bool) (x y : A) : Prop :=
  lt x y = false.





(** Three whales analysed from their resolved trades (outcome, pnl, size);
    the first and the third have the same metrics. *)
Definition steady_rows : list PerformanceAnalyzer.row :=
  [(Some "WIN", 50, 100); (Some "LOSS", - (100), 100); (Some "WIN", 80, 100)].

Definition lucky_rows : list PerformanceAnalyzer.row :=
  [(Some "WIN", 150, 100); (Some "WIN", 100, 100)].

Definition analysed_whale (address : string) (rows : list PerformanceAnalyzer.row)
  : list PerformanceAnalyzer.performance :=
  match PerformanceAnalyzer.get_whale_performance address rows 2 with
  | Return (Some w) => [w]
  | _ => []
  end.

Definition three_whales : list PerformanceAnalyzer.performance :=
  (analysed_whale "0xaaa" steady_rows ++ analysed_whale "0xbbb" lucky_rows
   ++ analysed_whale "0xccc" steady_rows)%list.









(** A ledger with one whale that has 20 resolved trades of size 100, 16 won
    with pnl 50 and 4 lost with pnl -100, and one open position. *)
Definition past_trade (i : nat) : Trade.t :=
  Trade.mk (Z.of_nat i) "0xaaa" "0xm0" "Was it sunny?" (Some "YES") (Some 100)
           (Some (2 # 3)) 0 (Some true)
           (Some (if (i <=? 16)%nat then "WIN" else "LOSS"))
           (Some (if (i <=? 16)%nat then 50 else - (100))).

Definition proven_db : Database.t :=
  Database.mk
    [Whale.mk "0xaaa" (Some 60000) (Some 16%Z) (Some 4%Z)]
    (map past_trade (seq 1 20) ++
     [Trade.mk 21 "0xaaa" "0xm2" "Will it snow?" (Some "YES") (Some 9000)
               (Some (8 # 10)) 100 (Some false) None None])
    [Market.mk "0xm0" "Was it sunny?" (Some true) (Some "YES") (Some 0%Z);
     Market.mk "0xm2" "Will it snow?" (Some false) None None].




(** The grouping key of a signal, of an entry and of a consensus. *)
Definition signal_key (s : TradeSignalsGenerator.signal) : string :=
  TradeSignalsGenerator.key_of (TradeSignalsGenerator.market_id s)
                               (TradeSignalsGenerator.direction s).

Definition group_key (g : TradeSignalsGenerator.group) : string :=
  TradeSignalsGenerator.key_of (TradeSignalsGenerator.grp_market_id g)
                               (TradeSignalsGenerator.grp_direction g).

Definition consensus_key (c : TradeSignalsGenerator.consensus) : string :=
  group_key (TradeSignalsGenerator.position c).

(** The signals that carry a key, in input order. *)
Definition on_key (k : string) (signals : list TradeSignalsGenerator.signal)
  : list TradeSignalsGenerator.signal :=
  filter (fun s => (signal_key s =? k)%string) signals.



(** The entry of a key after one more signal, and the entry of a new key. *)
Definition joined (s : TradeSignalsGenerator.signal) (g : TradeSignalsGenerator.group)
  : TradeSignalsGenerator.group :=
  TradeSignalsGenerator.mk_group
    (TradeSignalsGenerator.grp_market_id g)
    (TradeSignalsGenerator.grp_market_question g)
    (TradeSignalsGenerator.grp_direction g)
    (TradeSignalsGenerator.grp_whales g ++ [TradeSignalsGenerator.member_of s])
    (TradeSignalsGenerator.grp_total_edge g + TradeSignalsGenerator.edge_estimate s).

Definition opened (s : TradeSignalsGenerator.signal) : TradeSignalsGenerator.group :=
  TradeSignalsGenerator.mk_group
    (TradeSignalsGenerator.market_id s) (TradeSignalsGenerator.market_question s)
    (TradeSignalsGenerator.direction s)
    ([] ++ [TradeSignalsGenerator.member_of s])
    (0 + TradeSignalsGenerator.edge_estimate s).

(** What the grouping loop maintains: one entry per key met so far, holding
    the members of the signals on its key, in input order. *)
Definition grouped (signals : list TradeSignalsGenerator.signal)
  (groups : list (string * TradeSignalsGenerator.group)) : Prop :=
  NoDup (map fst groups)
  /\ (forall k g, In (k, g) groups ->
                  group_key g = k
                  /\ TradeSignalsGenerator.grp_whales g
                     = map TradeSignalsGenerator.member_of (on_key k signals))
  /\ (forall k, on_key k signals <> [] -> In k (map fst groups)).

(** A second proven whale and its open YES position on the same market; a
    second open YES position of the first whale on that market. *)
Definition keen : TradeSignalsGenerator.whale :=
  TradeSignalsGenerator.mk_whale "0xbbb" 40 65 20 3000 26 14.




(** Two positions of size 100 entered at 0.5, one on each side. *)
Definition even_db : Database.t :=
  Database.mk
    [Whale.mk "0xaaa" (Some 60000) (Some 0%Z) (Some 0%Z);
     Whale.mk "0xbbb" (Some 75000) (Some 0%Z) (Some 0%Z)]
    [Trade.mk 1 "0xaaa" "0xm1" "Will it rain?" (Some "YES") (Some 100) (Some (1 # 2))
              0 (Some false) None None;
     Trade.mk 2 "0xbbb" "0xm1" "Will it rain?" (Some "NO") (Some 100) (Some (1 # 2))
              0 (Some false) None None]
    [Market.mk "0xm1" "Will it rain?" (Some false) None None].

(** The pnl stored for a trade, if any. *)
Definition stored_pnl (trade_id : Z) (db : Database.t) : option Q :=
  match Database.get_trade trade_id db with
  | Some r => Trade.pnl r
  | None => None
  end.

Definition stored_outcome (trade_id : Z) (db : Database.t) : option string :=
  match Database.get_trade trade_id db with
  | Some r => Trade.outcome r
  | None => None
  end.

(** Ten resolved trades of size 100: five won 70, five lost 40. *)
Definition ten_rows : list PerformanceAnalyzer.row :=
  (repeat (Some "WIN", 70, 100) 5 ++ repeat (Some "LOSS", - (40), 100) 5)%list.

(** The writes that the modelled components make on the store. *)
Inductive operation : Type :=
| AddWhale (address : string) (total_volume : option Q)
| UpdateWhaleVolume (address : string) (total_volume : option Q)
| UpdateWhaleStats (address : string) (win_count loss_count : option Z)
| AddTrade (whale_address market_id market_question : string)
           (side : option string) (size entry_price : option Q) (now : Z)
| ResolveTrade (trade_id : Z) (outcome : string) (pnl : Q)
| ResolveTradesByMarket (market_id resolution : string)
| AddMarket (market_id question : string)
| ResolveMarket (market_id resolution : string) (now : Z)
| ResolveMarketTrades (market_id winner : string) (now : Z)
| CheckWhalePositions (whale_address : string) (now : Z)
                      (fetched : result (list WhaleTracker.position)).

(** The store after an operation; what a raise leaves committed is kept. *)
Definition perform (op : operation) (db : Database.t) : Database.t :=
  match op with
  | AddWhale a v => fst (Database.add_whale a v db)
  | UpdateWhaleVolume a v => Database.update_whale_volume a v db
  | UpdateWhaleStats a w l => Database.update_whale_stats a w l db
  | AddTrade w m q s sz p now => fst (Database.add_trade w m q s sz p now db)
  | ResolveTrade i o p => Database.resolve_trade i o p db
  | ResolveTradesByMarket m r => fst (Database.resolve_trades_by_market m r db)
  | AddMarket m q => fst (Database.add_market m q db)
  | ResolveMarket m r now => fst (Database.resolve_market m r now db)
  | ResolveMarketTrades m w now =>
    match ResolutionChecker.resolve_market_trades m w now db with
    | Return (db', _) => db'
    | Raise _ => db
    end
  | CheckWhalePositions w now fetched =>
    WhaleTracker.check_whale_positions w now fetched db
  end.

(** Does the operation resolve this market? *)
Definition resolves (market_id : string) (op : operation) : bool :=
  match op with
  | ResolveMarket m _ _ | ResolveMarketTrades m _ _ => (m =? market_id)%string
  | _ => false
  end.

(** The pnl that a batch stores, summed over its positions. *)
Definition batch_pnl (winner : string) (l : list Trade.t) : Q :=
  fold_right (fun t acc => pnl_value winner t + acc) 0 l.

(** What the oracle answers for a market during a pass of the batch run, and
    the winner it names. *)
Definition answer (f : ResolutionRun.feed) (now : Z) (m : string)
  : option Oracle.resolution :=
  match Oracle.check_market_resolution m now (f m) with
  | Return o => o
  | Raise _ => None
  end.








(** The volume that a discovery reports last for an address. *)
Definition last_volume (a : string) (l : list WhaleDiscovery.found) : option Q :=
  fold_left (fun acc w => if (WhaleDiscovery.fw_address w =? a)%string
                          then Some (WhaleDiscovery.fw_total_volume w) else acc)
            l None.

(** The whale row of an address after a discovery that reported volume [v]
    for it: the counters of the stored row are kept, a new row starts at 0. *)
Definition discovered_row (a : string) (v : Q) (before : option Whale.t) : Whale.t :=
  match before with
  | Some x => Whale.mk (Whale.address x) (Some v) (Whale.win_count x) (Whale.loss_count x)
  | None => Whale.mk a (Some v) (Some 0%Z) (Some 0%Z)
  end.

(** The counters of the whales are never negative. *)
Definition counters_non_negative (db : Database.t) : Prop :=
  Forall (fun x => (0 <= or_Z (Whale.win_count x) 0)%Z
                   /\ (0 <= or_Z (Whale.loss_count x) 0)%Z)
         (Database.whales db).



(** What the tracker stores for a position it records at time [now]. *)
Definition recorded_as (whale_address : string) (now : Z) (pos : WhaleTracker.position)
  (r : Trade.t) : Prop :=
  Trade.whale_address r = whale_address
  /\ Trade.market_id r = WhaleTracker.pos_market_id pos
  /\ Trade.market_question r = WhaleTracker.pos_market_question pos
  /\ Trade.side r = Some (WhaleTracker.pos_side pos)
  /\ Trade.size r = Some (WhaleTracker.pos_size pos)
  /\ Trade.entry_price r = Some (WhaleTracker.pos_entry_price pos)
  /\ Trade.entry_time r = now
  /\ Trade.resolved r = Some false
  /\ Trade.outcome r = None
  /\ Trade.pnl r = None.

(** The rows that [Database.resolve_trades_by_market] fetches. *)
Definition fetched_by_market (market_id : string) (r : Trade.t) : bool :=
  (Trade.market_id r =? market_id)%string && Trade.resolved_is_false r.

(** A fetched row on which the legacy path can compute: side, size and entry
    price are not NULL. *)
Definition complete (r : Trade.t) : Prop :=
  Trade.side r <> None /\ Trade.size r <> None /\ Trade.entry_price r <> None.

Definition number (x : option Q) : Q :=
  match x with
  | Some q => q
  | None => 0
  end.

(** Outcome and pnl on the legacy path. *)
Definition legacy_won (resolution : string) (r : Trade.t) : bool :=
  let side := upper (or_str (Trade.side r) "") in
  ((side =? "YES")%string && (resolution =? "YES")%string)
  || ((side =? "NO")%string && (resolution =? "NO")%string).

Definition legacy_outcome (resolution : string) (r : Trade.t) : string :=
  if legacy_won resolution r then "WIN" else "LOSS".

Definition legacy_pnl (resolution : string) (r : Trade.t) : Q :=
  if legacy_won resolution r
  then number (Trade.size r) * (1 - number (Trade.entry_price r))
  else (- number (Trade.size r)) * number (Trade.entry_price r).

Definition legacy_settle (resolution : string) (r : Trade.t) : Trade.t :=
  Trade.set_resolution r (legacy_outcome resolution r) (legacy_pnl resolution r).

(** The write of the legacy loop for the fetched row [t], seen on a stored
    row [r]. *)
Definition legacy_write (resolution : string) (t r : Trade.t) : Trade.t :=
  if (Trade.id r =? Trade.id t)%Z
  then Trade.set_resolution r (legacy_outcome resolution t) (legacy_pnl resolution t)
  else r.

(** The counters of every whale hold a number. *)
Definition counted (db : Database.t) : Prop :=
  Forall (fun x => Whale.win_count x <> None /\ Whale.loss_count x <> None)
         (Database.whales db).

(** A whale row with [nw] more wins and [nl] more losses. *)
Definition bumped (nw nl : Z) (x : Whale.t) : Whale.t :=
  Whale.mk (Whale.address x) (Whale.total_volume x)
           (option_map (fun w => (w + nw)%Z) (Whale.win_count x))
           (option_map (fun l => (l + nl)%Z) (Whale.loss_count x)).

(** How many of the rows [l] the whale [a] holds and wins, or loses, on the
    legacy path. *)
Definition legacy_wins (resolution a : string) (l : list Trade.t) : Z :=
  Z.of_nat (List.length (filter (legacy_won resolution) (held_by a l))).

Definition legacy_losses (resolution a : string) (l : list Trade.t) : Z :=
  Z.of_nat (List.length (filter (fun t => negb (legacy_won resolution t)) (held_by a l))).

(** The sum of a run of pnls. *)
Definition run_total (l : list Q) : Q := fold_right Qplus 0 l.




(** The confidence labels, in their order. *)
Definition confidence_level (label : string) : Z :=
  if (label =? "VERY HIGH")%string then 3
  else if (label =? "HIGH")%string then 2
  else if (label =? "MEDIUM")%string then 1
  else 0.

(** The order of the consensus list: the larger average edge first, among
    equal ones the larger average win rate. *)
Definition ranks_before (a b : TradeSignalsGenerator.consensus) : Prop :=
  TradeSignalsGenerator.avg_edge b < TradeSignalsGenerator.avg_edge a
  \/ (TradeSignalsGenerator.avg_edge b == TradeSignalsGenerator.avg_edge a
      /\ TradeSignalsGenerator.avg_win_rate b <= TradeSignalsGenerator.avg_win_rate a).

(** The running total of the edges of each entry is the sum of the edges of
    its members. *)
Definition edges_add_up (groups : list (string * TradeSignalsGenerator.group)) : Prop :=
  forall k g, In (k, g) groups ->
    TradeSignalsGenerator.grp_total_edge g
    == run_total (map TradeSignalsGenerator.mem_edge (TradeSignalsGenerator.grp_whales g)).

(** An attempt after which [_request] tries again. *)
Definition retried {A : Type} (a : PolymarketAPI.attempt A) : bool :=
  match a with
  | PolymarketAPI.RateLimited | PolymarketAPI.Timeout | PolymarketAPI.ClientFailure => true
  | _ => false
  end.

(** A position of the feed that is significant for a minimum size. *)
Definition significant_for (min_size : Q) (pos : PolymarketAPI.raw_position) : Prop :=
  exists size current_value,
    PolymarketAPI.to_float (PolymarketAPI.raw_size pos) 0 = Return size
    /\ PolymarketAPI.to_float (PolymarketAPI.raw_current_value pos) size
       = Return current_value
    /\ min_size <= PolymarketAPI.max size current_value.

(** What a position of the feed contributes to the significant positions. *)
Definition kept (min_size : Q) (pos : PolymarketAPI.raw_position)
  : list WhaleTracker.position :=
  match PolymarketAPI.parse_position min_size pos with
  | Return (Some p) => [p]
  | _ => []
  end.

(** The condition ids of the table are unique. *)
Definition unique_condition_ids (table : SeenMarkets.t) : Prop :=
  NoDup (map SeenMarket.condition_id table).

(** A row as [add_seen_market] writes it at time [now]: no checkpoint yet. *)
Definition fresh_row (now : Z) (m : SeenMarket.t) : Prop :=
  SeenMarket.first_seen m = now
  /\ SeenMarket.price_1hr_yes m = None
  /\ SeenMarket.price_24hr_yes m = None
  /\ SeenMarket.price_7d_yes m = None
  /\ SeenMarket.checked_1hr m = Some false
  /\ SeenMarket.checked_24hr m = Some false
  /\ SeenMarket.checked_7d m = Some false.

(** The parts of the state of [check_new_markets]. *)
Definition watch_table (w : MarketWatch.watch) : SeenMarkets.t := fst (fst w).
Definition watch_alerts (w : MarketWatch.watch) : list MarketWatch.alert := snd (fst w).
Definition watch_count (w : MarketWatch.watch) : Z := snd w.

(** Two tables see the same markets. *)
Definition same_markets_seen (t1 t2 : SeenMarkets.t) : Prop :=
  forall c, SeenMarkets.is_market_seen c t1 = SeenMarkets.is_market_seen c t2.

(** The length of a timeframe in seconds. *)
Definition timeframe_seconds (timeframe : string) : Z :=
  if (timeframe =? "1hr")%string then 3600
  else if (timeframe =? "24hr")%string then 86400
  else 604800.

(** The live price of a market is missing or 0: the checkpoint loops write
    nothing for it. *)
Definition quiet (prices : MarketWatch.price_feed) (c : string) : Prop :=
  prices c = Return None
  \/ exists yes no, prices c = Return (Some (yes, no)) /\ yes == 0.

(** An alert for a price move that is worth sending. *)
Definition large_move (mv : MarketWatch.move) : Prop :=
  MarketWatch.mv_timeframe mv = "1hr"
  /\ 0 < MarketWatch.mv_initial mv
  /\ ~ MarketWatch.mv_current mv == 0
  /\ MarketWatch.mv_gain_pct mv
     == (MarketWatch.mv_current mv - MarketWatch.mv_initial mv)
        / MarketWatch.mv_initial mv * 100
  /\ 20 < Qabs (MarketWatch.mv_gain_pct mv).

(** What the checkpoint loops keep true of the table and of the alerts, for
    the table [table] at the start of the pass. *)
Definition checkpointed (prices : MarketWatch.price_feed) (table : SeenMarkets.t)
  (acc : SeenMarkets.t * list MarketWatch.move) : Prop :=
  map SeenMarket.condition_id (fst acc) = map SeenMarket.condition_id table
  /\ map SeenMarket.first_seen (fst acc) = map SeenMarket.first_seen table
  /\ map SeenMarket.initial_yes_price (fst acc) = map SeenMarket.initial_yes_price table
  /\ (forall m, In m table -> quiet prices (SeenMarket.condition_id m) -> In m (fst acc))
  /\ Forall large_move (snd acc).

End Spec.

(** * Properties *)

Import Spec.

(** ** Comparisons and lists *)

(** Closes [NoDup] goals on the keys of a concrete table. *)
Ltac distinct_keys :=
  unfold unique_trade_ids, unique_addresses; simpl;
  repeat constructor; simpl; intuition discriminate.

Lemma Qlt_bool_iff (a b : Q) : Qlt_bool a b = true <-> a < b.
Proof.
  unfold Qlt_bool. rewrite negb_true_iff.
  split; intro H.
  - apply Qnot_le_lt. intro Hle. apply Qle_bool_iff in Hle. congruence.
  - destruct (Qle_bool b a) eqn:E; [|reflexivity].
    apply Qle_bool_iff in E. exfalso. exact (Qlt_not_le _ _ H E).
Qed.

Lemma Qlt_bool_false_iff (a b : Q) : Qlt_bool a b = false <-> b <= a.
Proof.
  unfold Qlt_bool. rewrite negb_false_iff. apply Qle_bool_iff.
Qed.

Lemma NoDup_map_eq {A B : Type} (f : A -> B) (l : list A) (a b : A) :
  NoDup (map f l) -> In a l -> In b l -> f a = f b -> a = b.
Proof.
  induction l as [|x l IH]; simpl; intros Hnd Ha Hb Hf; [contradiction|].
  inversion Hnd as [|? ? Hnotin Hnd']; subst.
  destruct Ha as [Ha|Ha], Hb as [Hb|Hb]; subst; auto.
  - exfalso. apply Hnotin. rewrite Hf. now apply in_map.
  - exfalso. apply Hnotin. rewrite <- Hf. now apply in_map.
Qed.

Lemma find_unique {A : Type} (key : A -> Z) (l : list A) (a : A) :
  NoDup (map key l) -> In a l ->
  find (fun x => (key x =? key a)%Z) l = Some a.
Proof.
  induction l as [|x l IH]; simpl; intros Hnd Ha; [contradiction|].
  inversion Hnd as [|? ? Hnotin Hnd']; subst.
  destruct Ha as [Ha|Ha].
  - subst. now rewrite Z.eqb_refl.
  - destruct (Z.eqb_spec (key x) (key a)) as [E|E].
    + exfalso. apply Hnotin. rewrite E. now apply in_map.
    + now apply IH.
Qed.

Lemma find_map_preserving {A : Type} (p : A -> bool) (f : A -> A) (l : list A) :
  (forall x, p (f x) = p x) ->
  find p (map f l) = option_map f (find p l).
Proof.
  intro Hp. induction l as [|x l IH]; simpl; [reflexivity|].
  rewrite Hp. destruct (p x); [reflexivity|exact IH].
Qed.

(** ** The loop of [resolve_market_trades] *)

Lemma verdict_returns (winner : string) (r : Trade.t) :
  ResolutionChecker.verdict winner r
  = Return (won winner r, outcome_value winner r, pnl_value winner r).
Proof.
  unfold ResolutionChecker.verdict, pnl_value, outcome_value, won, side_read,
    price_read, size_read.
  destruct (_ =? winner)%string; simpl; [|reflexivity].
  destruct (Qlt_bool 0 (or_Q (Trade.entry_price r) (1 # 2))) eqn:E; simpl; [|reflexivity].
  unfold div.
  destruct (Qeq_bool (or_Q (Trade.entry_price r) (1 # 2)) 0) eqn:E0; [|reflexivity].
  apply Qeq_bool_iff in E0. apply Qlt_bool_iff in E. rewrite E0 in E.
  exfalso. exact (Qlt_irrefl 0 E).
Qed.

Lemma for_each_resolve_one (winner : string) (l : list Trade.t)
  (db : Database.t) (res : ResolutionChecker.results) :
  for_each (ResolutionChecker.resolve_one winner) l (db, res)
  = Return (Database.with_trades db
              (map (fun r => fold_left (fun r t => write_for winner t r) l r)
                   (Database.trades db)),
            fold_left (tally winner) l res).
Proof.
  revert db res. induction l as [|t l IH]; intros db res; simpl.
  - destruct db as [ws ts ms]. unfold Database.with_trades. simpl.
    now rewrite map_id.
  - rewrite verdict_returns. simpl. rewrite IH. f_equal. f_equal.
    unfold Database.resolve_trade, Database.with_trades. simpl.
    now rewrite map_map.
Qed.

Lemma writes_skip (winner : string) (l : list Trade.t) (r : Trade.t) :
  ~ In (Trade.id r) (map Trade.id l) ->
  fold_left (fun r t => write_for winner t r) l r = r.
Proof.
  revert r. induction l as [|t l IH]; intros r Hnotin; simpl; [reflexivity|].
  simpl in Hnotin. unfold write_for at 2.
  destruct (Z.eqb_spec (Trade.id r) (Trade.id t)) as [E|E].
  - exfalso. apply Hnotin. left. now symmetry.
  - apply IH. intro H. apply Hnotin. now right.
Qed.

Lemma writes_settle (winner : string) (l : list Trade.t) (r : Trade.t) :
  NoDup (map Trade.id l) -> In r l ->
  fold_left (fun r t => write_for winner t r) l r = settle winner r.
Proof.
  induction l as [|t l IH]; simpl; intros Hnd Hin; [contradiction|].
  inversion Hnd as [|? ? Hnotin Hnd']; subst.
  destruct Hin as [->|Hin].
  - unfold write_for at 2. rewrite Z.eqb_refl.
    now apply writes_skip.
  - unfold write_for at 2.
    destruct (Z.eqb_spec (Trade.id r) (Trade.id t)) as [E|E].
    + exfalso. apply Hnotin. rewrite <- E. now apply in_map.
    + now apply IH.
Qed.

(** A selection of rows with unique ids has unique ids. *)
Lemma selection_ids_unique (keep : Trade.t -> bool) (rows : list Trade.t) :
  NoDup (map Trade.id rows) -> NoDup (map Trade.id (filter keep rows)).
Proof.
  intro Hnd. induction rows as [|r rows IH]; simpl; [constructor|].
  inversion Hnd as [|? ? Hfresh Hrest]; subst.
  destruct (keep r); simpl; [constructor|]; auto.
  intro Hin. apply Hfresh. apply in_map_iff in Hin as (r' & Hid & Hin).
  apply filter_In in Hin as [Hin _]. rewrite <- Hid. now apply in_map.
Qed.

(** With unique ids, the loop settles the fetched rows and no other. *)
Lemma writes_on_table (winner market_id : string) (ts : list Trade.t) :
  NoDup (map Trade.id ts) ->
  map (fun r => fold_left (fun r t => write_for winner t r)
                          (filter (selected market_id) ts) r) ts
  = map (fun r => if selected market_id r then settle winner r else r) ts.
Proof.
  intro Hnd. apply map_ext_in. intros r Hr.
  destruct (selected market_id r) eqn:Hsel.
  - apply writes_settle.
    + now apply selection_ids_unique.
    + apply filter_In. now split.
  - apply writes_skip. intro Hin.
    apply in_map_iff in Hin as (t & Hid & Ht).
    apply filter_In in Ht as [Ht Hselt].
    assert (t = r) by (eapply NoDup_map_eq; eauto).
    subst. congruence.
Qed.

Lemma flush_keeps_trades (updates : list (string * ResolutionChecker.stats))
  (db : Database.t) :
  Database.trades (fold_left ResolutionChecker.flush_one updates db)
  = Database.trades db.
Proof.
  revert db. induction updates as [|[w s] updates IH]; intro db; simpl; [reflexivity|].
  rewrite IH. destruct (Database.get_whale w db); reflexivity.
Qed.

Lemma flush_keeps_markets (updates : list (string * ResolutionChecker.stats))
  (db : Database.t) :
  Database.markets (fold_left ResolutionChecker.flush_one updates db)
  = Database.markets db.
Proof.
  revert db. induction updates as [|[w s] updates IH]; intro db; simpl; [reflexivity|].
  rewrite IH. destruct (Database.get_whale w db); reflexivity.
Qed.

(** [resolve_market_trades] returns, and this is what it returns. *)
Lemma resolve_market_trades_returns (market_id winner : string) (now : Z)
  (db : Database.t) :
  ResolutionChecker.resolve_market_trades market_id winner now db
  = Return
      (let fetched := filter (selected market_id) (Database.trades db) in
       let res := fold_left (tally winner) fetched ResolutionChecker.empty_results in
       (Database.mark_market_resolved market_id winner now
          (fold_left ResolutionChecker.flush_one
             (ResolutionChecker.whale_updates res)
             (Database.with_trades db
                (map (fun r => fold_left (fun r t => write_for winner t r) fetched r)
                     (Database.trades db)))),
        res)).
Proof.
  unfold ResolutionChecker.resolve_market_trades, ResolutionChecker.fetch_unresolved.
  change (fun r : Trade.t => ((Trade.market_id r =? market_id)%string
                              && Trade.is_unresolved r)%bool)
    with (selected market_id).
  rewrite for_each_resolve_one. reflexivity.
Qed.

Lemma resolve_market_trades_table (market_id winner : string) (now : Z)
  (db db' : Database.t) (res : ResolutionChecker.results) :
  unique_trade_ids db ->
  ResolutionChecker.resolve_market_trades market_id winner now db = Return (db', res) ->
  Database.trades db'
  = map (fun r => if selected market_id r then settle winner r else r)
        (Database.trades db).
Proof.
  intros Hnd H. rewrite resolve_market_trades_returns in H.
  injection H as Hdb _. subst db'. cbv zeta.
  unfold Database.mark_market_resolved. simpl.
  rewrite flush_keeps_trades. simpl.
  now apply writes_on_table.
Qed.

Lemma get_trade_settled (market_id winner : string) (now : Z)
  (db db' : Database.t) (res : ResolutionChecker.results) (r : Trade.t) :
  unique_trade_ids db ->
  In r (Database.trades db) ->
  selected market_id r = true ->
  ResolutionChecker.resolve_market_trades market_id winner now db = Return (db', res) ->
  Database.get_trade (Trade.id r) db' = Some (settle winner r).
Proof.
  intros Hnd Hin Hsel H.
  unfold Database.get_trade.
  rewrite (resolve_market_trades_table _ _ _ _ _ _ Hnd H).
  rewrite find_map_preserving.
  - rewrite (find_unique Trade.id _ r Hnd Hin). simpl. now rewrite Hsel.
  - intro x. now destruct (selected market_id x).
Qed.

Lemma or_Q_zero (q : Q) : or_Q (Some q) 0 == q.
Proof.
  simpl. destruct (Qeq_bool q 0) eqn:E; [|reflexivity].
  apply Qeq_bool_iff in E. now symmetry.
Qed.

Lemma or_Q_positive (q d : Q) : 0 < q -> or_Q (Some q) d = q.
Proof.
  intro H. simpl. destruct (Qeq_bool q 0) eqn:E; [|reflexivity].
  apply Qeq_bool_iff in E. rewrite E in H. exfalso. exact (Qlt_irrefl 0 H).
Qed.

Lemma selected_iff (market_id : string) (r : Trade.t) :
  selected market_id r = true
  <-> Trade.market_id r = market_id /\ Trade.is_unresolved r = true.
Proof.
  unfold selected. rewrite andb_true_iff, String.eqb_eq. reflexivity.
Qed.

(** The pnl of a settled winner with a positive entry price. *)
Lemma pnl_value_win (winner : string) (r : Trade.t) (size price : Q) :
  side_read r = winner ->
  Trade.size r = Some size -> Trade.entry_price r = Some price -> 0 < price ->
  pnl_value winner r == size / price - size.
Proof.
  intros Hw Hs Hp Hpos. unfold pnl_value, won, price_read, size_read.
  rewrite Hw, String.eqb_refl, Hs, Hp, (or_Q_positive _ _ Hpos).
  apply Qlt_bool_iff in Hpos. rewrite Hpos.
  now rewrite or_Q_zero.
Qed.

Lemma pnl_value_loss (winner : string) (r : Trade.t) (size : Q) :
  side_read r <> winner ->
  Trade.size r = Some size ->
  pnl_value winner r == - size.
Proof.
  intros Hw Hs. unfold pnl_value, won, size_read.
  apply String.eqb_neq in Hw. rewrite Hw, Hs.
  now rewrite or_Q_zero.
Qed.

(** ** C1: outcome and pnl of the positions of a resolved market *)

(** C1, amended.  [resolve_market_trades] returns, and every position of the
    market that was still unresolved is then resolved: as WIN when its side,
    read in upper case, is the winning outcome, with pnl = size/entry_price -
    size whenever the stored entry price is positive; as LOSS with
    pnl = -size otherwise.  A WIN with size 100 at 0.5 has pnl 100, and a
    LOSS with size 100 has pnl -100. *)
Theorem resolve_market_trades_settles :
  forall (db : Database.t) (market_id winner : string) (now : Z) (r : Trade.t),
    unique_trade_ids db ->
    In r (Database.trades db) ->
    Trade.market_id r = market_id ->
    Trade.is_unresolved r = true ->
    exists db' res r',
      ResolutionChecker.resolve_market_trades market_id winner now db
      = Return (db', res)
      /\ Database.get_trade (Trade.id r) db' = Some r'
      /\ Trade.resolved r' = Some true
      /\ (side_read r = winner ->
            Trade.outcome r' = Some "WIN"
            /\ (forall size price,
                  Trade.size r = Some size -> Trade.entry_price r = Some price ->
                  0 < price ->
                  exists v, Trade.pnl r' = Some v /\ v == size / price - size)
            /\ (Trade.size r = Some 100 -> Trade.entry_price r = Some (1 # 2) ->
                exists v, Trade.pnl r' = Some v /\ v == 100))
      /\ (side_read r <> winner ->
            Trade.outcome r' = Some "LOSS"
            /\ (forall size,
                  Trade.size r = Some size ->
                  exists v, Trade.pnl r' = Some v /\ v == - size)
            /\ (Trade.size r = Some 100 ->
                exists v, Trade.pnl r' = Some v /\ v == - (100))).
Proof.
  intros db market_id winner now r Hnd Hin Hm Hu.
  destruct (ResolutionChecker.resolve_market_trades market_id winner now db)
    as [[db' res]|e] eqn:Hrun;
    [|rewrite resolve_market_trades_returns in Hrun; discriminate].
  exists db', res, (settle winner r).
  assert (Hsel : selected market_id r = true) by (apply selected_iff; now split).
  split; [reflexivity|].
  split; [eapply get_trade_settled; eauto|].
  split; [reflexivity|].
  split.
  - intro Hw. simpl. unfold outcome_value, won. rewrite Hw, String.eqb_refl.
    split; [reflexivity|]. split.
    + intros size price Hs Hp Hpos. eexists. split; [reflexivity|].
      now apply pnl_value_win.
    + intros Hs Hp. eexists. split; [reflexivity|].
      rewrite (pnl_value_win winner r 100 (1 # 2)); auto; reflexivity.
  - intro Hw. simpl. unfold outcome_value, won.
    pose proof Hw as Hw'. apply String.eqb_neq in Hw'. rewrite Hw'.
    split; [reflexivity|]. split.
    + intros size Hs. eexists. split; [reflexivity|].
      now apply pnl_value_loss.
    + intros Hs. eexists. split; [reflexivity|].
      now apply pnl_value_loss.
Qed.

Lemma resolve_market_trades_settles_witness :
  exists db' r',
    (exists res,
       ResolutionChecker.resolve_market_trades "0xm1" "YES" 0 scenario_db
       = Return (db', res))
    /\ Database.get_trade 1 db' = Some r'
    /\ Trade.outcome r' = Some "WIN"
    /\ exists v, Trade.pnl r' = Some v /\ v == 150.
Proof.
  destruct (resolve_market_trades_settles scenario_db "0xm1" "YES" 0 scenario_yes)
    as (db' & res & r' & Hrun & Hget & _ & Hwin & _).
  - distinct_keys.
  - left. reflexivity.
  - reflexivity.
  - reflexivity.
  - destruct (Hwin eq_refl) as (Ho & Hp & _).
    destruct (Hp 100 (4 # 10) eq_refl eq_refl) as (v & Hv & Hval); [reflexivity|].
    exists db', r'. split; [now exists res|].
    split; [exact Hget|]. split; [exact Ho|].
    exists v. split; [exact Hv|]. rewrite Hval. reflexivity.
Defined.

(** C1 as stated fails on a winning position whose stored entry price is 0:
    it is resolved as WIN with pnl 100 = 100/0.5 - 100, the default price
    standing in; that is not size/entry_price - size, whether the quotient
    by 0 is read as Rocq reads it or as a number [shares] with
    [shares * entry_price == size]. *)
Lemma win_at_zero_price_gets_default_pnl :
  In free_entry (Database.trades free_entry_db)
  /\ Trade.market_id free_entry = "0xm1"
  /\ Trade.is_unresolved free_entry = true
  /\ Trade.side free_entry = Some "YES"
  /\ Trade.size free_entry = Some 100
  /\ Trade.entry_price free_entry = Some 0
  /\ exists db' res r' v,
       ResolutionChecker.resolve_market_trades "0xm1" "YES" 0 free_entry_db
       = Return (db', res)
       /\ Database.get_trade 1 db' = Some r'
       /\ Trade.outcome r' = Some "WIN"
       /\ Trade.pnl r' = Some v
       /\ v == 100
       /\ ~ v == 100 / 0 - 100
       /\ ~ exists shares, shares * 0 == 100 /\ v == shares - 100.
Proof.
  repeat (split; [first [left; reflexivity | reflexivity]|]).
  rewrite resolve_market_trades_returns.
  eexists _, _, _, _.
  split; [reflexivity|]. split; [reflexivity|]. split; [reflexivity|].
  split; [reflexivity|]. split; [reflexivity|]. split.
  - intro H. vm_compute in H. discriminate.
  - intros (shares & Hs & _). rewrite Qmult_0_r in Hs.
    vm_compute in Hs. discriminate.
Qed.

(** ** C10: a zero entry price *)

Lemma price_read_default (r : Trade.t) :
  Trade.entry_price r = None \/ (exists p, Trade.entry_price r = Some p /\ p == 0) ->
  price_read r = 1 # 2.
Proof.
  unfold price_read. intros [->|(p & -> & Hp)]; [reflexivity|].
  simpl. apply Qeq_bool_iff in Hp. now rewrite Hp.
Qed.

(** C10, amended.  [resolve_market_trades] never raises, so no division by
    zero happens; a winning position whose stored entry price is 0 or NULL is
    not left unresolved: the default price 0.5 stands in, and the position is
    resolved as WIN with pnl = size/0.5 - size = size. *)
Theorem resolve_market_trades_zero_price :
  forall (db : Database.t) (market_id winner : string) (now : Z),
    (exists out,
       ResolutionChecker.resolve_market_trades market_id winner now db = Return out)
    /\ forall r : Trade.t,
         unique_trade_ids db ->
         In r (Database.trades db) ->
         Trade.market_id r = market_id ->
         Trade.is_unresolved r = true ->
         side_read r = winner ->
         Trade.entry_price r = None
         \/ (exists p, Trade.entry_price r = Some p /\ p == 0) ->
         exists db' res r' v,
           ResolutionChecker.resolve_market_trades market_id winner now db
           = Return (db', res)
           /\ Database.get_trade (Trade.id r) db' = Some r'
           /\ Trade.resolved r' = Some true
           /\ Trade.outcome r' = Some "WIN"
           /\ Trade.pnl r' = Some v
           /\ v == size_read r / (1 # 2) - size_read r
           /\ v == size_read r.
Proof.
  intros db market_id winner now.
  split; [rewrite resolve_market_trades_returns; eexists; reflexivity|].
  intros r Hnd Hin Hm Hu Hw Hp.
  destruct (ResolutionChecker.resolve_market_trades market_id winner now db)
    as [[db' res]|e] eqn:Hrun;
    [|rewrite resolve_market_trades_returns in Hrun; discriminate].
  assert (Hsel : selected market_id r = true) by (apply selected_iff; now split).
  exists db', res, (settle winner r), (pnl_value winner r).
  split; [reflexivity|].
  split; [eapply get_trade_settled; eauto|].
  split; [reflexivity|].
  split; [simpl; unfold outcome_value, won; now rewrite Hw, String.eqb_refl|].
  split; [reflexivity|].
  assert (Hv : pnl_value winner r == size_read r / (1 # 2) - size_read r).
  { unfold pnl_value, won. rewrite Hw, String.eqb_refl.
    rewrite (price_read_default r Hp). reflexivity. }
  split; [exact Hv|].
  rewrite Hv. field.
Qed.

Lemma resolve_market_trades_zero_price_witness :
  exists db' r',
    (exists res,
       ResolutionChecker.resolve_market_trades "0xm1" "YES" 0 free_entry_db
       = Return (db', res))
    /\ Database.get_trade 1 db' = Some r'
    /\ Trade.outcome r' = Some "WIN"
    /\ exists v, Trade.pnl r' = Some v /\ v == 100.
Proof.
  destruct (resolve_market_trades_zero_price free_entry_db "0xm1" "YES" 0)
    as [_ H].
  destruct (H free_entry) as (db' & res & r' & v & Hrun & Hget & _ & Ho & Hv & _ & Hval).
  - distinct_keys.
  - left. reflexivity.
  - reflexivity.
  - reflexivity.
  - reflexivity.
  - right. exists 0. split; reflexivity.
  - exists db', r'. split; [now exists res|].
    split; [exact Hget|]. split; [exact Ho|].
    exists v. split; [exact Hv|]. rewrite Hval. reflexivity.
Defined.

(** C10 as stated fails: the winning position with entry price 0 is not left
    unresolved; it is marked resolved and given a pnl. *)
Lemma zero_price_position_is_resolved :
  Trade.entry_price free_entry = Some 0
  /\ side_read free_entry = "YES"
  /\ exists db' res r',
       ResolutionChecker.resolve_market_trades "0xm1" "YES" 0 free_entry_db
       = Return (db', res)
       /\ Database.get_trade (Trade.id free_entry) db' = Some r'
       /\ Trade.is_unresolved r' = false
       /\ Trade.resolved r' = Some true
       /\ Trade.pnl r' <> None.
Proof.
  split; [reflexivity|]. split; [reflexivity|].
  rewrite resolve_market_trades_returns.
  eexists _, _, _.
  split; [reflexivity|]. split; [reflexivity|].
  split; [reflexivity|]. split; [reflexivity|].
  discriminate.
Qed.

(** ** The per-whale tallies of a batch *)

Lemma bump_update_mem (a b : string) (w : bool) (p : Q)
  (u : list (string * ResolutionChecker.stats)) :
  mem a (ResolutionChecker.bump_update b w p u) = ((a =? b)%string || mem a u)%bool.
Proof.
  unfold mem. induction u as [|[k s] u IH]; simpl.
  - rewrite String.eqb_sym. now rewrite orb_false_r.
  - destruct (String.eqb_spec k b) as [->|Hkb]; simpl.
    + rewrite (String.eqb_sym a b). now rewrite orb_assoc, orb_diag.
    + rewrite IH. now rewrite !orb_assoc, (orb_comm (k =? a)%string).
Qed.

Lemma bump_update_wins (a b : string) (w : bool) (p : Q)
  (u : list (string * ResolutionChecker.stats)) :
  ResolutionChecker.st_wins (stat_of a (ResolutionChecker.bump_update b w p u))
  = (ResolutionChecker.st_wins (stat_of a u)
     + (if ((a =? b)%string && w)%bool then 1 else 0))%Z.
Proof.
  unfold stat_of. induction u as [|[k s] u IH]; simpl.
  - rewrite (String.eqb_sym b a).
    destruct (a =? b)%string, w; reflexivity.
  - destruct (String.eqb_spec k b) as [->|Hkb]; simpl.
    + rewrite (String.eqb_sym b a).
      destruct (a =? b)%string; simpl; [destruct w; simpl; lia|lia].
    + destruct (String.eqb_spec k a) as [->|Hka]; simpl.
      * apply String.eqb_neq in Hkb. rewrite Hkb. simpl. lia.
      * exact IH.
Qed.

Lemma bump_update_losses (a b : string) (w : bool) (p : Q)
  (u : list (string * ResolutionChecker.stats)) :
  ResolutionChecker.st_losses (stat_of a (ResolutionChecker.bump_update b w p u))
  = (ResolutionChecker.st_losses (stat_of a u)
     + (if ((a =? b)%string && negb w)%bool then 1 else 0))%Z.
Proof.
  unfold stat_of. induction u as [|[k s] u IH]; simpl.
  - rewrite (String.eqb_sym b a).
    destruct (a =? b)%string, w; reflexivity.
  - destruct (String.eqb_spec k b) as [->|Hkb]; simpl.
    + rewrite (String.eqb_sym b a).
      destruct (a =? b)%string; simpl; [destruct w; simpl; lia|lia].
    + destruct (String.eqb_spec k a) as [->|Hka]; simpl.
      * apply String.eqb_neq in Hkb. rewrite Hkb. simpl. lia.
      * exact IH.
Qed.

Lemma bump_update_keys (b : string) (w : bool) (p : Q)
  (u : list (string * ResolutionChecker.stats)) :
  NoDup (map fst u) -> NoDup (map fst (ResolutionChecker.bump_update b w p u)).
Proof.
  induction u as [|[k s] u IH]; simpl; intro Hnd.
  - repeat constructor. intros [].
  - inversion Hnd as [|? ? Hnotin Hnd']; subst.
    destruct (String.eqb_spec k b) as [->|Hkb]; simpl.
    + now constructor.
    + constructor; [|now apply IH].
      intro Hin. apply in_map_iff in Hin as ([k' s'] & Hk & Hin). simpl in Hk. subst k'.
      assert (Hmem : mem k (ResolutionChecker.bump_update b w p u) = true).
      { unfold mem. apply existsb_exists. exists (k, s'). split; [exact Hin|].
        simpl. apply String.eqb_refl. }
      rewrite bump_update_mem in Hmem. apply orb_true_iff in Hmem as [Hmem|Hmem].
      * apply String.eqb_eq in Hmem. congruence.
      * apply Hnotin. unfold mem in Hmem. apply existsb_exists in Hmem as ([k2 s2] & Hin2 & Hk2).
        simpl in Hk2. apply String.eqb_eq in Hk2. subst k2.
        change k with (fst (k, s2)). now apply in_map.
Qed.

Lemma tally_updates (winner : string) (l : list Trade.t) (res : ResolutionChecker.results) :
  ResolutionChecker.whale_updates (fold_left (tally winner) l res)
  = fold_left (fun u t => ResolutionChecker.bump_update (Trade.whale_address t)
                            (won winner t) (pnl_value winner t) u)
              l (ResolutionChecker.whale_updates res).
Proof.
  revert res. induction l as [|t l IH]; intro res; simpl; [reflexivity|].
  now rewrite IH.
Qed.

Lemma tally_count (winner : string) (l : list Trade.t) (res : ResolutionChecker.results) :
  ResolutionChecker.trades_resolved (fold_left (tally winner) l res)
  = (ResolutionChecker.trades_resolved res + Z.of_nat (List.length l))%Z.
Proof.
  revert res. induction l as [|t l IH]; intro res.
  - simpl. lia.
  - cbn [fold_left List.length]. rewrite IH. simpl. lia.
Qed.

Section Batch.

Variable winner : string.

Let step (u : list (string * ResolutionChecker.stats)) (t : Trade.t) :=
  ResolutionChecker.bump_update (Trade.whale_address t) (won winner t)
    (pnl_value winner t) u.

Lemma batch_keys (l : list Trade.t) (u : list (string * ResolutionChecker.stats)) :
  NoDup (map fst u) -> NoDup (map fst (fold_left step l u)).
Proof.
  revert u. induction l as [|t l IH]; intros u Hnd; simpl; [exact Hnd|].
  apply IH. now apply bump_update_keys.
Qed.

Lemma batch_mem (a : string) (l : list Trade.t)
  (u : list (string * ResolutionChecker.stats)) :
  mem a (fold_left step l u)
  = (mem a u || existsb (fun t => (Trade.whale_address t =? a)%string) l)%bool.
Proof.
  revert u. induction l as [|t l IH]; intro u; cbn [fold_left existsb].
  - now rewrite orb_false_r.
  - rewrite IH. unfold step. rewrite bump_update_mem.
    rewrite (String.eqb_sym a).
    now rewrite (orb_comm _ (mem a u)), orb_assoc.
Qed.

Lemma batch_wins (a : string) (l : list Trade.t)
  (u : list (string * ResolutionChecker.stats)) :
  ResolutionChecker.st_wins (stat_of a (fold_left step l u))
  = (ResolutionChecker.st_wins (stat_of a u) + wins_of winner a l)%Z.
Proof.
  revert u. induction l as [|t l IH]; intro u.
  - unfold wins_of. simpl. lia.
  - cbn [fold_left]. rewrite IH. unfold step. rewrite bump_update_wins.
    unfold wins_of, held_by. cbn [filter]. rewrite (String.eqb_sym a).
    destruct (Trade.whale_address t =? a)%string; cbn [andb filter].
    + destruct (won winner t); cbn [List.length]; lia.
    + lia.
Qed.

Lemma batch_losses (a : string) (l : list Trade.t)
  (u : list (string * ResolutionChecker.stats)) :
  ResolutionChecker.st_losses (stat_of a (fold_left step l u))
  = (ResolutionChecker.st_losses (stat_of a u) + losses_of winner a l)%Z.
Proof.
  revert u. induction l as [|t l IH]; intro u.
  - unfold losses_of. simpl. lia.
  - cbn [fold_left]. rewrite IH. unfold step. rewrite bump_update_losses.
    unfold losses_of, held_by. cbn [filter]. rewrite (String.eqb_sym a).
    destruct (Trade.whale_address t =? a)%string; cbn [andb filter].
    + destruct (won winner t); cbn [negb List.length]; lia.
    + lia.
Qed.

(** Every fetched position of a whale is a win or a loss, never both. *)
Lemma wins_plus_losses (a : string) (l : list Trade.t) :
  (wins_of winner a l + losses_of winner a l)%Z
  = Z.of_nat (List.length (held_by a l)).
Proof.
  unfold wins_of, losses_of. generalize (held_by a l). intro h.
  induction h as [|t h IH]; [reflexivity|].
  cbn [filter]. destruct (won winner t); cbn [negb List.length]; lia.
Qed.

End Batch.

(** ** Writing the tallies back *)

Lemma find_address_unique (ws : list Whale.t) (x : Whale.t) :
  NoDup (map Whale.address ws) -> In x ws ->
  find (fun w => (Whale.address w =? Whale.address x)%string) ws = Some x.
Proof.
  induction ws as [|y ws IH]; simpl; intros Hnd Hin; [contradiction|].
  inversion Hnd as [|? ? Hnotin Hnd']; subst.
  destruct Hin as [->|Hin].
  - now rewrite String.eqb_refl.
  - destruct (String.eqb_spec (Whale.address y) (Whale.address x)) as [E|E].
    + exfalso. apply Hnotin. rewrite E. now apply in_map.
    + now apply IH.
Qed.

Lemma flush_one_whales (db : Database.t) (a : string) (s : ResolutionChecker.stats) :
  unique_addresses db ->
  Database.whales (ResolutionChecker.flush_one db (a, s))
  = map (fun x => if (Whale.address x =? a)%string then credit s x else x)
        (Database.whales db).
Proof.
  intro Hnd. unfold ResolutionChecker.flush_one, Database.get_whale.
  destruct (find _ (Database.whales db)) as [row|] eqn:Hfind.
  - simpl. apply map_ext_in. intros x Hx.
    destruct (String.eqb_spec (Whale.address x) a) as [E|E]; [|reflexivity].
    subst a. rewrite (find_address_unique _ x Hnd Hx) in Hfind.
    injection Hfind as <-. reflexivity.
  - rewrite <- (map_id (Database.whales db)) at 1.
    apply map_ext_in. intros x Hx.
    destruct (String.eqb_spec (Whale.address x) a) as [E|E]; [|reflexivity].
    exfalso. eapply find_none in Hfind; [|exact Hx].
    simpl in Hfind. apply String.eqb_neq in Hfind. contradiction.
Qed.

Lemma mem_false_stat (a : string) (u : list (string * ResolutionChecker.stats)) :
  ~ In a (map fst u) -> mem a u = false.
Proof.
  intro Hnotin. unfold mem. apply not_true_is_false. intro H.
  apply existsb_exists in H as ([k s] & Hin & Hk). simpl in Hk.
  apply String.eqb_eq in Hk. subst k. apply Hnotin.
  change a with (fst (a, s)). now apply in_map.
Qed.

Lemma flush_whales (u : list (string * ResolutionChecker.stats)) (db : Database.t) :
  unique_addresses db ->
  NoDup (map fst u) ->
  Database.whales (fold_left ResolutionChecker.flush_one u db)
  = map (fun x => if mem (Whale.address x) u
                  then credit (stat_of (Whale.address x) u) x else x)
        (Database.whales db).
Proof.
  revert db. induction u as [|[a s] u IH]; intros db Hdb Hnd.
  - simpl. now rewrite map_id.
  - inversion Hnd as [|? ? Hnotin Hnd']; subst.
    cbn [fold_left]. rewrite IH; [|unfold unique_addresses|exact Hnd'];
      rewrite (flush_one_whales _ _ _ Hdb).
    + rewrite map_map. apply map_ext. intro x.
      unfold mem, stat_of. cbn [existsb find fst snd].
      destruct (String.eqb_spec (Whale.address x) a) as [E|E].
      * subst a. rewrite String.eqb_refl. cbn [orb].
        change (Whale.address (credit s x)) with (Whale.address x).
        pose proof (mem_false_stat _ _ Hnotin) as Hm. unfold mem in Hm.
        now rewrite Hm.
      * assert (Ha : (a =? Whale.address x)%string = false)
          by (apply String.eqb_neq; congruence).
        rewrite Ha. reflexivity.
    + rewrite map_map.
      erewrite map_ext; [exact Hdb|].
      intro x. now destruct (Whale.address x =? a)%string.
Qed.

(** ** C3: resolving twice *)

Lemma settled_not_selected (market_id winner : string) (r : Trade.t) :
  selected market_id (if selected market_id r then settle winner r else r) = false.
Proof.
  destruct (selected market_id r) eqn:E; [|exact E].
  unfold selected, Trade.is_unresolved. simpl. apply andb_false_r.
Qed.

Lemma filter_none {A : Type} (p : A -> bool) (l : list A) :
  (forall x, In x l -> p x = false) -> filter p l = [].
Proof.
  induction l as [|x l IH]; simpl; intro H; [reflexivity|].
  rewrite (H x (or_introl eq_refl)). apply IH. intros y Hy. apply H. now right.
Qed.

Lemma resolve_market_trades_keeps_ids (market_id winner : string) (now : Z)
  (db db' : Database.t) (res : ResolutionChecker.results) :
  unique_trade_ids db ->
  ResolutionChecker.resolve_market_trades market_id winner now db = Return (db', res) ->
  unique_trade_ids db'.
Proof.
  intros Hnd H. unfold unique_trade_ids.
  rewrite (resolve_market_trades_table _ _ _ _ _ _ Hnd H), map_map.
  erewrite map_ext; [exact Hnd|].
  intro r. now destruct (selected market_id r).
Qed.

Lemma resolve_market_trades_whales (market_id winner : string) (now : Z)
  (db db' : Database.t) (res : ResolutionChecker.results) :
  unique_addresses db ->
  ResolutionChecker.resolve_market_trades market_id winner now db = Return (db', res) ->
  Database.whales db'
  = map (fun x => if mem (Whale.address x) (ResolutionChecker.whale_updates res)
                  then credit (stat_of (Whale.address x)
                                 (ResolutionChecker.whale_updates res)) x
                  else x)
        (Database.whales db)
  /\ res = fold_left (tally winner) (filter (selected market_id) (Database.trades db))
                     ResolutionChecker.empty_results.
Proof.
  intros Hnd H. rewrite resolve_market_trades_returns in H.
  injection H as Hdb Hres. cbv zeta in Hdb, Hres. split; [|now symmetry].
  subst db'. unfold Database.mark_market_resolved. cbn [Database.whales Database.with_markets].
  rewrite Hres. rewrite flush_whales; [reflexivity|exact Hnd|].
  rewrite <- Hres, tally_updates. apply batch_keys. constructor.
Qed.

Lemma or_Z_some (v : Z) : or_Z (Some v) 0 = v.
Proof.
  simpl. destruct (Z.eqb_spec v 0); congruence.
Qed.

Lemma held_by_none (a : string) (l : list Trade.t) :
  existsb (fun t => (Trade.whale_address t =? a)%string) l = false ->
  held_by a l = [].
Proof.
  intro H. apply filter_none. intros t Ht.
  destruct (Trade.whale_address t =? a)%string eqn:E; [|reflexivity].
  assert (existsb (fun t => (Trade.whale_address t =? a)%string) l = true)
    by (apply existsb_exists; eauto).
  congruence.
Qed.

(** The counters of a whale after a batch: one more win or loss for each of
    its fetched positions. *)
Lemma counters_after_batch (market_id winner : string) (now : Z)
  (db db' : Database.t) (res : ResolutionChecker.results) (x : Whale.t) :
  unique_addresses db ->
  ResolutionChecker.resolve_market_trades market_id winner now db = Return (db', res) ->
  In x (Database.whales db) ->
  let fetched := filter (selected market_id) (Database.trades db) in
  exists x',
    Database.get_whale (Whale.address x) db' = Some x'
    /\ or_Z (Whale.win_count x') 0
       = (or_Z (Whale.win_count x) 0 + wins_of winner (Whale.address x) fetched)%Z
    /\ or_Z (Whale.loss_count x') 0
       = (or_Z (Whale.loss_count x) 0 + losses_of winner (Whale.address x) fetched)%Z.
Proof.
  intros Hnd H Hx fetched.
  destruct (resolve_market_trades_whales _ _ _ _ _ _ Hnd H) as [Hws Hres].
  fold fetched in Hres.
  assert (Hu : ResolutionChecker.whale_updates res
               = fold_left (fun u t => ResolutionChecker.bump_update
                                         (Trade.whale_address t) (won winner t)
                                         (pnl_value winner t) u) fetched [])
    by (rewrite Hres; apply tally_updates).
  unfold Database.get_whale. rewrite Hws, find_map_preserving.
  2:{ intro y. now destruct (mem (Whale.address y) _). }
  rewrite (find_address_unique _ x Hnd Hx). cbn [option_map].
  eexists. split; [reflexivity|].
  destruct (mem (Whale.address x) (ResolutionChecker.whale_updates res)) eqn:Hmem.
  - unfold credit. cbn [Whale.win_count Whale.loss_count Whale.set_stats].
    rewrite !or_Z_some, Hu, batch_wins, batch_losses.
    unfold stat_of. simpl. split; lia.
  - rewrite Hu, batch_mem in Hmem. simpl in Hmem.
    unfold wins_of, losses_of. rewrite (held_by_none _ _ Hmem). simpl. split; lia.
Qed.

(** C3, amended.  Once [resolve_market_trades] has run on a market, (1) every
    whale has received one win or one loss for each of its positions fetched
    by that run; (2) a second run on the market, whatever winner it is given,
    fetches nothing and changes no position and no whale counter; (3) no run
    on any market rewrites a position that is already resolved. *)
Theorem second_resolution_is_noop :
  forall (db db1 : Database.t) (market_id winner : string) (now : Z)
         (res1 : ResolutionChecker.results),
    unique_trade_ids db ->
    unique_addresses db ->
    ResolutionChecker.resolve_market_trades market_id winner now db
    = Return (db1, res1) ->
    let fetched := filter (selected market_id) (Database.trades db) in
    (forall x, In x (Database.whales db) ->
       exists x',
         Database.get_whale (Whale.address x) db1 = Some x'
         /\ or_Z (Whale.win_count x') 0
            = (or_Z (Whale.win_count x) 0 + wins_of winner (Whale.address x) fetched)%Z
         /\ or_Z (Whale.loss_count x') 0
            = (or_Z (Whale.loss_count x) 0
               + losses_of winner (Whale.address x) fetched)%Z
         /\ (wins_of winner (Whale.address x) fetched
             + losses_of winner (Whale.address x) fetched)%Z
            = Z.of_nat (List.length (held_by (Whale.address x) fetched)))
    /\ (forall winner2 now2,
          exists db2 res2,
            ResolutionChecker.resolve_market_trades market_id winner2 now2 db1
            = Return (db2, res2)
            /\ Database.trades db2 = Database.trades db1
            /\ Database.whales db2 = Database.whales db1
            /\ ResolutionChecker.trades_resolved res2 = 0%Z)
    /\ (forall market_id' winner' now' r,
          In r (Database.trades db1) ->
          Trade.resolved r = Some true ->
          exists db2 res2,
            ResolutionChecker.resolve_market_trades market_id' winner' now' db1
            = Return (db2, res2)
            /\ Database.get_trade (Trade.id r) db2 = Some r).
Proof.
  intros db db1 market_id winner now res1 Hids Haddr Hrun fetched.
  pose proof (resolve_market_trades_table _ _ _ _ _ _ Hids Hrun) as Htable.
  pose proof (resolve_market_trades_keeps_ids _ _ _ _ _ _ Hids Hrun) as Hids1.
  split; [|split].
  - intros x Hx.
    destruct (counters_after_batch _ _ _ _ _ _ x Haddr Hrun Hx) as (x' & Hget & Hw & Hl).
    exists x'. repeat split; auto. apply wins_plus_losses.
  - intros winner2 now2.
    rewrite resolve_market_trades_returns. cbv zeta.
    assert (Hnone : filter (selected market_id) (Database.trades db1) = []).
    { apply filter_none. intros r Hr. rewrite Htable in Hr.
      apply in_map_iff in Hr as (r0 & <- & _). apply settled_not_selected. }
    rewrite Hnone. eexists _, _. split; [reflexivity|].
    simpl. rewrite map_id. repeat split.
  - intros market_id' winner' now' r Hr Hres.
    destruct (ResolutionChecker.resolve_market_trades market_id' winner' now' db1)
      as [[db2 res2]|e] eqn:Hrun2;
      [|rewrite resolve_market_trades_returns in Hrun2; discriminate].
    exists db2, res2. split; [reflexivity|].
    unfold Database.get_trade.
    rewrite (resolve_market_trades_table _ _ _ _ _ _ Hids1 Hrun2).
    rewrite find_map_preserving.
    + rewrite (find_unique Trade.id _ r Hids1 Hr). simpl.
      unfold selected, Trade.is_unresolved. rewrite Hres. simpl.
      now rewrite andb_false_r.
    + intro y. now destruct (selected market_id' y).
Qed.

Lemma second_resolution_is_noop_witness :
  exists db1 res1,
    ResolutionChecker.resolve_market_trades "0xm1" "YES" 0 scenario_db
    = Return (db1, res1)
    /\ exists db2 res2,
         ResolutionChecker.resolve_market_trades "0xm1" "NO" 7 db1
         = Return (db2, res2)
         /\ Database.trades db2 = Database.trades db1
         /\ Database.whales db2 = Database.whales db1.
Proof.
  assert (Hids : unique_trade_ids scenario_db).
  { distinct_keys. }
  assert (Haddr : unique_addresses scenario_db).
  { distinct_keys. }
  pose proof (resolve_market_trades_returns "0xm1" "YES" 0 scenario_db) as Hrun.
  cbv zeta in Hrun.
  destruct (second_resolution_is_noop _ _ _ _ _ _ Hids Haddr Hrun) as (_ & H2 & _).
  destruct (H2 "NO" 7%Z) as (db2 & res2 & Hrun2 & Ht & Hw & _).
  eexists _, _. split; [exact Hrun|].
  exists db2, res2. repeat split; assumption.
Defined.

(** C3 as stated fails on [Database.resolve_trade]: called on a position that
    is already resolved as WIN with pnl 150, it rewrites outcome and pnl. *)
Lemma resolve_trade_overwrites :
  exists r r',
    Database.get_trade 1 settled_db = Some r
    /\ Trade.resolved r = Some true
    /\ Trade.outcome r = Some "WIN"
    /\ Trade.pnl r = Some 150
    /\ Database.get_trade 1 (Database.resolve_trade 1 "LOSS" (- (100)) settled_db)
       = Some r'
    /\ Trade.outcome r' = Some "LOSS"
    /\ Trade.pnl r' = Some (- (100))
    /\ Trade.outcome r' <> Trade.outcome r
    /\ Trade.pnl r' <> Trade.pnl r.
Proof.
  eexists _, _.
  split; [reflexivity|]. split; [reflexivity|]. split; [reflexivity|].
  split; [reflexivity|]. split; [reflexivity|]. split; [reflexivity|].
  split; [reflexivity|]. split; discriminate.
Qed.

(** ** C2: resolving a market *)

Lemma mark_market_resolved_row (market_id resolution : string) (now : Z)
  (db : Database.t) (m : string) :
  Database.get_market m (Database.mark_market_resolved market_id resolution now db)
  = option_map (fun row => if (m =? market_id)%string
                           then Market.set_resolution row resolution now else row)
               (Database.get_market m db).
Proof.
  unfold Database.get_market, Database.mark_market_resolved. simpl.
  induction (Database.markets db) as [|row ms IH]; simpl; [reflexivity|].
  destruct (String.eqb_spec (Market.market_id row) market_id) as [E|E]; simpl.
  - destruct (String.eqb_spec (Market.market_id row) m) as [E'|E']; simpl.
    + subst. now rewrite String.eqb_refl.
    + exact IH.
  - destruct (String.eqb_spec (Market.market_id row) m) as [E'|E']; simpl.
    + subst. apply String.eqb_neq in E. now rewrite E.
    + exact IH.
Qed.

Lemma bump_whale_markets (a o : string) (db db' : Database.t) :
  Database.bump_whale a o db = Return db' ->
  Database.markets db' = Database.markets db.
Proof.
  unfold Database.bump_whale. intro H.
  destruct (Database.get_whale a db) as [w|]; [|now injection H as <-].
  destruct (o =? "WIN")%string.
  - destruct (Whale.win_count w); [now injection H as <-|discriminate].
  - destruct (Whale.loss_count w); [now injection H as <-|discriminate].
Qed.

Lemma resolve_fetched_markets (resolution : string) (l : list Trade.t) (db : Database.t) :
  Database.markets (fst (Database.resolve_fetched resolution l db))
  = Database.markets db.
Proof.
  revert db. induction l as [|t l IH]; intro db; simpl; [reflexivity|].
  destruct (Database.trade_result resolution t) as [[o p]|e]; [|reflexivity].
  destruct (Database.bump_whale _ o _) as [db2|e] eqn:Hb; [|reflexivity].
  rewrite IH. now rewrite (bump_whale_markets _ _ _ _ Hb).
Qed.

Lemma check_position_market (w : string) (now : Z) (db : Database.t)
  (pos : WhaleTracker.position) (m : string) (row : Market.t) :
  Database.get_market m db = Some row ->
  Database.get_market m (WhaleTracker.check_position w now db pos) = Some row.
Proof.
  intro H. unfold WhaleTracker.check_position.
  destruct (_ =? "")%string; [exact H|].
  destruct (Database.trade_exists _ _ _ _); [exact H|].
  unfold Database.add_trade, Database.add_market. simpl.
  destruct (existsb _ (Database.markets db)); simpl; [exact H|].
  unfold Database.get_market in *. simpl.
  revert H. induction (Database.markets db) as [|x ms IH]; simpl; [discriminate|].
  destruct (Market.market_id x =? m)%string; [auto|exact IH].
Qed.

Lemma check_whale_positions_market (w : string) (now : Z)
  (fetched : result (list WhaleTracker.position)) (db : Database.t)
  (m : string) (row : Market.t) :
  Database.get_market m db = Some row ->
  Database.get_market m (WhaleTracker.check_whale_positions w now fetched db) = Some row.
Proof.
  destruct fetched as [positions|e]; simpl; [|auto].
  revert db. induction positions as [|pos l IH]; intros db H; simpl; [exact H|].
  apply IH. now apply check_position_market.
Qed.

Lemma get_market_same (m : string) (db1 db2 : Database.t) :
  Database.markets db1 = Database.markets db2 ->
  Database.get_market m db1 = Database.get_market m db2.
Proof.
  unfold Database.get_market. now intros ->.
Qed.

Lemma resolve_market_trades_market (market_id winner : string) (now : Z)
  (db : Database.t) (m : string) :
  exists db' res,
    ResolutionChecker.resolve_market_trades market_id winner now db = Return (db', res)
    /\ Database.get_market m db'
       = option_map (fun row => if (m =? market_id)%string
                                then Market.set_resolution row winner now else row)
                    (Database.get_market m db).
Proof.
  rewrite resolve_market_trades_returns. cbv zeta.
  eexists _, _. split; [reflexivity|].
  rewrite mark_market_resolved_row. f_equal.
  apply get_market_same. now rewrite flush_keeps_markets.
Qed.

Lemma resolve_market_market (market_id resolution : string) (now : Z)
  (db : Database.t) (m : string) :
  Database.get_market m (fst (Database.resolve_market market_id resolution now db))
  = option_map (fun row => if (m =? market_id)%string
                           then Market.set_resolution row resolution now else row)
               (Database.get_market m db).
Proof.
  unfold Database.resolve_market, Database.resolve_trades_by_market.
  rewrite <- mark_market_resolved_row.
  apply get_market_same. apply resolve_fetched_markets.
Qed.

(** C2, amended.  For a market that has a row in the store: resolving it,
    through [Database.resolve_market] or through [resolve_market_trades],
    always succeeds in writing the market row, with the resolved flag set and
    the stored outcome replaced by the outcome given, whatever the row held
    before (the last write wins, no conflict is detected); every operation
    that is not a resolution of this market leaves its row as it is. *)
Theorem market_outcome_last_write_wins :
  forall (db : Database.t) (m : string) (row : Market.t),
    Database.get_market m db = Some row ->
    (forall op, resolves m op = false ->
                Database.get_market m (perform op db) = Some row)
    /\ (forall resolution now,
          Database.get_market m (perform (ResolveMarket m resolution now) db)
          = Some (Market.set_resolution row resolution now))
    /\ (forall winner now,
          exists db' res,
            ResolutionChecker.resolve_market_trades m winner now db = Return (db', res)
            /\ Database.get_market m db' = Some (Market.set_resolution row winner now)).
Proof.
  intros db m row Hrow. split; [|split].
  - intros op Hop.
    destruct op; simpl in *;
      try (rewrite <- Hrow; apply get_market_same; reflexivity).
    + rewrite <- Hrow. apply get_market_same.
      unfold Database.add_whale. now destruct (existsb _ _).
    + rewrite <- Hrow. apply get_market_same.
      unfold Database.resolve_trades_by_market. apply resolve_fetched_markets.
    + unfold Database.add_market.
      destruct (existsb _ (Database.markets db)); simpl; [exact Hrow|].
      unfold Database.get_market in *. simpl.
      revert Hrow. induction (Database.markets db) as [|x ms IH]; simpl; [discriminate|].
      destruct (Market.market_id x =? m)%string; [auto|exact IH].
    + rewrite resolve_market_market, Hrow. simpl.
      rewrite String.eqb_sym, Hop. reflexivity.
    + destruct (resolve_market_trades_market market_id winner now db m)
        as (db' & res & Hrun & Hget).
      rewrite Hrun, Hget, Hrow. simpl.
      rewrite String.eqb_sym, Hop. reflexivity.
    + now apply check_whale_positions_market.
  - intros resolution now. simpl.
    rewrite resolve_market_market, Hrow. simpl. now rewrite String.eqb_refl.
  - intros winner now.
    destruct (resolve_market_trades_market m winner now db m)
      as (db' & res & Hrun & Hget).
    exists db', res. split; [exact Hrun|].
    rewrite Hget, Hrow. simpl. now rewrite String.eqb_refl.
Qed.

Lemma market_outcome_last_write_wins_witness :
  Database.get_market "0xm1"
    (perform (ResolveMarket "0xm1" "NO" 9) settled_db)
  = Some (Market.mk "0xm1" "Will it rain?" (Some true) (Some "NO") (Some 9%Z)).
Proof.
  destruct (market_outcome_last_write_wins settled_db "0xm1"
              (Market.mk "0xm1" "Will it rain?" (Some true) (Some "YES") (Some 0%Z))
              eq_refl) as (_ & H & _).
  exact (H "NO" 9%Z).
Defined.

(** C2 as stated fails: on a market already resolved to YES, both resolution
    paths given NO return without an error and the stored outcome becomes
    NO. *)
Lemma resolved_market_outcome_is_overwritten :
  exists row,
    Database.get_market "0xm1" settled_db = Some row
    /\ Market.resolved row = Some true
    /\ Market.resolution row = Some "YES"
    /\ (exists db' row',
          Database.resolve_market "0xm1" "NO" 9 settled_db = (db', None)
          /\ Database.get_market "0xm1" db' = Some row'
          /\ Market.resolution row' = Some "NO")
    /\ (exists db' res row',
          ResolutionChecker.resolve_market_trades "0xm1" "NO" 9 settled_db
          = Return (db', res)
          /\ Database.get_market "0xm1" db' = Some row'
          /\ Market.resolution row' = Some "NO").
Proof.
  eexists. split; [reflexivity|]. split; [reflexivity|]. split; [reflexivity|].
  split.
  - eexists _, _. split; [reflexivity|]. split; reflexivity.
  - rewrite resolve_market_trades_returns.
    eexists _, _, _. split; [reflexivity|]. split; reflexivity.
Qed.

(** ** C4: recording a position *)

Lemma trade_exists_count (w m s : string) (db : Database.t) :
  Database.trade_exists w m s db = true <-> (1 <= key_count w m s db)%nat.
Proof.
  unfold Database.trade_exists, key_count.
  change (fun r : Trade.t =>
            ((Trade.whale_address r =? w)%string && (Trade.market_id r =? m)%string
             && Database.side_matches (Trade.side r) s)%bool)
    with (has_key w m s).
  induction (Database.trades db) as [|r ts IH]; simpl.
  - split; [discriminate|lia].
  - destruct (has_key w m s r); simpl; [split; [lia|reflexivity]|exact IH].
Qed.

Lemma add_trade_count (w m q : string) (s : string) (sz p : option Q) (now : Z)
  (db : Database.t) (w' m' s' : string) :
  key_count w' m' s' (fst (Database.add_trade w m q (Some s) sz p now db))
  = (key_count w' m' s' db
     + if ((w =? w') && (m =? m') && (s =? s'))%string then 1 else 0)%nat.
Proof.
  unfold key_count, Database.add_trade. simpl.
  rewrite filter_app, length_app. f_equal. simpl.
  unfold has_key. simpl.
  destruct ((w =? w')%string && (m =? m')%string && (s =? s')%string)%bool; reflexivity.
Qed.

Lemma add_market_trades (m q : string) (db : Database.t) :
  Database.trades (fst (Database.add_market m q db)) = Database.trades db.
Proof.
  unfold Database.add_market. now destruct (existsb _ _).
Qed.

Lemma key_count_same (w m s : string) (db1 db2 : Database.t) :
  Database.trades db1 = Database.trades db2 ->
  key_count w m s db1 = key_count w m s db2.
Proof.
  unfold key_count. now intros ->.
Qed.

(** One step of the tracker adds a position only under a key that has none. *)
Lemma check_position_count (w : string) (now : Z) (db : Database.t)
  (pos : WhaleTracker.position) (w' m' s' : string) :
  key_count w' m' s' (WhaleTracker.check_position w now db pos) = key_count w' m' s' db
  \/ (key_count w' m' s' db = 0
      /\ key_count w' m' s' (WhaleTracker.check_position w now db pos) = 1)%nat.
Proof.
  unfold WhaleTracker.check_position.
  destruct (_ =? "")%string; [now left|].
  destruct (Database.trade_exists w _ _ db) eqn:Hex; [now left|].
  rewrite add_trade_count.
  rewrite (key_count_same _ _ _ _ db (add_market_trades _ _ _)).
  destruct ((w =? w')%string && (WhaleTracker.pos_market_id pos =? m')%string
            && (WhaleTracker.pos_side pos =? s')%string)%bool eqn:Hk.
  - right. apply andb_true_iff in Hk as [Hk Hs]. apply andb_true_iff in Hk as [Hw Hm].
    apply String.eqb_eq in Hw, Hm, Hs. subst w' m' s'.
    assert (~ (1 <= key_count w (WhaleTracker.pos_market_id pos)
                              (WhaleTracker.pos_side pos) db)%nat).
    { intro H. apply trade_exists_count in H. congruence. }
    lia.
  - left. lia.
Qed.

(** C4, amended.  [Database.add_trade] never refuses a duplicate: on any store
    it inserts one more position under the key it is given.  The guard is in
    [WhaleTracker.check_whale_positions], which asks [trade_exists] first: a
    key that already has a stored position gets no second one from it, and
    a store with at most one position per (participant, market, side) stays
    so. *)
Theorem check_whale_positions_suppresses_duplicates :
  forall (db : Database.t) (whale_address : string) (now : Z)
         (fetched : result (list WhaleTracker.position)),
    (forall w m q s sz p,
       key_count w m s (fst (Database.add_trade w m q (Some s) sz p now db))
       = S (key_count w m s db))
    /\ (forall w m s,
          (1 <= key_count w m s db)%nat ->
          key_count w m s (WhaleTracker.check_whale_positions whale_address now fetched db)
          = key_count w m s db)
    /\ (one_per_key db ->
        one_per_key (WhaleTracker.check_whale_positions whale_address now fetched db)).
Proof.
  intros db whale_address now fetched. split; [|split].
  - intros w m q s sz p. rewrite add_trade_count, !String.eqb_refl. simpl. lia.
  - intros w m s. destruct fetched as [positions|e]; simpl; [|reflexivity].
    revert db. induction positions as [|pos l IH]; intros db H; simpl; [reflexivity|].
    destruct (check_position_count whale_address now db pos w m s) as [E|[E _]]; [|lia].
    rewrite IH; rewrite E; auto.
  - destruct fetched as [positions|e]; simpl; [|auto].
    revert db. induction positions as [|pos l IH]; intros db H; simpl; [exact H|].
    apply IH. intros w m s.
    destruct (check_position_count whale_address now db pos w m s) as [E|[_ E]];
      rewrite E; [apply H|lia].
Qed.

Lemma check_whale_positions_suppresses_duplicates_witness :
  one_per_key
    (WhaleTracker.check_whale_positions "0xaaa" 5
       (Return [WhaleTracker.mk_position "0xm1" "Will it rain?" "YES" 7000 (45 # 100);
                WhaleTracker.mk_position "0xm2" "Will it snow?" "NO" 9000 (3 # 10);
                WhaleTracker.mk_position "0xm2" "Will it snow?" "NO" 9000 (3 # 10)])
       scenario_db).
Proof.
  apply (check_whale_positions_suppresses_duplicates scenario_db "0xaaa" 5).
  intros w m s. unfold key_count, scenario_db, has_key, scenario_yes, scenario_no.
  cbn [Database.trades filter Trade.whale_address Trade.market_id Trade.side
       Database.side_matches].
  destruct (("0xaaa" =? w)%string && ("0xm1" =? m)%string && ("YES" =? s)%string)%bool eqn:E1;
    destruct (("0xbbb" =? w)%string && ("0xm1" =? m)%string && ("NO" =? s)%string)%bool eqn:E2;
    cbn [List.length]; try lia.
  apply andb_true_iff in E1 as [E1 _]. apply andb_true_iff in E1 as [E1 _].
  apply andb_true_iff in E2 as [E2 _]. apply andb_true_iff in E2 as [E2 _].
  apply String.eqb_eq in E1, E2. congruence.
Defined.

(** C4 as stated fails on [Database.add_trade]: the store holds a position of
    0xaaa on 0xm1, side YES; recording the same key again returns a fresh id
    and leaves two stored positions under the key. *)
Lemma add_trade_duplicates_key :
  Database.trade_exists "0xaaa" "0xm1" "YES" scenario_db = true
  /\ key_count "0xaaa" "0xm1" "YES" scenario_db = 1%nat
  /\ exists db',
       Database.add_trade "0xaaa" "0xm1" "Will it rain?" (Some "YES") (Some 8000)
                          (Some (45 # 100)) 5 scenario_db
       = (db', 3%Z)
       /\ key_count "0xaaa" "0xm1" "YES" db' = 2%nat.
Proof.
  split; [reflexivity|]. split; [reflexivity|].
  eexists. split; reflexivity.
Qed.

(** ** C5 and C6: the oracle client *)

Lemma outcome_upper_readable (f : Oracle.token_fields) :
  readable f -> Oracle.outcome_upper (Oracle.Token f) = Return (outcome_text f).
Proof.
  intros [Ho _]. unfold Oracle.outcome_upper, outcome_text.
  destruct (Oracle.tok_outcome f); [reflexivity|reflexivity|contradiction].
Qed.

Lemma price_of_readable (f : Oracle.token_fields) :
  readable f -> Oracle.price_of (Oracle.Token f) = Return (price_value f).
Proof.
  intros [_ Hp]. unfold Oracle.price_of, price_value.
  destruct (Oracle.tok_price f); [reflexivity|reflexivity|contradiction].
Qed.

Lemma flagged_winner_readable (fs : list Oracle.token_fields) :
  Forall readable fs ->
  Oracle.flagged_winner (map Oracle.Token fs)
  = Return (option_map outcome_text (flagged fs)).
Proof.
  unfold flagged. induction fs as [|f fs IH]; intro H; [reflexivity|].
  inversion H as [|? ? Hf H']; subst.
  cbn [map Oracle.flagged_winner Oracle.winner_flag bind find].
  destruct (Oracle.tok_winner f); cbn [andb]; [|now apply IH].
  rewrite (outcome_upper_readable _ Hf). cbn [bind].
  destruct (Oracle.is_yes_no (outcome_text f)); [reflexivity|now apply IH].
Qed.

Lemma priced_winner_readable (fs : list Oracle.token_fields) :
  Forall readable fs ->
  Oracle.priced_winner (map Oracle.Token fs)
  = Return (option_map outcome_text (priced fs)).
Proof.
  unfold priced. induction fs as [|f fs IH]; intro H; [reflexivity|].
  inversion H as [|? ? Hf H']; subst.
  cbn [map Oracle.priced_winner find].
  rewrite (price_of_readable _ Hf), (outcome_upper_readable _ Hf). cbn [bind].
  destruct (_ && _)%bool; [reflexivity|now apply IH].
Qed.

(** C5, amended.  On a 200 response whose tokens can be read,
    [check_market_resolution] reports a market that is not closed as not
    resolved; for a closed market the winner is the outcome of the first
    token flagged as winner whose outcome is YES or NO, otherwise the outcome
    of the first YES or NO token whose price is strictly above 0.99; with
    neither, the market is reported as not resolved. *)
Theorem check_market_resolution_two_tiers :
  forall (market_id : string) (now : Z) (closed : bool)
         (fs : list Oracle.token_fields) (question : option string),
    Forall readable fs ->
    Oracle.check_market_resolution market_id now
      (Oracle.Http 200 (Oracle.MarketData closed (Oracle.Present (map Oracle.Token fs))
                                          question))
    = Return
        (if closed then
           option_map (fun w => Oracle.mk_resolution market_id
                                  (match question with
                                   | Some q => q
                                   | None => "Unknown"
                                   end) w now)
                      (two_tier_winner fs)
         else None).
Proof.
  intros market_id now closed fs question H.
  unfold Oracle.check_market_resolution, Oracle.check_body.
  cbn [Z.eqb Pos.eqb negb].
  destruct closed; cbn [negb]; [|reflexivity].
  destruct fs as [|f fs]; [reflexivity|].
  cbn [map]. cbv beta iota.
  change (Oracle.Token f :: map Oracle.Token fs) with (map Oracle.Token (f :: fs)).
  rewrite (flagged_winner_readable _ H).
  unfold two_tier_winner. cbn [bind].
  destruct (flagged (f :: fs)) as [g|]; cbn [option_map bind try_except]; [reflexivity|].
  rewrite (priced_winner_readable _ H). cbn [bind].
  destruct (priced (f :: fs)); reflexivity.
Qed.

Lemma check_market_resolution_two_tiers_witness :
  Oracle.check_market_resolution "0xm1" 3
    (Oracle.Http 200
       (Oracle.MarketData true
          (Oracle.Present
             (map Oracle.Token
                [Oracle.mk_token false (Oracle.Present "No") (Oracle.Present (5 # 1000));
                 Oracle.mk_token false (Oracle.Present "Yes") (Oracle.Present (995 # 1000))]))
          (Some "Will it rain?")))
  = Return (Some (Oracle.mk_resolution "0xm1" "Will it rain?" "YES" 3)).
Proof.
  apply (check_market_resolution_two_tiers "0xm1" 3 true
           [Oracle.mk_token false (Oracle.Present "No") (Oracle.Present (5 # 1000));
            Oracle.mk_token false (Oracle.Present "Yes") (Oracle.Present (995 # 1000))]
           (Some "Will it rain?")).
  repeat constructor; discriminate.
Defined.

(** C5 as stated fails at the threshold: on a closed market without winner
    flag whose YES token is priced at exactly 0.99, a price of 0.99 or more
    names YES the winner, but the code reports the market as not resolved.
    It fails on the first tier too when the market is not closed: the winner
    flag of the YES token is present and the market is reported as not
    resolved. *)
Lemma price_at_threshold_is_not_a_winner :
  ((exists f, In f settling_tokens
              /\ outcome_text f = "YES"
              /\ 99 # 100 <= price_value f)
   /\ winner_as_specified settling_tokens = Some "YES"
   /\ Oracle.check_market_resolution "0xm1" 3
        (Oracle.Http 200
           (Oracle.MarketData true
              (Oracle.Present (map Oracle.Token settling_tokens))
              (Some "Will it rain?")))
      = Return None)
  /\ (winner_as_specified flagged_tokens = Some "YES"
      /\ Oracle.check_market_resolution "0xm1" 3
           (Oracle.Http 200
              (Oracle.MarketData false
                 (Oracle.Present (map Oracle.Token flagged_tokens))
                 (Some "Will it rain?")))
         = Return None).
Proof.
  split; [|split; reflexivity].
  split; [|split; reflexivity].
  eexists. split; [left; reflexivity|]. split; [reflexivity|].
  apply Qle_refl.
Qed.

Lemma check_market_resolution_returns (market_id : string) (now : Z)
  (r : Oracle.response) :
  exists out, Oracle.check_market_resolution market_id now r = Return out.
Proof.
  unfold Oracle.check_market_resolution.
  destruct (Oracle.check_body market_id now r) as [out|e]; simpl.
  - now exists out.
  - exists None. now destruct e.
Qed.

Lemma check_market_resolution_absorbs (market_id : string) (now : Z)
  (r : Oracle.response) :
  transient_failure r ->
  Oracle.check_market_resolution market_id now r = Return None.
Proof.
  unfold transient_failure, Oracle.check_market_resolution, Oracle.check_body.
  destruct r as [e|status b].
  - intros _. now destruct e.
  - destruct (Z.eqb_spec status 404) as [E|E]; [reflexivity|].
    destruct (Z.eqb_spec status 200) as [E2|E2]; [|reflexivity].
    cbn [negb]. intros [H|H]; [contradiction|].
    destruct b as [| | |closed tokens question]; try reflexivity.
    destruct closed; cbn [negb]; [|reflexivity].
    destruct H as [->|(rest & ->)]; reflexivity.
Qed.

(** C6.  [check_market_resolution] never raises: whatever the feed does, it
    returns; and on a transient failure (a failed or timed-out request, a
    status other than 200, a missing or malformed body) it returns [None],
    the "not resolved" result. *)
Theorem check_market_resolution_never_raises :
  forall (market_id : string) (now : Z) (r : Oracle.response),
    (exists out, Oracle.check_market_resolution market_id now r = Return out)
    /\ (transient_failure r ->
        Oracle.check_market_resolution market_id now r = Return None).
Proof.
  intros market_id now r. split.
  - apply check_market_resolution_returns.
  - apply check_market_resolution_absorbs.
Qed.

Lemma check_market_resolution_never_raises_witness :
  Oracle.check_market_resolution "0xm1" 3 (Oracle.Failed TimeoutError) = Return None
  /\ Oracle.check_market_resolution "0xm1" 3 (Oracle.Http 503 Oracle.Empty) = Return None
  /\ Oracle.check_market_resolution "0xm1" 3 (Oracle.Http 200 Oracle.InvalidJson)
     = Return None
  /\ Oracle.check_market_resolution "0xm1" 3
       (Oracle.Http 200 (Oracle.MarketData true Oracle.Malformed None))
     = Return None.
Proof.
  split; [|split; [|split]].
  - apply (check_market_resolution_never_raises "0xm1" 3 (Oracle.Failed TimeoutError)).
    exact I.
  - apply (check_market_resolution_never_raises "0xm1" 3 (Oracle.Http 503 Oracle.Empty)).
    left. discriminate.
  - apply (check_market_resolution_never_raises "0xm1" 3
             (Oracle.Http 200 Oracle.InvalidJson)).
    right. exact I.
  - apply (check_market_resolution_never_raises "0xm1" 3
             (Oracle.Http 200 (Oracle.MarketData true Oracle.Malformed None))).
    right. left. reflexivity.
Defined.

(** ** The stable descending sort *)

Section SortDesc.

Context {A : Type}.
Variable lt : A -> A -> bool.

(** [lt] is the strict part of a total preorder on the keys. *)
Hypothesis lt_asym : forall x y, lt x y = true -> lt y x = false.
Hypothesis ge_trans : forall x y z, lt x y = false -> lt y z = false -> lt x z = false.

Let ge := not_below lt.

Lemma insert_desc_perm (x : A) (l : list A) :
  Permutation (insert_desc lt x l) (x :: l).
Proof.
  induction l as [|y l IH]; simpl; [apply Permutation_refl|].
  destruct (lt x y); [|apply Permutation_refl].
  eapply Permutation_trans; [apply perm_skip, IH|apply perm_swap].
Qed.

Lemma sort_desc_perm (l : list A) : Permutation (sort_desc lt l) l.
Proof.
  induction l as [|x l IH]; simpl; [constructor|].
  eapply Permutation_trans; [apply insert_desc_perm|now apply perm_skip].
Qed.

Lemma insert_desc_sorted (x : A) (l : list A) :
  StronglySorted ge l -> StronglySorted ge (insert_desc lt x l).
Proof.
  induction l as [|y l IH]; simpl; intro Hs.
  - repeat constructor.
  - inversion Hs as [|? ? Hs' Hall]; subst.
    destruct (lt x y) eqn:E.
    + constructor; [now apply IH|].
      eapply Permutation_Forall; [apply Permutation_sym, insert_desc_perm|].
      constructor; [now apply lt_asym|exact Hall].
    + constructor; [exact Hs|].
      constructor; [exact E|].
      eapply Forall_impl; [|exact Hall].
      intros z Hz. now apply (ge_trans x y z).
Qed.

Lemma sort_desc_sorted (l : list A) : StronglySorted ge (sort_desc lt l).
Proof.
  induction l as [|x l IH]; simpl; [constructor|now apply insert_desc_sorted].
Qed.

(** Stability: a class of items that [lt] never separates keeps its order. *)
Variable p : A -> bool.
Hypothesis p_class : forall x y, lt x y = true -> p x = true -> p y = false.



End SortDesc.

(** ** C8: ranking *)




Lemma add_ranks_Forall (P : PerformanceAnalyzer.performance -> Prop) (i : Z)
  (l : list PerformanceAnalyzer.performance) :
  (forall w r s, P w -> P (PerformanceAnalyzer.set_rank w r s)) ->
  Forall P l -> Forall P (PerformanceAnalyzer.add_ranks i l).
Proof.
  intros HP H. revert i. induction H as [|w l Hw H IH]; intro i; simpl; constructor; auto.
Qed.


Lemma StronglySorted_on {A : Type} (P : A -> Prop) (R1 R2 : A -> A -> Prop)
  (l : list A) :
  (forall a b, P a -> P b -> R1 a b -> R2 a b) ->
  Forall P l -> StronglySorted R1 l -> StronglySorted R2 l.
Proof.
  intros HR HP Hs. induction Hs as [|a l Hs IH Hall]; [constructor|].
  inversion HP as [|? ? Pa Pl]; subst.
  constructor; [now apply IH|].
  rewrite Forall_forall in *. intros b Hb. apply HR; auto.
Qed.


Lemma score_lt_asym (x y : PerformanceAnalyzer.performance) :
  Qlt_bool (PerformanceAnalyzer.score x) (PerformanceAnalyzer.score y) = true ->
  Qlt_bool (PerformanceAnalyzer.score y) (PerformanceAnalyzer.score x) = false.
Proof.
  rewrite Qlt_bool_iff, Qlt_bool_false_iff. apply Qlt_le_weak.
Qed.

Lemma score_ge_trans (x y z : PerformanceAnalyzer.performance) :
  Qlt_bool (PerformanceAnalyzer.score x) (PerformanceAnalyzer.score y) = false ->
  Qlt_bool (PerformanceAnalyzer.score y) (PerformanceAnalyzer.score z) = false ->
  Qlt_bool (PerformanceAnalyzer.score x) (PerformanceAnalyzer.score z) = false.
Proof.
  rewrite !Qlt_bool_false_iff. intros H1 H2. eapply Qle_trans; eauto.
Qed.




(** The three whales ranked: the higher score first, the tie in input order. *)
Lemma three_whales_ranked :
  map (fun w => (PerformanceAnalyzer.address w, PerformanceAnalyzer.rank w))
      (PerformanceAnalyzer.rank_whales three_whales)
  = [("0xbbb", Some 1%Z); ("0xaaa", Some 2%Z); ("0xccc", Some 3%Z)].
Proof.
  vm_compute. reflexivity.
Qed.

(** ** C7: the edge filter *)

Lemma upper_ascii_idempotent (c : ascii) : upper_ascii (upper_ascii c) = upper_ascii c.
Proof.
  destruct c as [[] [] [] [] [] [] [] []]; reflexivity.
Qed.

Lemma upper_idempotent (s : string) : upper (upper s) = upper s.
Proof.
  induction s as [|c s IH]; simpl; [reflexivity|].
  now rewrite upper_ascii_idempotent, IH.
Qed.







(** ** C9: consensus groups *)

Lemma add_signal_keys (s : TradeSignalsGenerator.signal)
  (groups : list (string * TradeSignalsGenerator.group)) :
  map fst (TradeSignalsGenerator.add_signal s groups)
  = if existsb (fun kp => (fst kp =? signal_key s)%string) groups
    then map fst groups
    else (map fst groups ++ [signal_key s])%list.
Proof.
  induction groups as [|[k g] groups IH]; simpl; [reflexivity|].
  fold (signal_key s).
  destruct (k =? signal_key s)%string; simpl; [reflexivity|].
  rewrite IH. now destruct (existsb _ groups).
Qed.

Lemma add_signal_in (s : TradeSignalsGenerator.signal)
  (groups : list (string * TradeSignalsGenerator.group))
  (k : string) (g' : TradeSignalsGenerator.group) :
  NoDup (map fst groups) ->
  In (k, g') (TradeSignalsGenerator.add_signal s groups) ->
  (k <> signal_key s /\ In (k, g') groups)
  \/ (k = signal_key s
      /\ ((exists g, In (k, g) groups /\ g' = joined s g)
          \/ (~ In k (map fst groups) /\ g' = opened s))).
Proof.
  induction groups as [|[k0 g0] groups IH]; simpl; fold (signal_key s); intro Hnd.
  - intros [H|[]]. injection H as <- <-. right. split; [reflexivity|].
    right. split; [tauto|reflexivity].
  - inversion Hnd as [|? ? Hnotin Hnd']; subst.
    destruct (String.eqb_spec k0 (signal_key s)) as [E|E]; simpl.
    + intros [H|H].
      * injection H as <- <-. right. split; [exact E|]. left.
        exists g0. split; [now left|reflexivity].
      * left. split; [|now right].
        intro Ek. apply Hnotin. rewrite E, <- Ek.
        change k with (fst (k, g')). now apply in_map.
    + intros [H|H].
      * injection H as <- <-. left. split; [exact E|now left].
      * destruct (IH Hnd' H) as [[Hk Hin]|[Hk [(g & Hin & Hg)|[Hnew Hg]]]].
        -- left. split; [exact Hk|now right].
        -- right. split; [exact Hk|]. left. exists g. split; [now right|exact Hg].
        -- right. split; [exact Hk|]. right. split; [|exact Hg].
           intros [H0|H0]; [congruence|contradiction].
Qed.

Lemma add_signal_keeps_keys (s : TradeSignalsGenerator.signal)
  (groups : list (string * TradeSignalsGenerator.group)) (k : string) :
  In k (map fst groups) \/ k = signal_key s ->
  In k (map fst (TradeSignalsGenerator.add_signal s groups)).
Proof.
  rewrite add_signal_keys.
  destruct (existsb _ groups) eqn:E.
  - intros [H|H]; [exact H|]. subst k.
    apply existsb_exists in E as ([k0 g0] & Hin & Hk). simpl in Hk.
    apply String.eqb_eq in Hk. subst k0.
    change (signal_key s) with (fst (signal_key s, g0)). now apply in_map.
  - intros [H|H]; apply in_or_app; [now left|right; now left].
Qed.

Lemma add_signal_nodup (s : TradeSignalsGenerator.signal)
  (groups : list (string * TradeSignalsGenerator.group)) :
  NoDup (map fst groups) ->
  NoDup (map fst (TradeSignalsGenerator.add_signal s groups)).
Proof.
  intro Hnd. rewrite add_signal_keys.
  destruct (existsb _ groups) eqn:E; [exact Hnd|].
  apply NoDup_app; [exact Hnd|repeat constructor; intros []|].
  intros k Hk [<-|[]].
  apply in_map_iff in Hk as ([k0 g0] & Hk0 & Hin). simpl in Hk0. subst k0.
  assert (existsb (fun kp => (fst kp =? signal_key s)%string) groups = true).
  { apply existsb_exists. exists (signal_key s, g0). split; [exact Hin|].
    apply String.eqb_refl. }
  congruence.
Qed.

Lemma on_key_snoc (k : string) (signals : list TradeSignalsGenerator.signal)
  (s : TradeSignalsGenerator.signal) :
  on_key k (signals ++ [s])
  = (on_key k signals ++ if (signal_key s =? k)%string then [s] else [])%list.
Proof.
  unfold on_key. rewrite filter_app. simpl.
  now destruct (signal_key s =? k)%string.
Qed.

Lemma add_signal_grouped (signals : list TradeSignalsGenerator.signal)
  (groups : list (string * TradeSignalsGenerator.group))
  (s : TradeSignalsGenerator.signal) :
  grouped signals groups ->
  grouped (signals ++ [s]) (TradeSignalsGenerator.add_signal s groups).
Proof.
  intros (Hnd & Hent & Hkeys). split; [|split].
  - now apply add_signal_nodup.
  - intros k g' Hin. rewrite on_key_snoc.
    destruct (add_signal_in s groups k g' Hnd Hin)
      as [[Hk Hg]|[Hk [(g & Hg & ->)|[Hnew ->]]]].
    + destruct (Hent k g' Hg) as [Hkey Hw]. split; [exact Hkey|].
      assert (E : (signal_key s =? k)%string = false)
        by (apply String.eqb_neq; congruence).
      now rewrite E, app_nil_r.
    + destruct (Hent k g Hg) as [Hkey Hw]. split; [exact Hkey|].
      subst k. rewrite String.eqb_refl, map_app. cbn [joined TradeSignalsGenerator.grp_whales].
      now rewrite Hw.
    + split; [now subst k|].
      subst k. rewrite String.eqb_refl.
      destruct (on_key (signal_key s) signals) as [|x l] eqn:E; [reflexivity|].
      exfalso. apply Hnew, Hkeys. rewrite E. discriminate.
  - intros k Hne. apply add_signal_keeps_keys. rewrite on_key_snoc in Hne.
    destruct (String.eqb_spec (signal_key s) k) as [E|E]; [now right|].
    left. apply Hkeys. now rewrite app_nil_r in Hne.
Qed.

Lemma group_signals_grouped (signals : list TradeSignalsGenerator.signal) :
  grouped signals (TradeSignalsGenerator.group_signals signals).
Proof.
  induction signals as [|s signals IH] using rev_ind.
  - split; [constructor|]. split; [intros k g []|]. intros k H. now contradiction H.
  - unfold TradeSignalsGenerator.group_signals. rewrite fold_left_app. simpl.
    now apply add_signal_grouped.
Qed.









(** ** The two resolution paths on concrete stores *)

(** The scenario of the specification through [resolve_market_trades]: the
    YES position wins 150, the NO position loses 50, the market is resolved
    to YES, and each whale gets one win or one loss. *)
Lemma scenario_resolution :
  exists db' res,
    ResolutionChecker.resolve_market_trades "0xm1" "YES" 0 scenario_db = Return (db', res)
    /\ stored_outcome 1 db' = Some "WIN"
    /\ (exists v, stored_pnl 1 db' = Some v /\ v == 150)
    /\ stored_outcome 2 db' = Some "LOSS"
    /\ (exists v, stored_pnl 2 db' = Some v /\ v == - (50))
    /\ Database.get_market "0xm1" db'
       = Some (Market.mk "0xm1" "Will it rain?" (Some true) (Some "YES") (Some 0%Z))
    /\ Database.whales db' = Database.whales settled_db
    /\ ResolutionChecker.trades_resolved res = 2%Z
    /\ ResolutionChecker.total_pnl res == 100.
Proof.
  rewrite resolve_market_trades_returns.
  eexists _, _. split; [reflexivity|].
  split; [reflexivity|]. split; [eexists; split; reflexivity|].
  split; [reflexivity|]. split; [eexists; split; reflexivity|].
  repeat split; reflexivity.
Qed.

(** [Database.resolve_trades_by_market] follows another pnl model than
    [resolve_market_trades]: on a position of size 100 entered at 0.5 it
    stores 50 for a win and -50 for a loss, where the resolution engine
    stores 100 and -100. *)
Lemma database_path_pnl :
  (exists db',
     Database.resolve_trades_by_market "0xm1" "YES" even_db = (db', None)
     /\ stored_outcome 1 db' = Some "WIN"
     /\ (exists v, stored_pnl 1 db' = Some v /\ v == 50)
     /\ stored_outcome 2 db' = Some "LOSS"
     /\ (exists v, stored_pnl 2 db' = Some v /\ v == - (50)))
  /\ (exists db' res,
        ResolutionChecker.resolve_market_trades "0xm1" "YES" 0 even_db
        = Return (db', res)
        /\ stored_outcome 1 db' = Some "WIN"
        /\ (exists v, stored_pnl 1 db' = Some v /\ v == 100)
        /\ stored_outcome 2 db' = Some "LOSS"
        /\ (exists v, stored_pnl 2 db' = Some v /\ v == - (100))).
Proof.
  split.
  - eexists. split; [reflexivity|].
    split; [reflexivity|]. split; [eexists; split; reflexivity|].
    split; [reflexivity|]. eexists; split; reflexivity.
  - rewrite resolve_market_trades_returns.
    eexists _, _. split; [reflexivity|].
    split; [reflexivity|]. split; [eexists; split; reflexivity|].
    split; [reflexivity|]. eexists; split; reflexivity.
Qed.

(** ** The batch run *)

(** [check_all_unresolved] never raises. *)
Lemma check_all_unresolved_returns (f : ResolutionRun.feed) (now : Z) (db : Database.t) :
  exists out, ResolutionRun.check_all_unresolved f now db = Return out.
Proof.
  unfold ResolutionRun.check_all_unresolved.
  generalize (ResolutionRun.mk_summary
                (Z.of_nat (List.length (ResolutionRun.get_unresolved_market_ids db)))
                0 0 0 0 0 []).
  generalize (ResolutionRun.get_unresolved_market_ids db).
  intro ids. revert db. induction ids as [|m ids IH]; intros db s; simpl.
  - now eexists.
  - destruct (check_market_resolution_returns m now (f m)) as ([r|] & ->); simpl.
    + rewrite resolve_market_trades_returns. simpl. apply IH.
    + apply IH.
Qed.

(** A pass on which every check fails writes nothing: the store is returned
    as it was, so the next pass pulls the same market ids and checks them
    again. *)
Theorem failed_checks_are_retried :
  forall (f : ResolutionRun.feed) (now : Z) (db : Database.t),
    (forall m, transient_failure (f m)) ->
    exists s,
      ResolutionRun.check_all_unresolved f now db = Return (db, s)
      /\ ResolutionRun.markets_resolved s = 0%Z
      /\ ResolutionRun.markets_checked s
         = Z.of_nat (List.length (ResolutionRun.get_unresolved_market_ids db)).
Proof.
  intros f now db Hf. unfold ResolutionRun.check_all_unresolved.
  exists (ResolutionRun.mk_summary
            (Z.of_nat (List.length (ResolutionRun.get_unresolved_market_ids db)))
            0 0 0 0 0 []).
  split; [|split; reflexivity].
  generalize (ResolutionRun.mk_summary
                (Z.of_nat (List.length (ResolutionRun.get_unresolved_market_ids db)))
                0 0 0 0 0 []).
  induction (ResolutionRun.get_unresolved_market_ids db) as [|m ids IH]; intro s; simpl.
  - reflexivity.
  - rewrite (check_market_resolution_absorbs m now (f m) (Hf m)). simpl. apply IH.
Qed.

Lemma failed_checks_are_retried_witness :
  exists s,
    ResolutionRun.check_all_unresolved (fun _ => Oracle.Failed TimeoutError) 0 scenario_db
    = Return (scenario_db, s)
    /\ ResolutionRun.markets_resolved s = 0%Z.
Proof.
  destruct (failed_checks_are_retried (fun _ => Oracle.Failed TimeoutError) 0 scenario_db)
    as (s & Hrun & Hres & _).
  - intro m. exact I.
  - exists s. now split.
Defined.

(** ** The whole of [generate_signals] *)





(** ** Shape of the stored positions *)



(** X3: a recorded position is unresolved, with neither outcome nor pnl, and is
    read back by [get_unresolved_trades] with the side, size, entry price
    and market it was recorded with. *)
Theorem recorded_position_reads_back :
  forall (db : Database.t) (whale market question : string) (side : option string)
         (size price : option Q) (now : Z),
    let '(db', rowid) := Database.add_trade whale market question side size price now db in
    In (Trade.mk rowid whale market question side size price now (Some false) None None)
       (Database.get_unresolved_trades db')
    /\ (Forall well_shaped (Database.trades db) ->
        Forall well_shaped (Database.trades db'))
    /\ (unique_trade_ids db -> unique_trade_ids db').
Proof.
  intros db whale market question side size price now.
  unfold Database.add_trade, Database.get_unresolved_trades. simpl.
  split; [|split].
  - apply filter_In. split; [|reflexivity].
    apply in_or_app. right. now left.
  - intro H. apply Forall_app. split; [exact H|].
    repeat constructor.
  - unfold unique_trade_ids. simpl. intro H. rewrite map_app. simpl.
    apply NoDup_app; [exact H|repeat constructor; intros []|].
    intros i Hi [<-|[]]. revert Hi. unfold Database.next_trade_id.
    generalize (map Trade.id (Database.trades db)). intros ids Hin.
    assert (Hmax : forall x, In x ids -> (x <= fold_right Z.max 0 ids)%Z).
    { clear. induction ids as [|y ids IH]; simpl; [intros x []|].
      intros x [->|Hx]; [lia|]. specialize (IH x Hx). lia. }
    specialize (Hmax _ Hin). lia.
Qed.

Lemma recorded_position_reads_back_witness :
  In (Trade.mk 3 "0xccc" "0xm3" "Will it hail?" (Some "NO") (Some 6000) (Some (3 # 10)) 9
               (Some false) None None)
     (Database.get_unresolved_trades
        (fst (Database.add_trade "0xccc" "0xm3" "Will it hail?" (Some "NO") (Some 6000)
                                 (Some (3 # 10)) 9 scenario_db)))
  /\ unique_trade_ids
       (fst (Database.add_trade "0xccc" "0xm3" "Will it hail?" (Some "NO") (Some 6000)
                                (Some (3 # 10)) 9 scenario_db)).
Proof.
  destruct (recorded_position_reads_back scenario_db "0xccc" "0xm3" "Will it hail?"
              (Some "NO") (Some 6000) (Some (3 # 10)) 9) as (Hin & _ & Hids).
  split; [exact Hin|].
  apply Hids. distinct_keys.
Defined.

(** ** The qualification gate and the ROI *)

(** A whale with fewer resolved trades than the minimum gets no metrics. *)
Theorem below_minimum_is_not_qualified :
  forall (address : string) (rows : list PerformanceAnalyzer.row) (minimum : Z),
    (PerformanceAnalyzer.len rows < minimum)%Z ->
    PerformanceAnalyzer.get_whale_performance address rows minimum = Return None.
Proof.
  intros address rows minimum H. unfold PerformanceAnalyzer.get_whale_performance.
  apply Z.ltb_lt in H. now rewrite H.
Qed.

Lemma below_minimum_is_not_qualified_witness :
  PerformanceAnalyzer.get_whale_performance "0xaaa" (firstn 5 ten_rows) 10 = Return None.
Proof.
  apply (below_minimum_is_not_qualified "0xaaa" (firstn 5 ten_rows) 10).
  reflexivity.
Defined.

(** With 1000 wagered and a total pnl of 150 the ROI is 15.0. *)
Lemma roi_of_ten_rows :
  exists w,
    PerformanceAnalyzer.get_whale_performance "0xaaa" ten_rows 10 = Return (Some w)
    /\ PerformanceAnalyzer.total_wagered w == 1000
    /\ PerformanceAnalyzer.total_pnl w == 150
    /\ PerformanceAnalyzer.roi w == 15
    /\ PerformanceAnalyzer.win_rate w == 50
    /\ PerformanceAnalyzer.sample_confidence w == 2 # 10.
Proof.
  eexists. split; [vm_compute; reflexivity|].
  repeat split; vm_compute; reflexivity.
Qed.

(** ** The market ids of a pass *)





(** ** What [resolve_market_trades] reports *)

Lemma tally_wins (winner : string) (l : list Trade.t) (res : ResolutionChecker.results) :
  ResolutionChecker.wins (fold_left (tally winner) l res)
  = (ResolutionChecker.wins res + Z.of_nat (List.length (filter (won winner) l)))%Z.
Proof.
  revert res. induction l as [|t l IH]; intro res; simpl; [lia|].
  rewrite IH. unfold tally. simpl.
  destruct (won winner t); simpl List.length; lia.
Qed.

Lemma tally_losses (winner : string) (l : list Trade.t) (res : ResolutionChecker.results) :
  ResolutionChecker.losses (fold_left (tally winner) l res)
  = (ResolutionChecker.losses res
     + Z.of_nat (List.length (filter (fun t => negb (won winner t)) l)))%Z.
Proof.
  revert res. induction l as [|t l IH]; intro res; simpl; [lia|].
  rewrite IH. unfold tally. simpl.
  destruct (won winner t); simpl; lia.
Qed.

Lemma won_or_lost {A : Type} (p : A -> bool) (l : list A) :
  (List.length (filter p l) + List.length (filter (fun x => negb (p x)) l))%nat
  = List.length l.
Proof.
  induction l as [|x l IH]; simpl; [reflexivity|].
  destruct (p x); simpl; lia.
Qed.

Lemma tally_pnl (winner : string) (l : list Trade.t) (res : ResolutionChecker.results) :
  ResolutionChecker.total_pnl (fold_left (tally winner) l res)
  == ResolutionChecker.total_pnl res + batch_pnl winner l.
Proof.
  revert res. induction l as [|t l IH]; intro res; simpl.
  - ring.
  - rewrite IH. unfold tally. simpl. ring.
Qed.

Lemma bump_update_pnl (a b : string) (w : bool) (p : Q)
  (u : list (string * ResolutionChecker.stats)) :
  ResolutionChecker.st_pnl (stat_of a (ResolutionChecker.bump_update b w p u))
  == ResolutionChecker.st_pnl (stat_of a u) + (if (a =? b)%string then p else 0).
Proof.
  unfold stat_of. induction u as [|[k s] u IH]; simpl.
  - rewrite (String.eqb_sym b a).
    destruct (a =? b)%string; destruct w; simpl; ring.
  - destruct (String.eqb_spec k b) as [->|Hkb]; simpl.
    + rewrite (String.eqb_sym b a).
      destruct (a =? b)%string; destruct w; simpl; ring.
    + destruct (String.eqb_spec k a) as [->|Hka]; simpl.
      * apply String.eqb_neq in Hkb. rewrite Hkb. ring.
      * exact IH.
Qed.

Lemma batch_pnl_of (winner a : string) (l : list Trade.t)
  (u : list (string * ResolutionChecker.stats)) :
  ResolutionChecker.st_pnl
    (stat_of a (fold_left (fun u t => ResolutionChecker.bump_update (Trade.whale_address t)
                                        (won winner t) (pnl_value winner t) u) l u))
  == ResolutionChecker.st_pnl (stat_of a u) + batch_pnl winner (held_by a l).
Proof.
  revert u. induction l as [|t l IH]; intro u; simpl.
  - ring.
  - rewrite IH, bump_update_pnl. rewrite (String.eqb_sym a).
    destruct (Trade.whale_address t =? a)%string; simpl; ring.
Qed.

(** X5: the dict that [resolve_market_trades] returns describes the batch:
    the count of the fetched positions, of those that won, wins and losses
    adding up to the count, the sum of the stored pnls, and for each whale
    its own wins, losses and pnl. *)
Theorem resolve_market_trades_reports_batch :
  forall (db : Database.t) (market_id winner : string) (now : Z),
    let fetched := filter (selected market_id) (Database.trades db) in
    exists db' res,
      ResolutionChecker.resolve_market_trades market_id winner now db = Return (db', res)
      /\ ResolutionChecker.trades_resolved res = Z.of_nat (List.length fetched)
      /\ ResolutionChecker.wins res
         = Z.of_nat (List.length (filter (won winner) fetched))
      /\ (ResolutionChecker.wins res + ResolutionChecker.losses res)%Z
         = ResolutionChecker.trades_resolved res
      /\ ResolutionChecker.total_pnl res == batch_pnl winner fetched
      /\ forall a,
           let s := stat_of a (ResolutionChecker.whale_updates res) in
           ResolutionChecker.st_wins s = wins_of winner a fetched
           /\ ResolutionChecker.st_losses s = losses_of winner a fetched
           /\ ResolutionChecker.st_pnl s == batch_pnl winner (held_by a fetched).
Proof.
  intros db market_id winner now fetched.
  rewrite resolve_market_trades_returns. cbv zeta. fold fetched.
  eexists. eexists. split; [reflexivity|].
  rewrite tally_count, tally_wins, tally_losses, tally_pnl, tally_updates.
  simpl ResolutionChecker.trades_resolved. simpl ResolutionChecker.wins.
  simpl ResolutionChecker.losses. simpl ResolutionChecker.total_pnl.
  simpl ResolutionChecker.whale_updates.
  repeat split.
  - pose proof (won_or_lost (won winner) fetched). lia.
  - ring.
  - rewrite batch_wins. simpl. lia.
  - rewrite batch_losses. simpl. lia.
  - rewrite batch_pnl_of. simpl. ring.
Qed.

(** ** What [resolve_market_trades] leaves alone *)

Lemma held_by_empty (a : string) (l : list Trade.t) :
  held_by a l = [] ->
  existsb (fun t => (Trade.whale_address t =? a)%string) l = false.
Proof.
  unfold held_by. induction l as [|t l IH]; simpl; [reflexivity|].
  destruct (Trade.whale_address t =? a)%string; [discriminate|]. exact IH.
Qed.

Lemma resolve_market_trades_markets (market_id winner : string) (now : Z)
  (db db' : Database.t) (res : ResolutionChecker.results) :
  ResolutionChecker.resolve_market_trades market_id winner now db = Return (db', res) ->
  Database.markets db'
  = map (fun row => if (Market.market_id row =? market_id)%string
                    then Market.set_resolution row winner now else row)
        (Database.markets db).
Proof.
  intro H. rewrite resolve_market_trades_returns in H. injection H as Hdb _.
  subst db'. cbv zeta. unfold Database.mark_market_resolved. simpl.
  now rewrite flush_keeps_markets.
Qed.

(** X6: [resolve_market_trades] adds and deletes no row.  It leaves alone the
    positions of other markets and the positions already resolved, the
    whale, market, side, size, entry price and entry time of every position,
    the volume of every whale, the whales that hold none of the fetched
    positions, and the rows of the other markets. *)
Theorem resolve_market_trades_frame :
  forall (db db' : Database.t) (market_id winner : string) (now : Z)
         (res : ResolutionChecker.results),
    unique_trade_ids db ->
    unique_addresses db ->
    ResolutionChecker.resolve_market_trades market_id winner now db = Return (db', res) ->
    map Trade.id (Database.trades db') = map Trade.id (Database.trades db)
    /\ (forall r, In r (Database.trades db) -> selected market_id r = false ->
                  Database.get_trade (Trade.id r) db' = Some r)
    /\ (forall r, In r (Database.trades db) ->
          exists r',
            Database.get_trade (Trade.id r) db' = Some r'
            /\ Trade.whale_address r' = Trade.whale_address r
            /\ Trade.market_id r' = Trade.market_id r
            /\ Trade.side r' = Trade.side r
            /\ Trade.size r' = Trade.size r
            /\ Trade.entry_price r' = Trade.entry_price r
            /\ Trade.entry_time r' = Trade.entry_time r)
    /\ map Whale.address (Database.whales db') = map Whale.address (Database.whales db)
    /\ map Whale.total_volume (Database.whales db')
       = map Whale.total_volume (Database.whales db)
    /\ (forall x, In x (Database.whales db) ->
          held_by (Whale.address x) (filter (selected market_id) (Database.trades db)) = [] ->
          Database.get_whale (Whale.address x) db' = Some x)
    /\ map Market.market_id (Database.markets db')
       = map Market.market_id (Database.markets db)
    /\ (forall m, m <> market_id -> Database.get_market m db' = Database.get_market m db).
Proof.
  intros db db' market_id winner now res Hids Hads Hrun.
  pose proof (resolve_market_trades_table _ _ _ _ _ _ Hids Hrun) as Ht.
  destruct (resolve_market_trades_whales _ _ _ _ _ _ Hads Hrun) as [Hw Hres].
  pose proof (resolve_market_trades_markets _ _ _ _ _ _ Hrun) as Hm.
  assert (Hfind : forall r, In r (Database.trades db) ->
            Database.get_trade (Trade.id r) db'
            = Some (if selected market_id r then settle winner r else r)).
  { intros r Hr. unfold Database.get_trade. rewrite Ht, find_map_preserving.
    - now rewrite (find_unique Trade.id _ r Hids Hr).
    - intro x. now destruct (selected market_id x). }
  repeat split.
  - rewrite Ht, map_map. apply map_ext. intro r. now destruct (selected market_id r).
  - intros r Hr Hsel. rewrite (Hfind r Hr), Hsel. reflexivity.
  - intros r Hr. eexists. split; [apply (Hfind r Hr)|].
    destruct (selected market_id r); repeat split; reflexivity.
  - rewrite Hw, map_map. apply map_ext. intro x.
    now destruct (mem (Whale.address x) (ResolutionChecker.whale_updates res)).
  - rewrite Hw, map_map. apply map_ext. intro x.
    now destruct (mem (Whale.address x) (ResolutionChecker.whale_updates res)).
  - intros x Hx Hnone. unfold Database.get_whale. rewrite Hw, find_map_preserving.
    + rewrite (find_address_unique _ x Hads Hx). simpl.
      rewrite Hres, tally_updates, batch_mem. simpl.
      now rewrite (held_by_empty _ _ Hnone).
    + intro y. now destruct (mem (Whale.address y) (ResolutionChecker.whale_updates res)).
  - rewrite Hm, map_map. apply map_ext. intro row.
    now destruct (Market.market_id row =? market_id)%string.
  - intros m Hne. unfold Database.get_market. rewrite Hm, find_map_preserving.
    + destruct (find _ (Database.markets db)) as [row|] eqn:Hf; simpl; [|reflexivity].
      apply find_some in Hf as [_ Hf]. apply String.eqb_eq in Hf.
      destruct (String.eqb_spec (Market.market_id row) market_id); [congruence|reflexivity].
    + intro row. now destruct (Market.market_id row =? market_id)%string.
Qed.

Lemma resolve_market_trades_frame_witness :
  exists db' res,
    ResolutionChecker.resolve_market_trades "0xm2" "YES" 3 proven_db = Return (db', res)
    /\ Database.get_trade 1 db' = Some (past_trade 1)
    /\ map Whale.total_volume (Database.whales db') = [Some 60000].
Proof.
  destruct (ResolutionChecker.resolve_market_trades "0xm2" "YES" 3 proven_db)
    as [[db' res]|e] eqn:Hrun; [|discriminate Hrun].
  exists db', res. split; [reflexivity|].
  assert (Hids : unique_trade_ids proven_db).
  { unfold unique_trade_ids. vm_compute. repeat constructor; simpl; intuition discriminate. }
  assert (Hads : unique_addresses proven_db) by distinct_keys.
  destruct (resolve_market_trades_frame proven_db db' "0xm2" "YES" 3 res Hids Hads Hrun)
    as (_ & Hkeep & _ & _ & Hvol & _).
  split.
  - apply (Hkeep (past_trade 1)); [|reflexivity]. simpl. now left.
  - exact Hvol.
Defined.

(** ** What the oracle client can answer *)







(** ** A whole pass of the batch run *)










(** ** The figures of the ledger *)

Lemma sum_case_count (c : Trade.t -> bool) (rows : list Trade.t) :
  or_Z (ResolutionStats.sum_case c rows) 0 = Z.of_nat (List.length (filter c rows)).
Proof.
  assert (H : forall l acc,
             fold_left (fun acc r => if c r then acc + 1 else acc + 0)%Z l acc
             = (acc + Z.of_nat (List.length (filter c l)))%Z).
  { induction l as [|r l IH]; intro acc; simpl; [lia|].
    rewrite IH. destruct (c r); simpl List.length; lia. }
  unfold ResolutionStats.sum_case. destruct rows as [|r rows]; [reflexivity|].
  rewrite H. unfold or_Z.
  destruct (Z.eqb_spec (0 + Z.of_nat (List.length (filter c (r :: rows)))) 0); lia.
Qed.


Lemma rate_bounds (wins losses : Z) :
  (0 <= wins)%Z -> (0 <= losses)%Z ->
  let rate := if (0 <? wins + losses)%Z
              then inject_Z wins / inject_Z (wins + losses) * 100 else 0 in
  0 <= rate /\ rate <= 100 /\ rate * inject_Z (wins + losses) == 100 * inject_Z wins.
Proof.
  intros Hw Hl rate. subst rate.
  destruct (Z.ltb_spec 0 (wins + losses)) as [Hpos|Hzero].
  - assert (Ht : 0 < inject_Z (wins + losses)).
    { change 0 with (inject_Z 0). now rewrite <- Zlt_Qlt. }
    assert (Hw' : 0 <= inject_Z wins).
    { change 0 with (inject_Z 0). now rewrite <- Zle_Qle. }
    assert (Hle : inject_Z wins <= inject_Z (wins + losses)).
    { rewrite <- Zle_Qle. lia. }
    assert (Hq : 0 <= inject_Z wins / inject_Z (wins + losses)).
    { apply Qle_shift_div_l; [assumption|]. now rewrite Qmult_0_l. }
    assert (Hq1 : inject_Z wins / inject_Z (wins + losses) <= 1).
    { apply Qle_shift_div_r; [assumption|]. now rewrite Qmult_1_l. }
    repeat split.
    + nra.
    + nra.
    + field. intro E. rewrite E in Ht. exact (Qlt_irrefl 0 Ht).
  - assert (wins = 0%Z) by lia. assert (losses = 0%Z) by lia. subst.
    repeat split; try discriminate; try reflexivity.
Qed.

(** X9: the figures of [get_resolution_stats] are consistent on every
    ledger, the empty one included: the resolved and the unresolved trades
    add up to the total, neither count is negative, and the win rate lies
    between 0 and 100 and is 0 when no trade has an outcome. *)
Theorem resolution_stats_are_consistent :
  forall (db : Database.t),
    let s := ResolutionStats.get_resolution_stats db in
    (ResolutionStats.resolved_trades s + ResolutionStats.unresolved_trades s)%Z
    = ResolutionStats.total_trades s
    /\ (0 <= ResolutionStats.resolved_trades s)%Z
    /\ (0 <= ResolutionStats.unresolved_trades s)%Z
    /\ ResolutionStats.resolved_trades s
       = Z.of_nat (List.length (filter ResolutionStats.is_resolved (Database.trades db)))
    /\ 0 <= ResolutionStats.win_rate s
    /\ ResolutionStats.win_rate s <= 100
    /\ ResolutionStats.win_rate s
         * inject_Z (ResolutionStats.wins s + ResolutionStats.losses s)
       == 100 * inject_Z (ResolutionStats.wins s)
    /\ ((ResolutionStats.wins s + ResolutionStats.losses s)%Z = 0%Z ->
        ResolutionStats.win_rate s = 0).
Proof.
  intro db. unfold ResolutionStats.get_resolution_stats. cbv zeta.
  cbn [ResolutionStats.total_trades ResolutionStats.resolved_trades
       ResolutionStats.unresolved_trades ResolutionStats.wins ResolutionStats.losses
       ResolutionStats.win_rate].
  rewrite !sum_case_count.
  pose proof (filter_length_le ResolutionStats.is_resolved (Database.trades db)) as Hle.
  destruct (rate_bounds
              (Z.of_nat (List.length (filter (ResolutionStats.outcome_is "WIN")
                                             (Database.trades db))))
              (Z.of_nat (List.length (filter (ResolutionStats.outcome_is "LOSS")
                                             (Database.trades db)))))
    as (H0 & H100 & Hrate); try lia.
  repeat split; try lia; try assumption.
  intro Hz. rewrite Hz. reflexivity.
Qed.







(** ** Whale discovery *)

Lemma last_volume_from (a : string) (l : list WhaleDiscovery.found) (acc : option Q) :
  fold_left (fun acc w => if (WhaleDiscovery.fw_address w =? a)%string
                          then Some (WhaleDiscovery.fw_total_volume w) else acc)
            l acc
  = match last_volume a l with
    | Some v => Some v
    | None => acc
    end.
Proof.
  unfold last_volume. revert acc. induction l as [|w l IH]; intro acc; simpl; [reflexivity|].
  rewrite IH.
  rewrite (IH (if (WhaleDiscovery.fw_address w =? a)%string
               then Some (WhaleDiscovery.fw_total_volume w) else None)).
  destruct (fold_left _ l None); [reflexivity|].
  now destruct (WhaleDiscovery.fw_address w =? a)%string.
Qed.

Lemma get_whale_existsb (a : string) (db : Database.t) :
  existsb (fun w => (Whale.address w =? a)%string) (Database.whales db)
  = match Database.get_whale a db with
    | Some _ => true
    | None => false
    end.
Proof.
  unfold Database.get_whale. induction (Database.whales db) as [|x l IH]; simpl;
    [reflexivity|].
  now destruct (Whale.address x =? a)%string.
Qed.

Lemma find_snoc_none {A : Type} (p : A -> bool) (l : list A) (x : A) :
  find p l = None -> find p (l ++ [x]) = if p x then Some x else None.
Proof.
  induction l as [|y l IH]; simpl; [reflexivity|].
  destruct (p y); [discriminate|]. exact IH.
Qed.

Lemma find_snoc_some {A : Type} (p : A -> bool) (l : list A) (x y : A) :
  find p l = Some y -> find p (l ++ [x]) = Some y.
Proof.
  induction l as [|z l IH]; simpl; [discriminate|].
  destruct (p z); [trivial|]. exact IH.
Qed.

(** The whale row of an address after one step of the discovery loop. *)
Lemma discover_one_lookup (db : Database.t) (n : Z) (w : WhaleDiscovery.found) (b : string) :
  Database.get_whale b (fst (WhaleDiscovery.discover_one (db, n) w))
  = if (WhaleDiscovery.fw_address w =? b)%string
    then Some (discovered_row b (WhaleDiscovery.fw_total_volume w) (Database.get_whale b db))
    else Database.get_whale b db.
Proof.
  unfold WhaleDiscovery.discover_one, Database.add_whale.
  rewrite get_whale_existsb.
  destruct (Database.get_whale (WhaleDiscovery.fw_address w) db) as [x|] eqn:Hx;
    cbn [fst].
  - (* a known address: its volume is updated *)
    unfold Database.update_whale_volume, Database.get_whale. cbn [Database.whales
      Database.with_whales].
    rewrite find_map_preserving.
    + fold (Database.get_whale b db).
      destruct (String.eqb_spec (WhaleDiscovery.fw_address w) b) as [E|E].
      * rewrite <- E, Hx. cbn [option_map discovered_row].
        unfold Database.get_whale in Hx. apply find_some in Hx as [_ Hx].
        rewrite Hx. reflexivity.
      * destruct (Database.get_whale b db) as [y|] eqn:Hy; cbn [option_map]; [|reflexivity].
        unfold Database.get_whale in Hy. apply find_some in Hy as [_ Hy].
        apply String.eqb_eq in Hy.
        destruct (String.eqb_spec (Whale.address y) (WhaleDiscovery.fw_address w));
          [congruence|reflexivity].
    + intro y. now destruct (Whale.address y =? WhaleDiscovery.fw_address w)%string.
  - (* a new address: a row is added *)
    unfold Database.get_whale. cbn [Database.whales Database.with_whales].
    fold (Database.get_whale b db).
    destruct (String.eqb_spec (WhaleDiscovery.fw_address w) b) as [E|E].
    + rewrite <- E, Hx. unfold Database.get_whale in Hx.
      rewrite (find_snoc_none _ _ _ Hx). cbn [Whale.address].
      now rewrite String.eqb_refl.
    + destruct (Database.get_whale b db) as [y|] eqn:Hy; unfold Database.get_whale in Hy.
      * now rewrite (find_snoc_some _ _ _ _ Hy).
      * rewrite (find_snoc_none _ _ _ Hy). cbn [Whale.address].
        apply String.eqb_neq in E. now rewrite E.
Qed.

Lemma discover_one_keeps (db : Database.t) (n : Z) (w : WhaleDiscovery.found) :
  Database.trades (fst (WhaleDiscovery.discover_one (db, n) w)) = Database.trades db
  /\ Database.markets (fst (WhaleDiscovery.discover_one (db, n) w)) = Database.markets db
  /\ (unique_addresses db ->
      unique_addresses (fst (WhaleDiscovery.discover_one (db, n) w))).
Proof.
  unfold WhaleDiscovery.discover_one, Database.add_whale, unique_addresses.
  destruct (existsb _ (Database.whales db)) eqn:Hex; cbn [fst].
  - repeat split. cbn. rewrite map_map. intro H.
    erewrite map_ext; [exact H|]. intro y. cbn.
    now destruct (Whale.address y =? WhaleDiscovery.fw_address w)%string.
  - repeat split. cbn. rewrite map_app. cbn. intro H.
    apply NoDup_app; [assumption|repeat constructor; simpl; tauto|].
    intros a Ha [<-|[]]. apply in_map_iff in Ha as (y & Hy & Hin).
    assert (Hfalse : existsb (fun w0 => (Whale.address w0 =? WhaleDiscovery.fw_address w)%string)
                             (Database.whales db) = true).
    { apply existsb_exists. exists y. split; [assumption|]. now apply String.eqb_eq. }
    congruence.
Qed.

Lemma discovered_row_twice (b : string) (v v' : Q) (before : option Whale.t) :
  discovered_row b v' (Some (discovered_row b v before)) = discovered_row b v' before.
Proof.
  now destruct before.
Qed.

Lemma discover_loop (l : list WhaleDiscovery.found) :
  forall (db : Database.t) (n : Z) (b : string),
    let db' := fst (fold_left WhaleDiscovery.discover_one l (db, n)) in
    Database.get_whale b db'
    = match last_volume b l with
      | Some v => Some (discovered_row b v (Database.get_whale b db))
      | None => Database.get_whale b db
      end
    /\ Database.trades db' = Database.trades db
    /\ Database.markets db' = Database.markets db
    /\ (unique_addresses db -> unique_addresses db').
Proof.
  induction l as [|w l IH]; intros db n b; cbn [fold_left].
  - cbn. tauto.
  - destruct (WhaleDiscovery.discover_one (db, n) w) as [db1 n1] eqn:Hstep.
    assert (Hdb1 : db1 = fst (WhaleDiscovery.discover_one (db, n) w)) by now rewrite Hstep.
    destruct (IH db1 n1 b) as (Hget & Ht & Hm & Hu).
    destruct (discover_one_keeps db n w) as (Ht1 & Hm1 & Hu1).
    rewrite <- Hdb1 in Ht1, Hm1, Hu1.
    cbv zeta in *. rewrite Hget, Ht, Hm. repeat split; auto.
    rewrite Hdb1, discover_one_lookup.
    unfold last_volume at 2. cbn [fold_left]. rewrite last_volume_from.
    destruct (last_volume b l) as [v|].
    + destruct (WhaleDiscovery.fw_address w =? b)%string; [|reflexivity].
      now rewrite discovered_row_twice.
    + now destruct (WhaleDiscovery.fw_address w =? b)%string.
Qed.

(** X11: whale discovery never touches the win and loss counters.  After
    [discover_whales], an address that the discovery reports is tracked with
    the volume reported last for it, with the counters it had before, or
    with counters 0 when it is new; every other whale row, every position
    and every market is as before; addresses stay unique; and a failed
    discovery changes nothing. *)
Theorem discover_whales_keeps_counters :
  forall (db : Database.t) (whales : list WhaleDiscovery.found) (a : string),
    let db' := fst (fst (WhaleDiscovery.discover_whales (Return whales) db)) in
    Database.get_whale a db'
    = match last_volume a whales with
      | Some v => Some (discovered_row a v (Database.get_whale a db))
      | None => Database.get_whale a db
      end
    /\ option_map Whale.win_count (Database.get_whale a db')
       = match Database.get_whale a db, last_volume a whales with
         | None, Some _ => Some (Some 0%Z)
         | before, _ => option_map Whale.win_count before
         end
    /\ option_map Whale.loss_count (Database.get_whale a db')
       = match Database.get_whale a db, last_volume a whales with
         | None, Some _ => Some (Some 0%Z)
         | before, _ => option_map Whale.loss_count before
         end
    /\ Database.trades db' = Database.trades db
    /\ Database.markets db' = Database.markets db
    /\ (unique_addresses db -> unique_addresses db')
    /\ forall e, WhaleDiscovery.discover_whales (Raise e) db = (db, 0%Z, []).
Proof.
  intros db whales a db'. subst db'. unfold WhaleDiscovery.discover_whales.
  destruct (fold_left WhaleDiscovery.discover_one whales (db, 0%Z)) as [db' n] eqn:Hloop.
  cbn [fst].
  destruct (discover_loop whales db 0%Z a) as (Hget & Ht & Hm & Hu).
  rewrite Hloop in Hget, Ht, Hm, Hu. cbn [fst] in *.
  rewrite Hget. repeat split; auto.
  - destruct (Database.get_whale a db), (last_volume a whales); reflexivity.
  - destruct (Database.get_whale a db), (last_volume a whales); reflexivity.
Qed.

(** ** The win rate that the alerts quote *)

Lemma credit_non_negative (s : ResolutionChecker.stats) (x : Whale.t) :
  (0 <= ResolutionChecker.st_wins s)%Z -> (0 <= ResolutionChecker.st_losses s)%Z ->
  (0 <= or_Z (Whale.win_count x) 0)%Z /\ (0 <= or_Z (Whale.loss_count x) 0)%Z ->
  (0 <= or_Z (Whale.win_count (credit s x)) 0)%Z
  /\ (0 <= or_Z (Whale.loss_count (credit s x)) 0)%Z.
Proof.
  intros Hw Hl [Hxw Hxl]. unfold credit. cbn [Whale.set_stats Whale.win_count
    Whale.loss_count]. rewrite !or_Z_some. lia.
Qed.

(** X12: the win rate that [get_whale_win_rate] returns is a percentage.  With
    counters that are not negative, it lies between 0 and 100 and is the
    share of the wins among the wins and losses; it is 0 for an address that
    is not tracked and for a whale with no resolved trade, where no division
    takes place.  [resolve_market_trades] keeps the counters from being
    negative. *)
Theorem whale_win_rate_is_a_percentage :
  forall (db : Database.t) (a : string),
    counters_non_negative db ->
    let wins := fst (fst (Queries.get_whale_win_rate a db)) in
    let losses := snd (fst (Queries.get_whale_win_rate a db)) in
    let rate := snd (Queries.get_whale_win_rate a db) in
    0 <= rate /\ rate <= 100
    /\ rate * inject_Z (wins + losses) == 100 * inject_Z wins
    /\ ((wins + losses)%Z = 0%Z -> rate = 0)
    /\ (Database.get_whale a db = None ->
        Queries.get_whale_win_rate a db = (0%Z, 0%Z, 0))
    /\ (forall market_id winner now db' res,
          unique_addresses db ->
          ResolutionChecker.resolve_market_trades market_id winner now db
          = Return (db', res) ->
          counters_non_negative db').
Proof.
  intros db a Hpos wins losses rate. subst wins losses rate.
  assert (Hbatch : forall market_id winner now db' res,
            unique_addresses db ->
            ResolutionChecker.resolve_market_trades market_id winner now db
            = Return (db', res) ->
            counters_non_negative db').
  { intros market_id winner now db' res Hads Hrun.
    destruct (resolve_market_trades_whales _ _ _ _ _ _ Hads Hrun) as [Hw Hres].
    unfold counters_non_negative. rewrite Hw. apply Forall_map.
    unfold counters_non_negative in Hpos.
    eapply Forall_impl; [|exact Hpos]. intros x Hx. cbv beta in *.
    destruct (mem (Whale.address x) (ResolutionChecker.whale_updates res));
      [|assumption].
    apply credit_non_negative; [| |assumption].
    - rewrite Hres, tally_updates, batch_wins. cbn. unfold wins_of. lia.
    - rewrite Hres, tally_updates, batch_losses. cbn. unfold losses_of. lia. }
  unfold Queries.get_whale_win_rate.
  destruct (Database.get_whale a db) as [x|] eqn:Hx.
  - cbn [fst snd].
    assert (Hin : In x (Database.whales db)).
    { unfold Database.get_whale in Hx. now apply find_some in Hx as [Hx _]. }
    destruct (proj1 (Forall_forall _ _) Hpos x Hin) as [Hw Hl].
    destruct (rate_bounds _ _ Hw Hl) as (H0 & H100 & Hrate).
    repeat split; try assumption; try discriminate.
    intro Hz. now rewrite Hz.
  - cbn [fst snd]. repeat split; try discriminate; try reflexivity; assumption.
Qed.

Lemma whale_win_rate_is_a_percentage_witness :
  snd (Queries.get_whale_win_rate "0xaaa" proven_db) <= 100
  /\ snd (Queries.get_whale_win_rate "0xaaa" proven_db) * inject_Z (16 + 4)
     == 100 * inject_Z 16.
Proof.
  assert (Hpos : counters_non_negative proven_db).
  { repeat constructor; discriminate. }
  destruct (whale_win_rate_is_a_percentage proven_db "0xaaa" Hpos)
    as (_ & H100 & Hrate & _).
  split; [exact H100|exact Hrate].
Defined.

(** ** The markets still open *)

Lemma settled_is_not_false (winner : string) (r : Trade.t) :
  Trade.resolved_is_false (settle winner r) = false.
Proof. reflexivity. Qed.

(** A market that [resolve_market_trades] has resolved is no longer
    among the markets that [get_unresolved_markets] lists, and a resolution
    adds no market to that list. *)
Theorem resolved_market_is_not_listed :
  forall (db db' : Database.t) (market_id winner : string) (now : Z)
         (res : ResolutionChecker.results),
    unique_trade_ids db ->
    ResolutionChecker.resolve_market_trades market_id winner now db = Return (db', res) ->
    ~ In market_id (map Market.market_id (Queries.get_unresolved_markets db'))
    /\ forall row, In row (Queries.get_unresolved_markets db') ->
                   In row (Queries.get_unresolved_markets db).
Proof.
  intros db db' market_id winner now res Hids Hrun.
  pose proof (resolve_market_trades_table _ _ _ _ _ _ Hids Hrun) as Ht.
  pose proof (resolve_market_trades_markets _ _ _ _ _ _ Hrun) as Hm.
  unfold Queries.get_unresolved_markets. rewrite Hm, Ht. split.
  - intro Hin. apply in_map_iff in Hin as (row & Hid & Hin).
    apply filter_In in Hin as [Hin Hopen]. apply andb_true_iff in Hopen as [Hopen _].
    apply in_map_iff in Hin as (row0 & Hrow & _). subst row.
    destruct (String.eqb_spec (Market.market_id row0) market_id) as [E|E].
    + discriminate Hopen.
    + contradiction.
  - intros row Hin. apply filter_In in Hin as [Hin Htest].
    apply andb_true_iff in Htest as [Hopen Hex].
    apply in_map_iff in Hin as (row0 & Hrow & Hin0).
    destruct (String.eqb_spec (Market.market_id row0) market_id) as [E|E];
      [subst row; discriminate Hopen|]. subst row0.
    apply filter_In. split; [assumption|]. rewrite Hopen. cbn [andb].
    apply existsb_exists in Hex as (t' & Ht' & Hkey).
    apply in_map_iff in Ht' as (t & Heq & Hint).
    apply existsb_exists. exists t. split; [assumption|].
    destruct (selected market_id t); subst t'; [|assumption].
    rewrite settled_is_not_false, andb_false_r in Hkey. discriminate.
Qed.

Lemma resolved_market_is_not_listed_witness :
  exists db' res,
    ResolutionChecker.resolve_market_trades "0xm1" "YES" 0 scenario_db = Return (db', res)
    /\ map Market.market_id (Queries.get_unresolved_markets scenario_db) = ["0xm1"]
    /\ ~ In "0xm1" (map Market.market_id (Queries.get_unresolved_markets db')).
Proof.
  destruct (ResolutionChecker.resolve_market_trades "0xm1" "YES" 0 scenario_db)
    as [[db' res]|e] eqn:Hrun; [|discriminate Hrun].
  exists db', res. split; [reflexivity|]. split; [reflexivity|].
  assert (Hids : unique_trade_ids scenario_db) by distinct_keys.
  exact (proj1 (resolved_market_is_not_listed scenario_db db' "0xm1" "YES" 0 res
                  Hids Hrun)).
Defined.

(** ** What the tracker records *)

Lemma trade_exists_app (w m s : string) (db db' : Database.t) (more : list Trade.t) :
  Database.trades db' = (Database.trades db ++ more)%list ->
  Database.trade_exists w m s db = true ->
  Database.trade_exists w m s db' = true.
Proof.
  unfold Database.trade_exists. intros -> H. rewrite existsb_app, H. reflexivity.
Qed.

(** One step of the loop: what it appends to the positions. *)
Lemma check_position_appends (w : string) (now : Z) (db : Database.t)
  (pos : WhaleTracker.position) :
  exists added,
    Database.trades (WhaleTracker.check_position w now db pos)
    = (Database.trades db ++ added)%list
    /\ (List.length added <= 1)%nat
    /\ Forall (fun r => recorded_as w now pos r
                        /\ WhaleTracker.pos_market_id pos <> ""
                        /\ Database.get_market (Trade.market_id r)
                             (WhaleTracker.check_position w now db pos) <> None)
              added
    /\ (WhaleTracker.pos_market_id pos <> "" ->
        Database.trade_exists w (WhaleTracker.pos_market_id pos)
          (WhaleTracker.pos_side pos) (WhaleTracker.check_position w now db pos) = true)
    /\ Database.whales (WhaleTracker.check_position w now db pos) = Database.whales db.
Proof.
  unfold WhaleTracker.check_position.
  destruct (String.eqb_spec (WhaleTracker.pos_market_id pos) "") as [E|E].
  - exists []. rewrite app_nil_r. repeat split; auto; contradiction.
  - destruct (Database.trade_exists w (WhaleTracker.pos_market_id pos)
                (WhaleTracker.pos_side pos) db) eqn:Hex.
    + exists []. rewrite app_nil_r. repeat split; auto.
    + eexists. split; [|split; [|split; [|split]]].
      * unfold Database.add_trade. cbn [fst Database.trades Database.with_trades].
        rewrite add_market_trades. reflexivity.
      * cbn. lia.
      * constructor; [|constructor]. split; [|split; [assumption|]].
        -- unfold recorded_as. cbn. repeat split; reflexivity.
        -- cbn [Trade.market_id]. unfold Database.add_trade, Database.get_market.
           cbn [fst Database.markets Database.with_trades].
           unfold Database.add_market.
           destruct (existsb _ (Database.markets db)) eqn:Hm; cbn [fst].
           ++ apply existsb_exists in Hm as (row & Hin & Hrow).
              intro Hnone. eapply find_none in Hnone; [|exact Hin].
              cbv beta in Hnone. congruence.
           ++ cbn [Database.markets Database.with_markets]. intro Hnone.
              eapply find_none in Hnone; [|apply in_or_app; right; left; reflexivity].
              cbn in Hnone. rewrite String.eqb_refl in Hnone. discriminate.
      * intros _. unfold Database.trade_exists, Database.add_trade.
        cbn [fst Database.trades Database.with_trades].
        rewrite existsb_app. cbn. rewrite !String.eqb_refl. cbn.
        now rewrite orb_true_r.
      * unfold Database.add_trade, Database.add_market.
        destruct (existsb _ (Database.markets db)); reflexivity.
Qed.

Lemma check_positions_loop (w : string) (now : Z) (l : list WhaleTracker.position) :
  forall db : Database.t,
    let db' := fold_left (WhaleTracker.check_position w now) l db in
    exists added,
      Database.trades db' = (Database.trades db ++ added)%list
      /\ (List.length added <= List.length l)%nat
      /\ Forall (fun r => (exists pos, In pos l
                                       /\ WhaleTracker.pos_market_id pos <> ""
                                       /\ recorded_as w now pos r)
                          /\ Database.get_market (Trade.market_id r) db' <> None)
                added
      /\ (forall pos, In pos l -> WhaleTracker.pos_market_id pos <> "" ->
            Database.trade_exists w (WhaleTracker.pos_market_id pos)
              (WhaleTracker.pos_side pos) db' = true)
      /\ Database.whales db' = Database.whales db.
Proof.
  induction l as [|pos l IH]; intro db; cbn [fold_left]; cbv zeta.
  - exists []. rewrite app_nil_r. repeat split; auto; intros pos [].
  - destruct (check_position_appends w now db pos)
      as (first & Ht1 & Hlen1 & Hall1 & Hex1 & Hw1).
    destruct (IH (WhaleTracker.check_position w now db pos))
      as (rest & Ht & Hlen & Hall & Hex & Hw).
    cbv zeta in *.
    exists (first ++ rest)%list. split; [|split; [|split; [|split]]].
    + rewrite Ht, Ht1. now rewrite app_assoc.
    + rewrite length_app. cbn [List.length]. lia.
    + apply Forall_app. split.
      * eapply Forall_impl; [|exact Hall1]. intros r (Hrec & Hne & Hmk). split.
        -- exists pos. split; [now left|]. split; assumption.
        -- destruct (Database.get_market (Trade.market_id r)
                       (WhaleTracker.check_position w now db pos)) as [row|] eqn:Hrow;
             [|contradiction].
           change (fold_left (WhaleTracker.check_position w now) l
                             (WhaleTracker.check_position w now db pos))
             with (WhaleTracker.check_whale_positions w now (Return l)
                     (WhaleTracker.check_position w now db pos)).
           rewrite (check_whale_positions_market _ _ _ _ _ _ Hrow). discriminate.
      * eapply Forall_impl; [|exact Hall]. intros r ((p & Hin & Hp) & Hmk). split.
        -- exists p. split; [now right|assumption].
        -- assumption.
    + intros p [<-|Hin] Hne.
      * eapply trade_exists_app; [exact Ht|]. now apply Hex1.
      * now apply Hex.
    + congruence.
Qed.


(** ** The legacy path: [Database.resolve_trades_by_market] *)

Lemma trade_result_complete (resolution : string) (r : Trade.t) :
  complete r ->
  Database.trade_result resolution r
  = Return (legacy_outcome resolution r, legacy_pnl resolution r).
Proof.
  intros (Hside & Hsize & Hprice).
  unfold Database.trade_result, legacy_outcome, legacy_pnl, legacy_won.
  destruct (Trade.side r) as [s|]; [|contradiction].
  destruct (Trade.size r) as [size|]; [|contradiction].
  destruct (Trade.entry_price r) as [price|]; [|contradiction].
  assert (E : upper (or_str (Some s) "") = upper s).
  { cbn [or_str]. destruct (String.eqb_spec s ""); [now subst|reflexivity]. }
  rewrite E. cbn [number].
  now destruct ((upper s =? "YES")%string && (resolution =? "YES")%string
                || (upper s =? "NO")%string && (resolution =? "NO")%string).
Qed.

Lemma bumped_zero (x : Whale.t) : bumped 0 0 x = x.
Proof.
  destruct x as [a v [w|] [l|]]; unfold bumped; cbn; rewrite ?Z.add_0_r; reflexivity.
Qed.

Lemma bumped_twice (n1 l1 n2 l2 : Z) (x : Whale.t) :
  bumped n2 l2 (bumped n1 l1 x) = bumped (n1 + n2) (l1 + l2) x.
Proof.
  destruct x as [a v [w|] [l|]]; unfold bumped; cbn; rewrite ?Z.add_assoc; reflexivity.
Qed.

(** The counter update of one trade, seen through [get_whale]. *)
Lemma bump_whale_returns (a o : string) (db : Database.t) :
  counted db ->
  exists db',
    Database.bump_whale a o db = Return db'
    /\ Database.trades db' = Database.trades db
    /\ Database.markets db' = Database.markets db
    /\ counted db'
    /\ forall b,
         Database.get_whale b db'
         = option_map (fun x => if (b =? a)%string
                                then (if (o =? "WIN")%string
                                      then bumped 1 0 x else bumped 0 1 x)
                                else x)
                      (Database.get_whale b db).
Proof.
  intro Hc. unfold Database.bump_whale.
  destruct (Database.get_whale a db) as [whale|] eqn:Hw.
  - assert (Hin : In whale (Database.whales db)).
    { unfold Database.get_whale in Hw. now apply find_some in Hw as [Hw _]. }
    assert (Ha : Whale.address whale = a).
    { unfold Database.get_whale in Hw. apply find_some in Hw as [_ Hw].
      now apply String.eqb_eq. }
    destruct (proj1 (Forall_forall _ _) Hc whale Hin) as [Hwc Hlc].
    destruct (Whale.win_count whale) as [w|] eqn:Ew; [|contradiction].
    destruct (Whale.loss_count whale) as [l|] eqn:El; [|contradiction].
    assert (Hstep : forall nw nl,
              let db' := Database.update_whale_stats a (Some nw) (Some nl) db in
              Database.trades db' = Database.trades db
              /\ Database.markets db' = Database.markets db
              /\ counted db'
              /\ forall b,
                   Database.get_whale b db'
                   = option_map (fun x => if (b =? a)%string
                                          then Whale.set_stats x (Some nw) (Some nl) else x)
                                (Database.get_whale b db)).
    { intros nw nl db'. subst db'. unfold Database.update_whale_stats. cbn.
      repeat split.
      - unfold counted. cbn. apply Forall_map.
        unfold counted in Hc. eapply Forall_impl; [|exact Hc]. intros x Hx. cbv beta.
        destruct (Whale.address x =? a)%string; [cbn; split; discriminate|assumption].
      - intro b. unfold Database.get_whale. cbn. rewrite find_map_preserving.
        + destruct (find _ (Database.whales db)) as [x|] eqn:Hx; cbn; [|reflexivity].
          apply find_some in Hx as [_ Hx]. apply String.eqb_eq in Hx. subst b.
          reflexivity.
        + intro x. now destruct (Whale.address x =? a)%string. }
    assert (Hsame : forall b x nw nl,
              Database.get_whale b db = Some x ->
              (if (b =? a)%string then Whale.set_stats x (Some (w + nw)%Z) (Some (l + nl)%Z)
               else x)
              = (if (b =? a)%string then bumped nw nl x else x)).
    { intros b x nw nl Hx. destruct (String.eqb_spec b a) as [->|]; [|reflexivity].
      rewrite Hw in Hx. injection Hx as <-. unfold bumped, Whale.set_stats.
      now rewrite Ew, El. }
    destruct (o =? "WIN")%string.
    + eexists. split; [reflexivity|].
      destruct (Hstep (w + 1)%Z l) as (Ht & Hm & Hc' & Hget). cbv zeta in *.
      repeat split; auto. intro b. rewrite Hget.
      destruct (Database.get_whale b db) as [x|] eqn:Hx; cbn [option_map]; [|reflexivity].
      f_equal. rewrite <- (Z.add_0_r l) at 1. now apply Hsame.
    + eexists. split; [reflexivity|].
      destruct (Hstep w (l + 1)%Z) as (Ht & Hm & Hc' & Hget). cbv zeta in *.
      repeat split; auto. intro b. rewrite Hget.
      destruct (Database.get_whale b db) as [x|] eqn:Hx; cbn [option_map]; [|reflexivity].
      f_equal. rewrite <- (Z.add_0_r w) at 1. now apply Hsame.
  - exists db. repeat split; auto. intro b.
    destruct (Database.get_whale b db) as [x|] eqn:Hx; cbn [option_map]; [|reflexivity].
    destruct (String.eqb_spec b a) as [->|]; [congruence|reflexivity].
Qed.

Lemma legacy_count_step (resolution a : string) (t : Trade.t) (l : list Trade.t) :
  legacy_wins resolution a (t :: l)
  = ((if ((Trade.whale_address t =? a)%string && legacy_won resolution t)%bool
      then 1 else 0) + legacy_wins resolution a l)%Z
  /\ legacy_losses resolution a (t :: l)
     = ((if ((Trade.whale_address t =? a)%string && negb (legacy_won resolution t))%bool
         then 1 else 0) + legacy_losses resolution a l)%Z.
Proof.
  unfold legacy_wins, legacy_losses, held_by. cbn [filter].
  destruct (Trade.whale_address t =? a)%string; cbn [andb filter]; [|lia].
  destruct (legacy_won resolution t); cbn [negb List.length]; lia.
Qed.

(** The loop over the fetched rows. *)
Lemma resolve_fetched_returns (resolution : string) (l : list Trade.t) :
  forall db : Database.t,
    Forall complete l ->
    counted db ->
    exists db',
      Database.resolve_fetched resolution l db = (db', None)
      /\ Database.trades db'
         = map (fun r => fold_left (fun r t => legacy_write resolution t r) l r)
               (Database.trades db)
      /\ Database.markets db' = Database.markets db
      /\ counted db'
      /\ forall a,
           Database.get_whale a db'
           = option_map (bumped (legacy_wins resolution a l) (legacy_losses resolution a l))
                        (Database.get_whale a db).
Proof.
  induction l as [|t l IH]; intros db Hl Hc; cbn [Database.resolve_fetched fold_left].
  - exists db. repeat split; auto.
    + now rewrite map_id.
    + intro a. destruct (Database.get_whale a db); cbn; [|reflexivity].
      now rewrite bumped_zero.
  - inversion Hl as [|? ? Ht Hl']; subst.
    rewrite (trade_result_complete _ _ Ht).
    destruct (bump_whale_returns (Trade.whale_address t) (legacy_outcome resolution t)
                (Database.resolve_trade (Trade.id t) (legacy_outcome resolution t)
                   (legacy_pnl resolution t) db))
      as (db2 & Hbump & Ht2 & Hm2 & Hc2 & Hget2); [exact Hc|].
    rewrite Hbump.
    destruct (IH db2 Hl' Hc2) as (db' & Hrun & Htr & Hm & Hc' & Hget).
    exists db'. split; [exact Hrun|]. repeat split; auto.
    + rewrite Htr, Ht2. cbn. now rewrite map_map.
    + now rewrite Hm, Hm2.
    + intro a. rewrite Hget, Hget2.
      change (Database.get_whale a (Database.resolve_trade _ _ _ db))
        with (Database.get_whale a db).
      destruct (Database.get_whale a db) as [x|]; cbn [option_map]; [|reflexivity].
      f_equal. destruct (legacy_count_step resolution a t l) as [-> ->].
      rewrite (String.eqb_sym a).
      unfold legacy_outcome.
      destruct (Trade.whale_address t =? a)%string; cbn [andb].
      * destruct (legacy_won resolution t); cbn [negb String.eqb Ascii.eqb Bool.eqb];
          now rewrite bumped_twice.
      * now rewrite Z.add_0_l.
Qed.

Lemma legacy_writes_on_table (resolution market_id : string) (ts : list Trade.t) :
  NoDup (map Trade.id ts) ->
  map (fun r => fold_left (fun r t => legacy_write resolution t r)
                          (filter (fetched_by_market market_id) ts) r) ts
  = map (fun r => if fetched_by_market market_id r
                  then legacy_settle resolution r else r) ts.
Proof.
  assert (Hskip : forall l r,
            ~ In (Trade.id r) (map Trade.id l) ->
            fold_left (fun r t => legacy_write resolution t r) l r = r).
  { induction l as [|t l IH]; intros r Hnotin; cbn [fold_left]; [reflexivity|].
    cbn in Hnotin. unfold legacy_write at 2.
    destruct (Z.eqb_spec (Trade.id r) (Trade.id t)) as [E|E].
    - exfalso. apply Hnotin. left. now symmetry.
    - apply IH. tauto. }
  assert (Hset : forall l r,
            NoDup (map Trade.id l) -> In r l ->
            fold_left (fun r t => legacy_write resolution t r) l r
            = legacy_settle resolution r).
  { induction l as [|t l IH]; cbn [fold_left]; intros r Hnd Hin; [contradiction|].
    inversion Hnd as [|? ? Hnotin Hnd']; subst. destruct Hin as [->|Hin].
    - unfold legacy_write at 2. rewrite Z.eqb_refl. now apply Hskip.
    - unfold legacy_write at 2.
      destruct (Z.eqb_spec (Trade.id r) (Trade.id t)) as [E|E].
      + exfalso. apply Hnotin. rewrite <- E. now apply in_map.
      + now apply IH. }
  intro Hnd. apply map_ext_in. intros r Hr.
  destruct (fetched_by_market market_id r) eqn:Hsel.
  - apply Hset; [now apply selection_ids_unique|]. apply filter_In. now split.
  - apply Hskip. intro Hin. apply in_map_iff in Hin as (t & Hid & Ht).
    apply filter_In in Ht as [Ht Hselt].
    assert (t = r) by (eapply NoDup_map_eq; eauto). subst. congruence.
Qed.

(** X14: the legacy path [Database.resolve_trades_by_market].  When the
    fetched rows (those of the market with [resolved = FALSE]) have a side,
    a size and an entry price and the whales have counters, the call does
    not fail; each fetched row is stored resolved, as a WIN when its side in
    upper case is YES or NO and equals the resolution, as a LOSS otherwise,
    with pnl [size * (1 - entry_price)] for a win and [- size * entry_price]
    for a loss; no other row changes; each whale gets one more win or loss
    for each of its rows; the markets are not written. *)
Theorem resolve_trades_by_market_settles :
  forall (db : Database.t) (market_id resolution : string),
    unique_trade_ids db ->
    (forall r, In r (Database.trades db) -> fetched_by_market market_id r = true ->
               complete r) ->
    counted db ->
    let fetched := filter (fetched_by_market market_id) (Database.trades db) in
    exists db',
      Database.resolve_trades_by_market market_id resolution db = (db', None)
      /\ Database.trades db'
         = map (fun r => if fetched_by_market market_id r
                         then legacy_settle resolution r else r)
               (Database.trades db)
      /\ Database.markets db' = Database.markets db
      /\ forall a,
           Database.get_whale a db'
           = option_map (bumped (legacy_wins resolution a fetched)
                                (legacy_losses resolution a fetched))
                        (Database.get_whale a db).
Proof.
  intros db market_id resolution Hids Hcomplete Hc fetched.
  unfold Database.resolve_trades_by_market.
  change (fun r : Trade.t => ((Trade.market_id r =? market_id)%string
                              && Trade.resolved_is_false r)%bool)
    with (fetched_by_market market_id).
  fold fetched.
  destruct (resolve_fetched_returns resolution fetched db) as (db' & Hrun & Ht & Hm & _ & Hw).
  - apply Forall_forall. intros r Hr. apply filter_In in Hr as [Hr Hsel]. auto.
  - exact Hc.
  - exists db'. split; [exact Hrun|]. split; [|split; [exact Hm|exact Hw]].
    rewrite Ht. now apply legacy_writes_on_table.
Qed.

Lemma resolve_trades_by_market_settles_witness :
  exists db',
    Database.resolve_trades_by_market "0xm1" "YES" even_db = (db', None)
    /\ map Trade.outcome (Database.trades db') = [Some "WIN"; Some "LOSS"]
    /\ map Trade.pnl (Database.trades db') = [Some (100 * (1 - (1 # 2)));
                                              Some ((- (100)) * (1 # 2))].
Proof.
  destruct (resolve_trades_by_market_settles even_db "0xm1" "YES")
    as (db' & Hrun & Ht & _).
  - distinct_keys.
  - intros r [<-|[<-|[]]] _; repeat split; discriminate.
  - repeat constructor; discriminate.
  - exists db'. split; [exact Hrun|]. rewrite Ht. split; reflexivity.
Defined.

(** X15: the two resolution paths agree on the outcome of a position and
    differ on its pnl by the entry price.  For a resolution YES or NO and a
    position with a side, a size and a positive entry price, the legacy path
    gives the outcome that [resolve_market_trades] stores, and a pnl that is
    the pnl [resolve_market_trades] stores multiplied by the entry price. *)
Theorem legacy_pnl_is_scaled_by_entry_price :
  forall (resolution s : string) (size price : Q) (r : Trade.t),
    resolution = "YES" \/ resolution = "NO" ->
    Trade.side r = Some s ->
    Trade.size r = Some size ->
    Trade.entry_price r = Some price ->
    0 < price ->
    exists o p,
      Database.trade_result resolution r = Return (o, p)
      /\ o = outcome_value resolution r
      /\ p == price * pnl_value resolution r
      /\ (o = "WIN" -> p == size * (1 - price) /\ pnl_value resolution r == size / price - size)
      /\ (o = "LOSS" -> p == - size * price /\ pnl_value resolution r == - size).
Proof.
  intros resolution s size price r Hres Hside Hsize Hprice Hpos.
  assert (Hc : complete r).
  { unfold complete. rewrite Hside, Hsize, Hprice. repeat split; discriminate. }
  rewrite (trade_result_complete _ _ Hc). eexists. eexists. split; [reflexivity|].
  assert (Hwon : legacy_won resolution r = won resolution r).
  { unfold legacy_won, won, side_read.
    destruct Hres as [-> | ->]; cbn [String.eqb Ascii.eqb Bool.eqb andb];
      rewrite ?andb_true_r, ?andb_false_r, ?orb_false_r; reflexivity. }
  unfold legacy_outcome, legacy_pnl, outcome_value. rewrite Hwon.
  rewrite Hsize, Hprice. cbn [number].
  destruct (won resolution r) eqn:Hw.
  - assert (Hv : pnl_value resolution r == size / price - size).
    { apply pnl_value_win; auto. unfold won in Hw. now apply String.eqb_eq. }
    split; [reflexivity|]. split; [|split].
    + rewrite Hv. field. intro E. rewrite E in Hpos. exact (Qlt_irrefl 0 Hpos).
    + intros _. split; [reflexivity|exact Hv].
    + discriminate.
  - assert (Hv : pnl_value resolution r == - size).
    { apply pnl_value_loss; auto. unfold won in Hw. now apply String.eqb_neq. }
    split; [reflexivity|]. split; [|split].
    + rewrite Hv. ring.
    + discriminate.
    + intros _. split; [ring|exact Hv].
Qed.

Lemma legacy_pnl_is_scaled_by_entry_price_witness :
  exists o p,
    Database.trade_result "YES" scenario_yes = Return (o, p)
    /\ o = "WIN"
    /\ p == (4 # 10) * pnl_value "YES" scenario_yes.
Proof.
  destruct (legacy_pnl_is_scaled_by_entry_price "YES" "YES" 100 (4 # 10) scenario_yes)
    as (o & p & Hrun & Ho & Hp & _); try reflexivity; [now left|].
  exists o, p. split; [exact Hrun|]. split; [rewrite Ho; reflexivity|exact Hp].
Defined.

(** ** Rounding *)

Lemma round_half_even_floor (y : Q) :
  round_half_even y = Qfloor y \/ round_half_even y = (Qfloor y + 1)%Z.
Proof.
  unfold round_half_even.
  destruct (Qlt_bool (y - inject_Z (Qfloor y)) (1 # 2)); [now left|].
  destruct (Qlt_bool (1 # 2) (y - inject_Z (Qfloor y))); [now right|].
  destruct (Z.even (Qfloor y)); [now left|now right].
Qed.

Lemma round_half_even_ge (y : Q) (n : Z) :
  inject_Z n <= y -> (n <= round_half_even y)%Z.
Proof.
  intro H. apply Qfloor_resp_le in H. rewrite Qfloor_Z in H.
  destruct (round_half_even_floor y) as [-> | ->]; lia.
Qed.


Lemma round_half_even_close (y : Q) :
  Qabs (inject_Z (round_half_even y) - y) <= 1 # 2.
Proof.
  pose proof (Qfloor_le y) as Hlo. pose proof (Qlt_floor y) as Hhi.
  rewrite inject_Z_plus in Hhi. change (inject_Z 1) with 1 in Hhi.
  apply Qabs_Qle_condition. unfold round_half_even.
  destruct (Qlt_bool (y - inject_Z (Qfloor y)) (1 # 2)) eqn:E1.
  - apply Qlt_bool_iff in E1. split; lra.
  - apply Qlt_bool_false_iff in E1.
    assert (H1 : inject_Z (Qfloor y + 1) == inject_Z (Qfloor y) + 1).
    { rewrite inject_Z_plus. reflexivity. }
    destruct (Qlt_bool (1 # 2) (y - inject_Z (Qfloor y))) eqn:E2.
    + rewrite H1. split; lra.
    + apply Qlt_bool_false_iff in E2.
      destruct (Z.even (Qfloor y)); [|rewrite H1]; split; lra.
Qed.

Lemma round_scaled (x : Q) (d : nat) :
  round x d == inject_Z (round_half_even (x * inject_Z (10 ^ Z.of_nat d)))
               / inject_Z (10 ^ Z.of_nat d).
Proof.
  unfold round. rewrite Qmake_Qdiv.
  assert (H : (0 < 10 ^ Z.of_nat d)%Z) by (apply Z.pow_pos_nonneg; lia).
  now rewrite Z2Pos.id.
Qed.

Lemma scale_positive (d : nat) : 0 < inject_Z (10 ^ Z.of_nat d).
Proof.
  change 0 with (inject_Z 0). rewrite <- Zlt_Qlt. apply Z.pow_pos_nonneg; lia.
Qed.

(** Rounding is monotone across whole numbers. *)
Lemma round_ge (x : Q) (d : nat) (k : Z) :
  inject_Z k <= x -> inject_Z k <= round x d.
Proof.
  intro H. rewrite round_scaled. pose proof (scale_positive d) as Hs.
  apply Qle_shift_div_l; [assumption|].
  rewrite <- inject_Z_mult, <- Zle_Qle. apply round_half_even_ge.
  rewrite inject_Z_mult. nra.
Qed.


(** Rounding moves a number by half a unit of the last digit at most. *)
Lemma round_close (x : Q) (d : nat) :
  Qabs (round x d - x) <= (1 # 2) / inject_Z (10 ^ Z.of_nat d).
Proof.
  rewrite round_scaled. pose proof (scale_positive d) as Hs.
  set (s := inject_Z (10 ^ Z.of_nat d)) in *.
  pose proof (round_half_even_close (x * s)) as Hc.
  apply Qabs_Qle_condition in Hc as [Hlo Hhi].
  assert (Hne : ~ s == 0) by (intro E; rewrite E in Hs; exact (Qlt_irrefl 0 Hs)).
  assert (Ha : inject_Z (round_half_even (x * s)) / s * s
               == inject_Z (round_half_even (x * s))) by (field; exact Hne).
  assert (Hh : (1 # 2) / s * s == 1 # 2) by (field; exact Hne).
  revert Ha Hh Hlo Hhi.
  generalize (inject_Z (round_half_even (x * s)) / s) as a.
  generalize ((1 # 2) / s) as h.
  generalize (inject_Z (round_half_even (x * s))) as R.
  intros R h a Ha Hh Hlo Hhi.
  apply Qabs_Qle_condition. split; nra.
Qed.

(** ** The drawdown *)

Lemma app_snoc_cases {A : Type} (a b p : list A) (x : A) :
  (a ++ b)%list = (p ++ [x])%list ->
  (b = [] /\ a = (p ++ [x])%list) \/ exists b', b = (b' ++ [x])%list /\ (a ++ b')%list = p.
Proof.
  intro H. destruct b as [|y b] using rev_ind.
  - left. rewrite app_nil_r in H. now split.
  - right. rewrite app_assoc in H. apply app_inj_tail in H as [H ->].
    exists b. now split.
Qed.

Lemma run_total_app (a b : list Q) : run_total (a ++ b) == run_total a + run_total b.
Proof.
  unfold run_total. induction a as [|x a IH]; cbn [app fold_right]; [ring|].
  rewrite IH. ring.
Qed.

(** What the loop has computed after the pnls [l]. *)
Lemma drawdown_loop (l : list Q) :
  let st := fold_left PerformanceDetails.step l (PerformanceDetails.mk_state 0 0 0) in
  PerformanceDetails.running_pnl st == run_total l
  /\ (forall a b, l = (a ++ b)%list -> run_total a <= PerformanceDetails.peak st)
  /\ (exists a b, l = (a ++ b)%list /\ PerformanceDetails.peak st == run_total a)
  /\ (forall a b c, l = (a ++ b ++ c)%list ->
                    - run_total b <= PerformanceDetails.max_drawdown st)
  /\ (exists a b c, l = (a ++ b ++ c)%list
                    /\ PerformanceDetails.max_drawdown st == - run_total b).
Proof.
  induction l as [|x l IH] using rev_ind; cbv zeta.
  - cbn [fold_left PerformanceDetails.running_pnl PerformanceDetails.peak
         PerformanceDetails.max_drawdown]. repeat split.
    + intros a b H. symmetry in H. apply app_eq_nil in H as [-> _]. cbn. lra.
    + exists [], []. split; reflexivity.
    + intros a b c H. symmetry in H. apply app_eq_nil in H as [_ H].
      apply app_eq_nil in H as [-> _]. cbn. lra.
    + exists [], [], []. split; reflexivity.
  - rewrite fold_left_app. cbn [fold_left]. cbv zeta in IH.
    destruct IH as (Hrun & Hpeak & (pa & pb & Hpl & Hpv) & Hmax & (ma & mb & mc & Hml & Hmv)).
    set (st := fold_left PerformanceDetails.step l (PerformanceDetails.mk_state 0 0 0)) in *.
    unfold PerformanceDetails.step.
    cbn [PerformanceDetails.running_pnl PerformanceDetails.peak
         PerformanceDetails.max_drawdown].
    assert (Hrun' : PerformanceDetails.running_pnl st + x == run_total (l ++ [x])).
    { rewrite run_total_app, Hrun. cbn. ring. }
    assert (Hpeak' : forall a b, (l ++ [x])%list = (a ++ b)%list ->
              run_total a
              <= (if Qlt_bool (PerformanceDetails.peak st)
                              (PerformanceDetails.running_pnl st + x)
                  then PerformanceDetails.running_pnl st + x
                  else PerformanceDetails.peak st)).
    { intros a b H. symmetry in H. apply app_snoc_cases in H as [[_ ->]|(b' & _ & H)].
      - destruct (Qlt_bool _ _) eqn:E; [lra|]. apply Qlt_bool_false_iff in E. lra.
      - specialize (Hpeak a b' (eq_sym H)).
        destruct (Qlt_bool _ _) eqn:E; [|exact Hpeak]. apply Qlt_bool_iff in E. lra. }
    split; [exact Hrun'|]. split; [exact Hpeak'|]. split; [|split].
    + destruct (Qlt_bool (PerformanceDetails.peak st)
                         (PerformanceDetails.running_pnl st + x)).
      * exists (l ++ [x])%list, []. split; [now rewrite app_nil_r|exact Hrun'].
      * exists pa, (pb ++ [x])%list. split; [|exact Hpv].
        now rewrite Hpl, app_assoc.
    + intros a b c H. symmetry in H. rewrite app_assoc in H.
      apply app_snoc_cases in H as [[-> H]|(c' & _ & H)].
      * specialize (Hpeak' a b (eq_sym H)). rewrite <- H, run_total_app in Hrun'.
        destruct (Qlt_bool (PerformanceDetails.max_drawdown st) _) eqn:E.
        -- lra.
        -- apply Qlt_bool_false_iff in E. lra.
      * rewrite <- app_assoc in H. specialize (Hmax a b c' (eq_sym H)).
        destruct (Qlt_bool (PerformanceDetails.max_drawdown st) _) eqn:E;
          [|exact Hmax]. apply Qlt_bool_iff in E. lra.
    + destruct (Qlt_bool (PerformanceDetails.max_drawdown st) _).
      * destruct (Qlt_bool (PerformanceDetails.peak st)
                           (PerformanceDetails.running_pnl st + x)).
        -- exists (l ++ [x])%list, [], []. split; [now rewrite !app_nil_r|].
           cbn. lra.
        -- exists pa, (pb ++ [x])%list, []. split.
           ++ now rewrite app_nil_r, Hpl, app_assoc.
           ++ assert (E1 : run_total (pb ++ [x]) == run_total pb + x)
                by (rewrite run_total_app; cbn; ring).
              assert (E2 : run_total (l ++ [x]) == run_total pa + run_total pb + x)
                by (rewrite Hpl, !run_total_app; cbn; ring).
              lra.
      * exists ma, mb, (mc ++ [x])%list. split; [|exact Hmv].
        now rewrite Hml, !app_assoc.
Qed.

(** X16: the maximum drawdown of [get_whale_performance] is the largest loss
    over a run of consecutive trades.  It is never negative, no run of
    consecutive trades of the whale loses more, and one run (an empty one
    when the drawdown is 0) loses exactly that much.  The figure in the dict
    is this value rounded to two digits, within 0.005 of it. *)
Theorem drawdown_is_the_largest_run_of_losses :
  forall (trades : list PerformanceAnalyzer.row),
    let pnls := map PerformanceAnalyzer.row_pnl trades in
    0 <= PerformanceDetails.drawdown trades
    /\ (forall a b c, pnls = (a ++ b ++ c)%list ->
                      - run_total b <= PerformanceDetails.drawdown trades)
    /\ (exists a b c, pnls = (a ++ b ++ c)%list
                      /\ PerformanceDetails.drawdown trades == - run_total b)
    /\ ((forall p, In p pnls -> 0 <= p) -> PerformanceDetails.drawdown trades == 0)
    /\ 0 <= PerformanceDetails.reported_drawdown trades
    /\ Qabs (PerformanceDetails.reported_drawdown trades - PerformanceDetails.drawdown trades)
       <= 5 # 1000.
Proof.
  intros trades pnls. unfold PerformanceDetails.drawdown. fold pnls.
  destruct (drawdown_loop pnls) as (_ & _ & _ & Hmax & (a & b & c & Hl & Hv)).
  cbv zeta in *.
  assert (H0 : 0 <= PerformanceDetails.max_drawdown
                      (fold_left PerformanceDetails.step pnls
                                 (PerformanceDetails.mk_state 0 0 0))).
  { specialize (Hmax [] [] pnls eq_refl). cbn in Hmax. lra. }
  split; [exact H0|]. split; [exact Hmax|]. split; [now exists a, b, c|].
  split; [|split].
  - intro Hpos. apply Qle_antisym; [|exact H0]. rewrite Hv.
    assert (Hb : forall l, (forall p, In p l -> 0 <= p) -> 0 <= run_total l).
    { induction l as [|p l IH]; intro H; cbn; [lra|].
      assert (0 <= p) by (apply H; now left).
      assert (0 <= run_total l) by (apply IH; intros q Hq; apply H; now right).
      unfold run_total in *. lra. }
    assert (0 <= run_total b).
    { apply Hb. intros p Hp. apply Hpos. rewrite Hl.
      apply in_or_app. right. apply in_or_app. now left. }
    lra.
  - unfold PerformanceDetails.reported_drawdown, PerformanceDetails.drawdown. fold pnls.
    now apply (round_ge _ 2 0).
  - unfold PerformanceDetails.reported_drawdown.
    pose proof (round_close (PerformanceDetails.drawdown trades) 2) as H.
    unfold PerformanceDetails.drawdown in H. fold pnls in H.
    eapply Qle_trans; [exact H|]. vm_compute. discriminate.
Qed.

(** ** The metrics of a whale *)

Lemma sum_from (l : list Q) (acc : Q) : fold_left Qplus l acc == acc + run_total l.
Proof.
  revert acc. induction l as [|x l IH]; intro acc; cbn [fold_left run_total fold_right].
  - ring.
  - rewrite IH. unfold run_total. ring.
Qed.







(** ** The ranks *)

(** A descending sort leaves a list in descending order as it is. *)
Lemma sort_desc_sorted_id {A : Type} (lt : A -> A -> bool) (l : list A) :
  StronglySorted (not_below lt) l -> sort_desc lt l = l.
Proof.
  unfold sort_desc. induction 1 as [|x l Hs IH Hx]; cbn [fold_right]; [reflexivity|].
  rewrite IH. destruct l as [|y l]; [reflexivity|]. cbn [insert_desc].
  inversion Hx as [|? ? Hxy _]; subst. unfold not_below in Hxy. now rewrite Hxy.
Qed.

Lemma add_ranks_ranks (i : Z) (l : list PerformanceAnalyzer.performance) :
  map PerformanceAnalyzer.rank (PerformanceAnalyzer.add_ranks i l)
  = map (fun k => Some (i + Z.of_nat k)%Z) (seq 1 (List.length l)).
Proof.
  revert i. induction l as [|w l IH]; intro i; cbn [PerformanceAnalyzer.add_ranks map
    List.length seq]; [reflexivity|].
  cbn [PerformanceAnalyzer.rank PerformanceAnalyzer.set_rank]. f_equal.
  rewrite IH, <- (seq_shift (List.length l) 1), map_map. apply map_ext. intro k.
  f_equal. lia.
Qed.

Lemma add_ranks_length (i : Z) (l : list PerformanceAnalyzer.performance) :
  List.length (PerformanceAnalyzer.add_ranks i l) = List.length l.
Proof.
  revert i. induction l as [|w l IH]; intro i; cbn; [reflexivity|]. now rewrite IH.
Qed.

Lemma add_ranks_twice (i : Z) (l : list PerformanceAnalyzer.performance) :
  PerformanceAnalyzer.add_ranks i (PerformanceAnalyzer.add_ranks i l)
  = PerformanceAnalyzer.add_ranks i l.
Proof.
  revert i. induction l as [|w l IH]; intro i; cbn [PerformanceAnalyzer.add_ranks];
    [reflexivity|].
  now rewrite IH.
Qed.

Lemma add_ranks_descending (i : Z) (l : list PerformanceAnalyzer.performance) :
  StronglySorted (not_below (fun a b => Qlt_bool (PerformanceAnalyzer.score a)
                                                 (PerformanceAnalyzer.score b))) l ->
  StronglySorted (not_below (fun a b => Qlt_bool (PerformanceAnalyzer.score a)
                                                 (PerformanceAnalyzer.score b)))
                 (PerformanceAnalyzer.add_ranks i l).
Proof.
  intro H. revert i. induction H as [|w l Hs IH Hw]; intro i;
    cbn [PerformanceAnalyzer.add_ranks]; constructor.
  - apply IH.
  - apply add_ranks_Forall; [|exact Hw]. intros x r s Hx. exact Hx.
Qed.

(** X18: [rank_whales] numbers the whales 1, 2, 3, ... in the order of the
    list it returns, keeps their number, stores with each whale its score
    rounded to two digits, and ranking a ranked list again changes
    nothing. *)
Theorem rank_whales_numbers_the_whales :
  forall (l : list PerformanceAnalyzer.performance),
    map PerformanceAnalyzer.rank (PerformanceAnalyzer.rank_whales l)
    = map (fun k => Some (Z.of_nat k)) (seq 1 (List.length l))
    /\ List.length (PerformanceAnalyzer.rank_whales l) = List.length l
    /\ Forall (fun w => PerformanceAnalyzer.ranking_score w
                        = Some (round (PerformanceAnalyzer.score w) 2))
              (PerformanceAnalyzer.rank_whales l)
    /\ PerformanceAnalyzer.rank_whales (PerformanceAnalyzer.rank_whales l)
       = PerformanceAnalyzer.rank_whales l.
Proof.
  intro l. unfold PerformanceAnalyzer.rank_whales.
  set (lt := fun a b => Qlt_bool (PerformanceAnalyzer.score a) (PerformanceAnalyzer.score b)).
  assert (Hlen : List.length (sort_desc lt l) = List.length l).
  { apply Permutation_length, sort_desc_perm. }
  split; [|split; [|split]].
  - rewrite add_ranks_ranks, Hlen. apply map_ext. intro k. f_equal.
  - now rewrite add_ranks_length.
  - clear Hlen. generalize 0%Z. induction (sort_desc lt l) as [|w ws IH]; intro i;
      cbn [PerformanceAnalyzer.add_ranks]; constructor; [reflexivity|apply IH].
  - rewrite sort_desc_sorted_id; [apply add_ranks_twice|].
    apply add_ranks_descending. apply sort_desc_sorted.
    + intros x y. apply score_lt_asym.
    + intros x y z. apply score_ge_trans.
Qed.

(** ** The qualified whales *)











(** ** The proven whales *)


Lemma proven_whale_thresholds (db : Database.t) (w : TradeSignalsGenerator.whale) :
  In w (TradeSignalsGenerator.get_proven_whales db) ->
  exists x,
    In x (Database.whales db)
    /\ TradeSignalsGenerator.address w = Whale.address x
    /\ TradeSignalsGenerator.resolved_trades w
       = TradeSignalsGenerator.count_rows TradeSignalsGenerator.is_resolved
           (filter (fun r => (Trade.whale_address r =? Whale.address x)%string)
                   (Database.trades db))
    /\ (TradeSignalsGenerator.MIN_RESOLVED_TRADES
        <= TradeSignalsGenerator.resolved_trades w)%Z
    /\ TradeSignalsGenerator.MIN_WIN_RATE <= TradeSignalsGenerator.win_rate w
    /\ TradeSignalsGenerator.MIN_ROI <= TradeSignalsGenerator.roi w.
Proof.
  intro Hin. unfold TradeSignalsGenerator.get_proven_whales in Hin.
  apply (Permutation_in _ (sort_desc_perm _ _)) in Hin.
  apply in_flat_map in Hin as (x & Hx & Hw). exists x. split; [exact Hx|].
  unfold TradeSignalsGenerator.proven_row in Hw. cbv zeta in Hw.
  destruct (Z.ltb_spec
              (TradeSignalsGenerator.count_rows TradeSignalsGenerator.is_resolved
                 (filter (fun r => (Trade.whale_address r =? Whale.address x)%string)
                         (Database.trades db)))
              TradeSignalsGenerator.MIN_RESOLVED_TRADES) as [Hlt|Hge]; [contradiction|].
  destruct (0 <? _)%Z; [|contradiction].
  destruct (Qle_bool TradeSignalsGenerator.MIN_WIN_RATE _) eqn:Hrate; [|contradiction].
  destruct (Qle_bool TradeSignalsGenerator.MIN_ROI _) eqn:Hroi; [|contradiction].
  destruct Hw as [<-|[]]. cbn [TradeSignalsGenerator.address
    TradeSignalsGenerator.resolved_trades TradeSignalsGenerator.win_rate
    TradeSignalsGenerator.roi].
  apply Qle_bool_iff in Hrate, Hroi.
  repeat split; try assumption.
  - now apply (round_ge _ 1 60).
  - now apply (round_ge _ 1 10).
Qed.

(** X20: the whales that [get_proven_whales] returns meet the thresholds, on
    the rounded figures that the signals quote as well: each is a tracked
    whale with at least 20 resolved trades, a win rate of at least 60 and a
    ROI of at least 10; they come with the largest ROI first. *)
Theorem proven_whales_meet_the_thresholds :
  forall (db : Database.t),
    Forall (fun w =>
              In (TradeSignalsGenerator.address w) (map Whale.address (Database.whales db))
              /\ (20 <= TradeSignalsGenerator.resolved_trades w)%Z
              /\ 60 <= TradeSignalsGenerator.win_rate w
              /\ 10 <= TradeSignalsGenerator.roi w)
           (TradeSignalsGenerator.get_proven_whales db)
    /\ StronglySorted (fun a b => TradeSignalsGenerator.roi b <= TradeSignalsGenerator.roi a)
                      (TradeSignalsGenerator.get_proven_whales db).
Proof.
  intro db. split.
  - apply Forall_forall. intros w Hw.
    destruct (proven_whale_thresholds db w Hw) as (x & Hx & Ha & _ & Hn & Hr & Hroi).
    repeat split; try assumption. rewrite Ha. now apply in_map.
  - unfold TradeSignalsGenerator.get_proven_whales.
    eapply StronglySorted_on with (P := fun _ => True);
      [| |apply (sort_desc_sorted (fun a b => Qlt_bool (TradeSignalsGenerator.roi a)
                                                       (TradeSignalsGenerator.roi b)))].
    + intros a b _ _ H. unfold not_below in H. now apply Qlt_bool_false_iff.
    + apply Forall_forall. trivial.
    + intros x y H. apply Qlt_bool_iff in H. apply Qlt_bool_false_iff. lra.
    + intros x y z H1 H2. apply Qlt_bool_false_iff in H1, H2.
      apply Qlt_bool_false_iff. lra.
Qed.

(** ** The signals *)








(** ** Positions on a market that is nearly decided *)




(** ** The confidence labels *)

Lemma tier_monotone (a b x y : Q) :
  x <= y ->
  ((if Qle_bool a x then 3 else if Qle_bool b x then 2 else 1)
   <= (if Qle_bool a y then 3 else if Qle_bool b y then 2 else 1))%Z.
Proof.
  intro H.
  destruct (Qle_bool a x) eqn:E1.
  - apply Qle_bool_iff in E1.
    assert (E : Qle_bool a y = true) by (apply Qle_bool_iff; lra). rewrite E. lia.
  - destruct (Qle_bool a y); [destruct (Qle_bool b x); lia|].
    destruct (Qle_bool b x) eqn:E2; [|destruct (Qle_bool b y); lia].
    apply Qle_bool_iff in E2.
    assert (E : Qle_bool b y = true) by (apply Qle_bool_iff; lra). rewrite E. lia.
Qed.

Lemma count_tier_monotone (a b x y : Z) :
  (x <= y)%Z ->
  ((if a <=? x then 3 else if b <=? x then 2 else 1)
   <= (if a <=? y then 3 else if b <=? y then 2 else 1))%Z.
Proof.
  intro H.
  destruct (Z.leb_spec a x), (Z.leb_spec a y), (Z.leb_spec b x), (Z.leb_spec b y); lia.
Qed.

Lemma label_monotone (s s' : Z) :
  (s <= s')%Z ->
  (confidence_level (if 8 <=? s then "HIGH" else if 6 <=? s then "MEDIUM" else "LOW")
   <= confidence_level (if 8 <=? s' then "HIGH" else if 6 <=? s' then "MEDIUM" else "LOW"))%Z.
Proof.
  intro H.
  destruct (Z.leb_spec 8 s), (Z.leb_spec 8 s'), (Z.leb_spec 6 s), (Z.leb_spec 6 s');
    cbn; lia.
Qed.

Lemma consensus_label_monotone (s s' : Z) :
  (s <= s')%Z ->
  (confidence_level (if 10 <=? s then "VERY HIGH" else if 8 <=? s then "HIGH"
                     else if 6 <=? s then "MEDIUM" else "LOW")
   <= confidence_level (if 10 <=? s' then "VERY HIGH" else if 8 <=? s' then "HIGH"
                        else if 6 <=? s' then "MEDIUM" else "LOW"))%Z.
Proof.
  intro H.
  destruct (Z.leb_spec 10 s), (Z.leb_spec 10 s'), (Z.leb_spec 8 s), (Z.leb_spec 8 s'),
           (Z.leb_spec 6 s), (Z.leb_spec 6 s'); cbn; lia.
Qed.

(** X23: the confidence labels are monotone.  A signal of a whale with a
    win rate, a count of resolved trades and an edge that are all at least
    those of another signal gets a label at least as high (LOW, MEDIUM,
    HIGH); the same holds for the label of a consensus (up to VERY HIGH) in
    the number of whales, the average win rate, the average edge and the
    number of resolved trades.  A consensus of two whales is VERY HIGH
    exactly when its average win rate is 70 or more, its average edge 20 or
    more and its resolved trades 100 or more. *)
Theorem confidence_is_monotone :
  forall (w w' : TradeSignalsGenerator.whale) (edge edge' : Q),
    TradeSignalsGenerator.win_rate w <= TradeSignalsGenerator.win_rate w' ->
    (TradeSignalsGenerator.resolved_trades w <= TradeSignalsGenerator.resolved_trades w')%Z ->
    edge <= edge' ->
    (confidence_level (TradeSignalsGenerator.calculate_confidence w edge)
     <= confidence_level (TradeSignalsGenerator.calculate_confidence w' edge'))%Z
    /\ (forall n n' trades trades',
          (n <= n')%Z -> (trades <= trades')%Z ->
          (confidence_level
             (TradeSignalsGenerator.calculate_consensus_confidence
                n (TradeSignalsGenerator.win_rate w) edge trades)
           <= confidence_level
                (TradeSignalsGenerator.calculate_consensus_confidence
                   n' (TradeSignalsGenerator.win_rate w') edge' trades'))%Z)
    /\ (forall trades,
          TradeSignalsGenerator.calculate_consensus_confidence
            2 (TradeSignalsGenerator.win_rate w) edge trades = "VERY HIGH"
          <-> 70 <= TradeSignalsGenerator.win_rate w /\ 20 <= edge /\ (100 <= trades)%Z).
Proof.
  intros w w' edge edge' Hrate Htrades Hedge. split; [|split].
  - unfold TradeSignalsGenerator.calculate_confidence. cbv zeta.
    apply label_monotone.
    pose proof (tier_monotone 70 65 _ _ Hrate).
    pose proof (count_tier_monotone 50 30 _ _ Htrades).
    pose proof (tier_monotone 20 15 _ _ Hedge). lia.
  - intros n n' trades trades' Hn Ht.
    unfold TradeSignalsGenerator.calculate_consensus_confidence. cbv zeta.
    apply consensus_label_monotone.
    pose proof (tier_monotone 70 65 _ _ Hrate).
    pose proof (tier_monotone 20 15 _ _ Hedge).
    assert ((if 100 <=? trades then 2 else 1) <= (if 100 <=? trades' then 2 else 1))%Z.
    { destruct (Z.leb_spec 100 trades), (Z.leb_spec 100 trades'); lia. }
    lia.
  - intro trades.
    unfold TradeSignalsGenerator.calculate_consensus_confidence. cbv zeta.
    rewrite <- !Qle_bool_iff, <- Z.leb_le.
    destruct (Qle_bool 70 (TradeSignalsGenerator.win_rate w)),
             (Qle_bool 65 (TradeSignalsGenerator.win_rate w)),
             (Qle_bool 20 edge), (Qle_bool 15 edge), (100 <=? trades)%Z;
      cbn; split; intro H; try discriminate; try tauto;
      destruct H as (? & ? & ?); discriminate.
Qed.

Lemma confidence_is_monotone_witness :
  (confidence_level (TradeSignalsGenerator.calculate_confidence keen (10 # 1))
   <= confidence_level (TradeSignalsGenerator.calculate_confidence keen (25 # 1)))%Z.
Proof.
  refine (proj1 (confidence_is_monotone keen keen (10 # 1) (25 # 1) _ _ _)).
  - apply Qle_refl.
  - lia.
  - vm_compute. discriminate.
Defined.

(** ** The figures of a consensus *)

Lemma sum_Q_run_total (l : list Q) : TradeSignalsGenerator.sum_Q l == run_total l.
Proof.
  unfold TradeSignalsGenerator.sum_Q. rewrite sum_from. ring.
Qed.

Lemma sum_Z_total (l : list Z) :
  TradeSignalsGenerator.sum_Z l = fold_right Z.add 0%Z l.
Proof.
  unfold TradeSignalsGenerator.sum_Z.
  assert (H : forall acc, fold_left Z.add l acc = (acc + fold_right Z.add 0 l)%Z).
  { induction l as [|x l IH]; intro acc; cbn [fold_left fold_right]; [lia|].
    rewrite IH. lia. }
  rewrite H. lia.
Qed.

Lemma add_signal_edges (s : TradeSignalsGenerator.signal)
  (groups : list (string * TradeSignalsGenerator.group)) :
  NoDup (map fst groups) ->
  edges_add_up groups ->
  edges_add_up (TradeSignalsGenerator.add_signal s groups).
Proof.
  intros Hnd H k g' Hin.
  apply (add_signal_in s groups k g' Hnd) in Hin
    as [[_ Hin]|[_ [(g & Hin & ->)|[_ ->]]]].
  - now apply (H k).
  - unfold joined. cbn [TradeSignalsGenerator.grp_total_edge
      TradeSignalsGenerator.grp_whales].
    rewrite map_app, run_total_app, (H k g Hin). cbn. ring.
  - unfold opened. cbn. ring.
Qed.

Lemma group_signals_edges (signals : list TradeSignalsGenerator.signal) :
  edges_add_up (TradeSignalsGenerator.group_signals signals).
Proof.
  unfold TradeSignalsGenerator.group_signals.
  assert (H : forall l groups,
            NoDup (map fst groups) -> edges_add_up groups ->
            edges_add_up (fold_left (fun market_positions s =>
                                       TradeSignalsGenerator.add_signal s market_positions)
                                    l groups)).
  { induction l as [|s l IH]; intros groups Hnd He; cbn [fold_left]; [exact He|].
    apply IH; [now apply add_signal_nodup|now apply add_signal_edges]. }
  apply H; [constructor|]. intros k g [].
Qed.

Lemma kept_keys_unique {A : Type} (keep : string * A -> bool) (l : list (string * A)) :
  NoDup (map fst l) -> NoDup (map fst (filter keep l)).
Proof.
  induction l as [|[k a] l IH]; cbn [map filter fst]; intro H; [constructor|].
  inversion H as [|? ? Hfresh Hrest]; subst.
  destruct (keep (k, a)); cbn [map fst]; [|now apply IH].
  constructor; [|now apply IH]. intro Hin. apply Hfresh.
  apply in_map_iff in Hin as (x & Hx & Hin). apply filter_In in Hin as [Hin _].
  rewrite <- Hx. now apply in_map.
Qed.

Lemma key_lt_asym (x y : TradeSignalsGenerator.consensus) :
  TradeSignalsGenerator.key_lt x y = true -> TradeSignalsGenerator.key_lt y x = false.
Proof.
  unfold TradeSignalsGenerator.key_lt.
  destruct (Qeq_bool (TradeSignalsGenerator.avg_edge x) (TradeSignalsGenerator.avg_edge y))
    eqn:E.
  - apply Qeq_bool_iff in E.
    assert (E' : Qeq_bool (TradeSignalsGenerator.avg_edge y)
                          (TradeSignalsGenerator.avg_edge x) = true)
      by (apply Qeq_bool_iff; now symmetry).
    rewrite E'. rewrite Qlt_bool_iff, Qlt_bool_false_iff. lra.
  - apply Qeq_bool_neq in E.
    destruct (Qeq_bool (TradeSignalsGenerator.avg_edge y)
                       (TradeSignalsGenerator.avg_edge x)) eqn:E'.
    + apply Qeq_bool_iff in E'. exfalso. apply E. now symmetry.
    + rewrite Qlt_bool_iff, Qlt_bool_false_iff. lra.
Qed.

Lemma key_not_below (x y : TradeSignalsGenerator.consensus) :
  TradeSignalsGenerator.key_lt x y = false <-> ranks_before x y.
Proof.
  unfold TradeSignalsGenerator.key_lt, ranks_before.
  destruct (Qeq_bool (TradeSignalsGenerator.avg_edge x) (TradeSignalsGenerator.avg_edge y))
    eqn:E.
  - apply Qeq_bool_iff in E. rewrite Qlt_bool_false_iff. split.
    + intro H. right. split; [now symmetry|exact H].
    + intros [H|[_ H]]; [lra|exact H].
  - apply Qeq_bool_neq in E. rewrite Qlt_bool_false_iff. split.
    + intro H. left. apply Qle_lt_or_eq in H as [H|H]; [exact H|].
      exfalso. apply E. now symmetry.
    + intros [H|[H _]]; [lra|]. exfalso. apply E. now symmetry.
Qed.

Lemma key_ge_trans (x y z : TradeSignalsGenerator.consensus) :
  TradeSignalsGenerator.key_lt x y = false -> TradeSignalsGenerator.key_lt y z = false ->
  TradeSignalsGenerator.key_lt x z = false.
Proof.
  rewrite !key_not_below. unfold ranks_before.
  intros [H1|[H1 H1']] [H2|[H2 H2']].
  - left. lra.
  - left. lra.
  - left. lra.
  - right. split; lra.
Qed.

(** X24: what a consensus holds.  [detect_consensus_signals] returns at most
    one consensus for each market and direction, the larger average edge
    first and among equal ones the larger average win rate.  The members of
    a consensus are the signals on its market and direction, in the order of
    the input; it counts them, and they are two at least; its average edge
    and average win rate are the means of their edges and win rates; its
    resolved trades are the sum of theirs; and its confidence is computed
    from these four figures. *)
Theorem consensus_aggregates_its_signals :
  forall (signals : list TradeSignalsGenerator.signal),
    NoDup (map consensus_key (TradeSignalsGenerator.detect_consensus_signals signals))
    /\ StronglySorted ranks_before (TradeSignalsGenerator.detect_consensus_signals signals)
    /\ Forall
         (fun c =>
            let members := on_key (consensus_key c) signals in
            TradeSignalsGenerator.grp_whales (TradeSignalsGenerator.position c)
            = map TradeSignalsGenerator.member_of members
            /\ TradeSignalsGenerator.whale_count c = Z.of_nat (List.length members)
            /\ (2 <= TradeSignalsGenerator.whale_count c)%Z
            /\ TradeSignalsGenerator.avg_edge c
                 * inject_Z (TradeSignalsGenerator.whale_count c)
               == run_total (map TradeSignalsGenerator.edge_estimate members)
            /\ TradeSignalsGenerator.avg_win_rate c
                 * inject_Z (TradeSignalsGenerator.whale_count c)
               == run_total (map (fun s => TradeSignalsGenerator.win_rate
                                             (TradeSignalsGenerator.whale_stats s))
                                 members)
            /\ TradeSignalsGenerator.total_resolved_trades c
               = fold_right Z.add 0%Z
                   (map (fun s => TradeSignalsGenerator.resolved_trades
                                    (TradeSignalsGenerator.whale_stats s))
                        members)
            /\ TradeSignalsGenerator.consensus_confidence c
               = TradeSignalsGenerator.calculate_consensus_confidence
                   (TradeSignalsGenerator.whale_count c)
                   (TradeSignalsGenerator.avg_win_rate c)
                   (TradeSignalsGenerator.avg_edge c)
                   (TradeSignalsGenerator.total_resolved_trades c))
         (TradeSignalsGenerator.detect_consensus_signals signals).
Proof.
  intro signals.
  destruct (group_signals_grouped signals) as (Hnd & Hent & Hkeys).
  pose proof (group_signals_edges signals) as Hedges.
  unfold TradeSignalsGenerator.detect_consensus_signals.
  set (groups := TradeSignalsGenerator.group_signals signals) in *.
  set (kept := filter (fun kp : string * TradeSignalsGenerator.group =>
                         (2 <=? TradeSignalsGenerator.len
                                  (TradeSignalsGenerator.grp_whales (snd kp)))%Z)
                      groups).
  split; [|split].
  - apply (Permutation_NoDup
             (l := map consensus_key (map (fun kp => TradeSignalsGenerator.aggregate (snd kp))
                                          kept)));
      [apply Permutation_map, Permutation_sym, sort_desc_perm|].
    rewrite map_map.
    assert (E : map (fun kp : string * TradeSignalsGenerator.group =>
                       consensus_key (TradeSignalsGenerator.aggregate (snd kp))) kept
                = map fst kept).
    { apply map_ext_in. intros [k g] Hin. apply filter_In in Hin as [Hin _].
      destruct (Hent k g Hin) as [Hkey _]. exact Hkey. }
    rewrite E. now apply kept_keys_unique.
  - eapply StronglySorted_on with (P := fun _ => True);
      [| |apply (sort_desc_sorted TradeSignalsGenerator.key_lt)].
    + intros a b _ _ H. now apply key_not_below.
    + apply Forall_forall. trivial.
    + apply key_lt_asym.
    + apply key_ge_trans.
  - apply Forall_forall. intros c Hc.
    apply (Permutation_in _ (sort_desc_perm _ _)) in Hc.
    apply in_map_iff in Hc as ([k g] & <- & Hin).
    apply filter_In in Hin as [Hin Hlen]. cbn [snd] in *.
    destruct (Hent k g Hin) as [Hkey Hw]. pose proof (Hedges k g Hin) as He.
    assert (Hk : consensus_key (TradeSignalsGenerator.aggregate g) = k) by exact Hkey.
    cbv zeta. rewrite Hk.
    unfold TradeSignalsGenerator.aggregate. cbv zeta.
    cbn [TradeSignalsGenerator.position TradeSignalsGenerator.whale_count
         TradeSignalsGenerator.avg_edge TradeSignalsGenerator.avg_win_rate
         TradeSignalsGenerator.total_resolved_trades
         TradeSignalsGenerator.consensus_confidence].
    apply Z.leb_le in Hlen.
    assert (Hn : TradeSignalsGenerator.len (TradeSignalsGenerator.grp_whales g)
                 = Z.of_nat (List.length (on_key k signals))).
    { unfold TradeSignalsGenerator.len. now rewrite Hw, length_map. }
    assert (Hq : ~ inject_Z (TradeSignalsGenerator.len (TradeSignalsGenerator.grp_whales g))
                   == 0).
    { intro E. change 0 with (inject_Z 0) in E.
      apply (proj1 (inject_Z_injective _ _)) in E. lia. }
    split; [exact Hw|]. split; [exact Hn|]. split; [exact Hlen|].
    split; [|split; [|split; [|reflexivity]]].
    + assert (E : run_total (map TradeSignalsGenerator.mem_edge
                                 (TradeSignalsGenerator.grp_whales g))
                  = run_total (map TradeSignalsGenerator.edge_estimate (on_key k signals)))
        by (rewrite Hw, map_map; reflexivity).
      rewrite He, E. field. exact Hq.
    + assert (E : run_total (map TradeSignalsGenerator.mem_win_rate
                                 (TradeSignalsGenerator.grp_whales g))
                  = run_total (map (fun s => TradeSignalsGenerator.win_rate
                                               (TradeSignalsGenerator.whale_stats s))
                                   (on_key k signals)))
        by (rewrite Hw, map_map; reflexivity).
      rewrite sum_Q_run_total, E. field. exact Hq.
    + rewrite sum_Z_total, Hw, map_map. reflexivity.
Qed.

(** ** The feed client *)

(** X25: [_request] gives up after three attempts.  It makes one request at
    least and three at most and sleeps for three seconds at most; it tries
    again only after a rate limit, a timeout or a client error; it returns
    the body of the first answer with status 200, returns None at once on
    any other status, and returns None when the three attempts are used
    up. *)
Theorem request_gives_up_after_three_attempts :
  forall (A : Type) (respond : nat -> PolymarketAPI.attempt A),
    let c := PolymarketAPI._request respond in
    (1 <= PolymarketAPI.requests c <= 3)%nat
    /\ (3 # 10) * inject_Z (Z.of_nat (PolymarketAPI.requests c)) <= PolymarketAPI.slept c
    /\ PolymarketAPI.slept c <= 3
    /\ (forall i, (i < PolymarketAPI.requests c - 1)%nat -> retried (respond i) = true)
    /\ match respond (PolymarketAPI.requests c - 1)%nat with
       | PolymarketAPI.Ok payload => PolymarketAPI.returned c = Return (Some payload)
       | PolymarketAPI.InvalidJson => PolymarketAPI.returned c = Raise ValueError
       | PolymarketAPI.ErrorStatus _ => PolymarketAPI.returned c = Return None
       | _ => PolymarketAPI.returned c = Return None
              /\ PolymarketAPI.requests c = 3%nat
       end.
Proof.
  intros A respond c. subst c. unfold PolymarketAPI._request.
  cbn [seq PolymarketAPI.max_retries PolymarketAPI.request_loop].
  destruct (respond 0%nat) eqn:E0;
    cbn [PolymarketAPI.requests PolymarketAPI.slept PolymarketAPI.returned Nat.sub];
    rewrite ?E0;
    try (solve [repeat split; try lia; try (vm_compute; discriminate);
                intros i Hi; lia]).
  all: destruct (respond 1%nat) eqn:E1;
    cbn [PolymarketAPI.requests PolymarketAPI.slept PolymarketAPI.returned Nat.sub];
    rewrite ?E1;
    try (solve [repeat split; try lia; try (vm_compute; discriminate);
                intros i Hi; assert (i = 0%nat) by lia; subst i; rewrite E0;
                reflexivity]).
  all: destruct (respond 2%nat) eqn:E2;
    cbn [PolymarketAPI.requests PolymarketAPI.slept PolymarketAPI.returned Nat.sub];
    rewrite ?E2; repeat split; try lia; try (vm_compute; discriminate).
  all: intros i Hi; assert (Hi' : i = 0%nat \/ i = 1%nat) by lia;
    destruct Hi' as [-> | ->]; [rewrite E0|rewrite E1]; reflexivity.
Qed.

Lemma max_bounds (a b : Q) : a <= PolymarketAPI.max a b /\ b <= PolymarketAPI.max a b.
Proof.
  unfold PolymarketAPI.max. destruct (Qlt_bool a b) eqn:E.
  - apply Qlt_bool_iff in E. split; lra.
  - apply Qlt_bool_false_iff in E. split; lra.
Qed.

Lemma to_float_cases (x : Oracle.field Q) (d : Q) :
  (exists q, PolymarketAPI.to_float x d = Return q)
  \/ PolymarketAPI.to_float x d = Raise ValueError.
Proof.
  destruct x; cbn; eauto.
Qed.

Lemma to_float_or_cases (x y : Oracle.field Q) :
  (exists q, PolymarketAPI.to_float_or x y = Return q)
  \/ PolymarketAPI.to_float_or x y = Raise ValueError.
Proof.
  destruct x; cbn; eauto. apply to_float_cases.
Qed.

(** The ways in which the parsing of one position ends. *)
Lemma parse_position_cases (min_size : Q) (pos : PolymarketAPI.raw_position) :
  (significant_for min_size pos
   /\ PolymarketAPI.raw_outcome pos = Oracle.Malformed
   /\ PolymarketAPI.parse_position min_size pos = Raise AttributeError)
  \/ (~ (significant_for min_size pos
         /\ PolymarketAPI.raw_outcome pos = Oracle.Malformed)
      /\ ((exists p, PolymarketAPI.parse_position min_size pos = Return (Some p)
                     /\ significant_for min_size pos
                     /\ min_size <= WhaleTracker.pos_size p
                     /\ upper (WhaleTracker.pos_side p) = WhaleTracker.pos_side p)
          \/ (PolymarketAPI.parse_position min_size pos = Return None
              /\ ~ significant_for min_size pos)
          \/ PolymarketAPI.parse_position min_size pos = Raise ValueError)).
Proof.
  unfold PolymarketAPI.parse_position.
  destruct (PolymarketAPI.to_float (PolymarketAPI.raw_size pos) 0) as [size|e] eqn:Hs.
  2:{ right. split.
      - intros [(s & c & H1 & _) _]. rewrite Hs in H1. discriminate.
      - right. right. destruct (to_float_cases (PolymarketAPI.raw_size pos) 0)
          as [(q & Hq)|Hq]; rewrite Hq in Hs; inversion Hs. reflexivity. }
  cbn [bind].
  destruct (PolymarketAPI.to_float (PolymarketAPI.raw_current_value pos) size)
    as [cv|e] eqn:Hc.
  2:{ right. split.
      - intros [(s & c & H1 & H2 & _) _]. rewrite Hs in H1. inversion H1; subst s.
        rewrite Hc in H2. discriminate.
      - right. right.
        destruct (to_float_cases (PolymarketAPI.raw_current_value pos) size)
          as [(q & Hq)|Hq]; rewrite Hq in Hc; inversion Hc. reflexivity. }
  cbn [bind]. cbv zeta.
  destruct (Qle_bool min_size (PolymarketAPI.max size cv)) eqn:Hmin.
  2:{ right. split.
      - intros [(s & c & H1 & H2 & H3) _]. rewrite Hs in H1. inversion H1; subst s.
        rewrite Hc in H2. inversion H2; subst c. apply Qle_bool_iff in H3. congruence.
      - right. left. split; [reflexivity|].
        intros (s & c & H1 & H2 & H3). rewrite Hs in H1. inversion H1; subst s.
        rewrite Hc in H2. inversion H2; subst c. apply Qle_bool_iff in H3. congruence. }
  apply Qle_bool_iff in Hmin.
  assert (Hsig : significant_for min_size pos) by (exists size, cv; auto).
  unfold PolymarketAPI.side_of.
  destruct (PolymarketAPI.raw_outcome pos) as [|s|] eqn:Ho.
  3:{ left. auto. }
  all: right; split; [intros [_ H]; discriminate|]; cbn [bind].
  all: destruct (to_float_or_cases (PolymarketAPI.raw_avg_price pos)
                                   (PolymarketAPI.raw_price pos)) as [(q1 & ->)| ->];
    cbn [bind]; [|right; now right].
  all: destruct (to_float_or_cases (PolymarketAPI.raw_cur_price pos)
                                   (PolymarketAPI.raw_current_price pos)) as [(q2 & ->)| ->];
    cbn [bind]; [|right; now right].
  all: destruct (to_float_cases (PolymarketAPI.raw_pnl pos) 0) as [(q3 & ->)| ->];
    cbn [bind]; [|right; now right].
  all: left; eexists; split; [reflexivity|]; split; [exact Hsig|];
    cbn [WhaleTracker.pos_size WhaleTracker.pos_side]; split; [exact Hmin|].
  - reflexivity.
  - apply upper_idempotent.
Qed.

Lemma significant_positions_returns (min_size : Q)
  (positions : list PolymarketAPI.raw_position) :
  forall acc,
    (forall pos, In pos positions -> significant_for min_size pos ->
                 PolymarketAPI.raw_outcome pos <> Oracle.Malformed) ->
    PolymarketAPI.significant_positions min_size positions acc
    = Return (acc ++ flat_map (kept min_size) positions)%list.
Proof.
  induction positions as [|pos rest IH]; intros acc H;
    cbn [PolymarketAPI.significant_positions flat_map].
  - now rewrite app_nil_r.
  - assert (Hrest : forall p, In p rest -> significant_for min_size p ->
                              PolymarketAPI.raw_outcome p <> Oracle.Malformed)
      by (intros p Hp; apply H; now right).
    unfold kept at 1.
    destruct (parse_position_cases min_size pos)
      as [(Hsig & Hmal & _)|(_ & [(p & -> & _)|[(-> & _)| ->]])].
    + exfalso. exact (H pos (or_introl eq_refl) Hsig Hmal).
    + rewrite (IH _ Hrest). now rewrite <- app_assoc.
    + now rewrite (IH _ Hrest).
    + now rewrite (IH _ Hrest).
Qed.

Lemma significant_positions_raises (min_size : Q)
  (positions : list PolymarketAPI.raw_position) :
  forall acc,
    (exists pos, In pos positions /\ significant_for min_size pos
                 /\ PolymarketAPI.raw_outcome pos = Oracle.Malformed) ->
    PolymarketAPI.significant_positions min_size positions acc = Raise AttributeError.
Proof.
  induction positions as [|pos rest IH]; intros acc (bad & Hin & Hsig & Hmal);
    [contradiction|].
  cbn [PolymarketAPI.significant_positions].
  destruct (parse_position_cases min_size pos)
    as [(_ & _ & ->)|(Hnot & Hparse)]; [reflexivity|].
  assert (Hrest : exists p, In p rest /\ significant_for min_size p
                            /\ PolymarketAPI.raw_outcome p = Oracle.Malformed).
  { destruct Hin as [<-|Hin]; [exfalso; apply Hnot; now split|]. now exists bad. }
  destruct Hparse as [(p & -> & _)|[(-> & _)| ->]]; now apply IH.
Qed.

Lemma significant_positions_kept (min_size : Q)
  (positions : list PolymarketAPI.raw_position) :
  forall acc out,
    Forall (fun p => min_size <= WhaleTracker.pos_size p
                     /\ upper (WhaleTracker.pos_side p) = WhaleTracker.pos_side p) acc ->
    PolymarketAPI.significant_positions min_size positions acc = Return out ->
    Forall (fun p => min_size <= WhaleTracker.pos_size p
                     /\ upper (WhaleTracker.pos_side p) = WhaleTracker.pos_side p) out.
Proof.
  induction positions as [|pos rest IH]; intros acc out Hacc Hrun;
    cbn [PolymarketAPI.significant_positions] in Hrun.
  - now inversion Hrun; subst.
  - destruct (parse_position_cases min_size pos)
      as [(_ & _ & E)|(_ & [(p & E & _ & Hsize & Hside)|[(E & _)| E]])];
      rewrite E in Hrun; try discriminate.
    + apply (IH _ _ (proj2 (Forall_app _ _ _) (conj Hacc (Forall_cons _ (conj Hsize Hside)
                                                          (Forall_nil _)))) Hrun).
    + now apply (IH _ _ Hacc).
    + now apply (IH _ _ Hacc).
Qed.

(** X26: only significant positions reach the ledger.  The positions that
    [get_active_positions_for_wallet] returns have a size (the larger of the
    size and the current value) of at least the minimum and a side in upper
    case.  A position whose numbers cannot be read is skipped and the others
    are kept, in the order of the feed; a significant position whose outcome
    is not a string makes the whole call fail with an AttributeError; a
    fetch that [_request] gave up yields no position.  Whatever the feed
    answers, [check_whale_positions] run on the result only appends
    positions of at least the minimum size. *)
Theorem only_significant_positions_are_recorded :
  forall (respond : nat -> PolymarketAPI.attempt (list PolymarketAPI.raw_position))
         (min_size : Q),
    (forall positions,
       PolymarketAPI.get_active_positions_for_wallet respond min_size = Return positions ->
       Forall (fun p => min_size <= WhaleTracker.pos_size p
                        /\ upper (WhaleTracker.pos_side p) = WhaleTracker.pos_side p)
              positions)
    /\ (forall raw,
          PolymarketAPI.returned (PolymarketAPI._request respond) = Return (Some raw) ->
          ((forall pos, In pos raw -> significant_for min_size pos ->
                        PolymarketAPI.raw_outcome pos <> Oracle.Malformed) ->
           PolymarketAPI.get_active_positions_for_wallet respond min_size
           = Return (flat_map (kept min_size) raw))
          /\ ((exists pos, In pos raw /\ significant_for min_size pos
                           /\ PolymarketAPI.raw_outcome pos = Oracle.Malformed) ->
              PolymarketAPI.get_active_positions_for_wallet respond min_size
              = Raise AttributeError))
    /\ (PolymarketAPI.returned (PolymarketAPI._request respond) = Return None ->
        PolymarketAPI.get_active_positions_for_wallet respond min_size = Return [])
    /\ forall (db : Database.t) (whale_address : string) (now : Z),
         let db' := WhaleTracker.check_whale_positions whale_address now
                      (PolymarketAPI.get_active_positions_for_wallet respond min_size) db in
         exists added,
           Database.trades db' = (Database.trades db ++ added)%list
           /\ Forall (fun r => Trade.whale_address r = whale_address
                               /\ (exists size, Trade.size r = Some size
                                                /\ min_size <= size)
                               /\ (exists side, Trade.side r = Some side
                                                /\ upper side = side))
                     added.
Proof.
  intros respond min_size.
  assert (Hkept : forall positions,
            PolymarketAPI.get_active_positions_for_wallet respond min_size
            = Return positions ->
            Forall (fun p => min_size <= WhaleTracker.pos_size p
                             /\ upper (WhaleTracker.pos_side p) = WhaleTracker.pos_side p)
                   positions).
  { intros positions Hrun. unfold PolymarketAPI.get_active_positions_for_wallet in Hrun.
    destruct (PolymarketAPI.get_user_positions respond) as [raw|e]; cbn [bind] in Hrun;
      [|discriminate].
    eapply significant_positions_kept; [|exact Hrun]. constructor. }
  split; [exact Hkept|]. split; [|split].
  - intros raw Hreq. unfold PolymarketAPI.get_active_positions_for_wallet,
      PolymarketAPI.get_user_positions. rewrite Hreq. cbn [bind]. split.
    + intro H. now rewrite (significant_positions_returns min_size raw [] H).
    + intro H. now apply significant_positions_raises.
  - intro Hreq. unfold PolymarketAPI.get_active_positions_for_wallet,
      PolymarketAPI.get_user_positions. rewrite Hreq. reflexivity.
  - intros db whale_address now db'. subst db'.
    destruct (PolymarketAPI.get_active_positions_for_wallet respond min_size)
      as [positions|e] eqn:Hrun.
    + destruct (check_positions_loop whale_address now positions db)
        as (added & Ht & _ & Hall & _). cbv zeta in *.
      exists added. split; [exact Ht|].
      eapply Forall_impl; [|exact Hall].
      intros r ((pos & Hin & _ & Hrec) & _).
      destruct Hrec as (Hw & _ & _ & Hside & Hsize & _).
      pose proof (proj1 (Forall_forall _ _) (Hkept positions eq_refl) pos Hin)
        as [Hmin Hup].
      split; [exact Hw|]. split; eauto.
    + exists []. cbn. now rewrite app_nil_r.
Qed.

(** ** The markets seen *)

Lemma is_market_seen_app (c : string) (t1 t2 : SeenMarkets.t) :
  SeenMarkets.is_market_seen c (t1 ++ t2)%list
  = (SeenMarkets.is_market_seen c t1 || SeenMarkets.is_market_seen c t2)%bool.
Proof. apply existsb_app. Qed.

Lemma is_market_seen_In (c : string) (table : SeenMarkets.t) :
  SeenMarkets.is_market_seen c table = true
  <-> In c (map SeenMarket.condition_id table).
Proof.
  unfold SeenMarkets.is_market_seen. rewrite existsb_exists, in_map_iff. split.
  - intros (m & Hm & E). apply String.eqb_eq in E. now exists m.
  - intros (m & E & Hm). exists m. split; [exact Hm|]. now apply String.eqb_eq.
Qed.

Lemma add_seen_market_appends (c slug question : string) (volume liquidity : Q)
  (yes no : option Q) (now : Z) (table : SeenMarkets.t) :
  let table' := fst (SeenMarkets.add_seen_market c slug question volume liquidity yes no
                       now table) in
  let added := snd (SeenMarkets.add_seen_market c slug question volume liquidity yes no
                      now table) in
  added = negb (SeenMarkets.is_market_seen c table)
  /\ table' = (table ++ if added
                        then [SeenMarket.mk c slug question now (Some volume)
                                (Some liquidity) yes no None None None
                                (Some false) (Some false) (Some false)]
                        else [])%list
  /\ SeenMarkets.is_market_seen c table' = true
  /\ (unique_condition_ids table -> unique_condition_ids table').
Proof.
  unfold SeenMarkets.add_seen_market.
  destruct (SeenMarkets.is_market_seen c table) eqn:Hseen; cbn [fst snd negb].
  - rewrite app_nil_r. repeat split; auto.
  - repeat split.
    + rewrite is_market_seen_app. cbn. rewrite String.eqb_refl. now rewrite orb_true_r.
    + unfold unique_condition_ids. rewrite map_app. cbn. intro H.
      apply NoDup_app; [exact H|repeat constructor; cbn; tauto|].
      intros a Ha [<-|[]]. apply is_market_seen_In in Ha. congruence.
Qed.

(** X27: a market is entered once in the list of the markets seen.
    [add_seen_market] on a new condition id appends one row, with the
    initial prices given, no checkpoint and the three flags FALSE, and
    returns True; on a condition id already seen it returns False and
    changes nothing, so the first sighting and its initial prices are never
    overwritten.  Either way the market is seen afterwards, the count grows
    by one or by none, and the condition ids stay unique. *)
Theorem seen_market_is_entered_once :
  forall (c slug question : string) (volume liquidity : Q) (yes no : option Q) (now : Z)
         (table : SeenMarkets.t),
    let table' := fst (SeenMarkets.add_seen_market c slug question volume liquidity yes no
                         now table) in
    let added := snd (SeenMarkets.add_seen_market c slug question volume liquidity yes no
                        now table) in
    added = negb (SeenMarkets.is_market_seen c table)
    /\ SeenMarkets.is_market_seen c table' = true
    /\ (added = false -> table' = table)
    /\ (added = true ->
        exists row, table' = (table ++ [row])%list
                    /\ SeenMarket.condition_id row = c
                    /\ SeenMarket.initial_yes_price row = yes
                    /\ SeenMarket.initial_no_price row = no
                    /\ fresh_row now row)
    /\ SeenMarkets.get_seen_market_count table'
       = (SeenMarkets.get_seen_market_count table + if added then 1 else 0)%Z
    /\ (unique_condition_ids table -> unique_condition_ids table')
    /\ (forall slug' question' volume' liquidity' yes' no' now',
          SeenMarkets.add_seen_market c slug' question' volume' liquidity' yes' no' now'
            table'
          = (table', false)).
Proof.
  intros c slug question volume liquidity yes no now table table' added.
  destruct (add_seen_market_appends c slug question volume liquidity yes no now table)
    as (Hadded & Htable & Hseen & Huniq).
  fold table' in Htable, Hseen, Huniq. fold added in Hadded, Htable.
  split; [exact Hadded|]. split; [exact Hseen|].
  split; [|split; [|split; [|split]]].
  - intro E. rewrite Htable, E. apply app_nil_r.
  - intro E. rewrite E in Htable. eexists. split; [exact Htable|].
    cbn. repeat split; reflexivity.
  - rewrite Htable. unfold SeenMarkets.get_seen_market_count. rewrite length_app.
    destruct added; cbn [List.length]; lia.
  - exact Huniq.
  - intros. unfold SeenMarkets.add_seen_market. now rewrite Hseen.
Qed.

(** ** The price checkpoints *)

Lemma update_where_needs (c : string) (f : SeenMarket.t -> SeenMarket.t)
  (p : SeenMarket.t -> bool) (table : SeenMarkets.t) :
  (forall m, p (f m) = false) ->
  filter p (SeenMarkets.update_where c f table)
  = filter (fun m => negb (SeenMarket.condition_id m =? c)%string) (filter p table).
Proof.
  intro Hf. unfold SeenMarkets.update_where.
  induction table as [|m table IH]; cbn [map filter]; [reflexivity|].
  destruct (SeenMarket.condition_id m =? c)%string eqn:E.
  - rewrite Hf, IH. destruct (p m); cbn [filter]; [now rewrite E|reflexivity].
  - rewrite IH. destruct (p m); cbn [filter]; [now rewrite E|reflexivity].
Qed.

Lemma update_where_keeps {B : Type} (c : string) (f : SeenMarket.t -> SeenMarket.t)
  (g : SeenMarket.t -> B) (table : SeenMarkets.t) :
  (forall m, g (f m) = g m) ->
  map g (SeenMarkets.update_where c f table) = map g table.
Proof.
  intro Hf. unfold SeenMarkets.update_where. rewrite map_map. apply map_ext.
  intro m. destruct (SeenMarket.condition_id m =? c)%string; [apply Hf|reflexivity].
Qed.

Lemma update_market_price_keeps {B : Type} (c timeframe : string) (p : Q)
  (g : SeenMarket.t -> B) (table : SeenMarkets.t) :
  (forall m, g (SeenMarkets.set_1hr p m) = g m) ->
  (forall m, g (SeenMarkets.set_24hr p m) = g m) ->
  (forall m, g (SeenMarkets.set_7d p m) = g m) ->
  map g (SeenMarkets.update_market_price c timeframe p table) = map g table.
Proof.
  intros H1 H2 H3. unfold SeenMarkets.update_market_price.
  destruct (timeframe =? "1hr")%string; [now apply update_where_keeps|].
  destruct (timeframe =? "24hr")%string; [now apply update_where_keeps|].
  destruct (timeframe =? "7d")%string; [now apply update_where_keeps|reflexivity].
Qed.

(** X28: a price checkpoint takes the market off the list of its timeframe.
    After [update_market_price] for a timeframe, [get_markets_needing_check]
    for that timeframe returns what it returned before without the market;
    the write adds and deletes no row and leaves the condition ids, the
    first sightings and the initial prices as they were; for a timeframe
    other than 1hr, 24hr and 7d the write changes nothing and the list is
    empty.  A market is listed only when it has an initial price and was
    first seen longer ago than the timeframe. *)
Theorem checkpoint_takes_the_market_off_the_list :
  forall (c timeframe : string) (p : Q) (now : Z) (table : SeenMarkets.t),
    let table' := SeenMarkets.update_market_price c timeframe p table in
    SeenMarkets.get_markets_needing_check timeframe now table'
    = filter (fun m => negb (SeenMarket.condition_id m =? c)%string)
             (SeenMarkets.get_markets_needing_check timeframe now table)
    /\ map SeenMarket.condition_id table' = map SeenMarket.condition_id table
    /\ map SeenMarket.first_seen table' = map SeenMarket.first_seen table
    /\ map SeenMarket.initial_yes_price table' = map SeenMarket.initial_yes_price table
    /\ map SeenMarket.initial_no_price table' = map SeenMarket.initial_no_price table
    /\ (timeframe <> "1hr" -> timeframe <> "24hr" -> timeframe <> "7d" ->
        table' = table /\ SeenMarkets.get_markets_needing_check timeframe now table = [])
    /\ (forall m, In m (SeenMarkets.get_markets_needing_check timeframe now table) ->
          In m table
          /\ SeenMarket.initial_yes_price m <> None
          /\ (SeenMarket.first_seen m < now - timeframe_seconds timeframe)%Z).
Proof.
  intros c timeframe p now table table'. subst table'.
  split; [|split; [|split; [|split; [|split; [|split]]]]].
  - unfold SeenMarkets.update_market_price, SeenMarkets.get_markets_needing_check.
    destruct (timeframe =? "1hr")%string; [now apply update_where_needs|].
    destruct (timeframe =? "24hr")%string; [now apply update_where_needs|].
    destruct (timeframe =? "7d")%string; [now apply update_where_needs|reflexivity].
  - now apply update_market_price_keeps.
  - now apply update_market_price_keeps.
  - now apply update_market_price_keeps.
  - now apply update_market_price_keeps.
  - intros H1 H2 H3. apply String.eqb_neq in H1, H2, H3.
    unfold SeenMarkets.update_market_price, SeenMarkets.get_markets_needing_check.
    now rewrite H1, H2, H3.
  - intros m Hm. unfold SeenMarkets.get_markets_needing_check in Hm.
    unfold timeframe_seconds.
    assert (H : forall flag age,
                In m (filter (SeenMarkets.needs_check flag age now) table) ->
                In m table /\ SeenMarket.initial_yes_price m <> None
                /\ (SeenMarket.first_seen m < now - age)%Z).
    { intros flag age Hin. apply filter_In in Hin as [Hin Htest].
      unfold SeenMarkets.needs_check in Htest.
      apply andb_true_iff in Htest as [Htest Hinit].
      apply andb_true_iff in Htest as [_ Hseen]. apply Z.ltb_lt in Hseen.
      split; [exact Hin|]. split; [|exact Hseen].
      unfold SeenMarkets.has_initial_price in Hinit.
      destruct (SeenMarket.initial_yes_price m); [discriminate|discriminate Hinit]. }
    destruct (timeframe =? "1hr")%string;
      [apply (H SeenMarket.checked_1hr 3600%Z); exact Hm|].
    destruct (timeframe =? "24hr")%string;
      [apply (H SeenMarket.checked_24hr 86400%Z); exact Hm|].
    destruct (timeframe =? "7d")%string;
      [apply (H SeenMarket.checked_7d 604800%Z); exact Hm|].
    contradiction.
Qed.

(** ** New markets *)

(** The ways in which the loop body ends for one market of the feed. *)
Lemma check_market_cases (now : Z) (table : SeenMarkets.t)
  (alerts : list MarketWatch.alert) (n : Z) (market : MarketWatch.raw_market) :
  (MarketWatch.check_market now (table, alerts, n) market = Return (table, alerts, n)
   /\ forall c, MarketWatch.condition_id_of market = Some c ->
                SeenMarkets.is_market_seen c table = true)
  \/ (exists c row alert,
        MarketWatch.condition_id_of market = Some c
        /\ SeenMarkets.is_market_seen c table = false
        /\ MarketWatch.check_market now (table, alerts, n) market
           = Return ((table ++ [row])%list, (alerts ++ [alert])%list, (n + 1)%Z)
        /\ SeenMarket.condition_id row = c
        /\ fresh_row now row)
  \/ (exists c e,
        MarketWatch.condition_id_of market = Some c
        /\ SeenMarkets.is_market_seen c table = false
        /\ MarketWatch.check_market now (table, alerts, n) market = Raise e).
Proof.
  unfold MarketWatch.check_market.
  destruct (MarketWatch.condition_id_of market) as [c|]; [|left; split; [reflexivity|]].
  2:{ intros c H. discriminate. }
  destruct (SeenMarkets.is_market_seen c table) eqn:Hseen.
  - left. split; [reflexivity|]. intros c' H. now inversion H; subst.
  - right.
    destruct (MarketWatch.amount (MarketWatch.raw_volume market)) as [volume|e];
      cbn [bind]; [|right; exists c, e; auto].
    destruct (MarketWatch.amount (MarketWatch.raw_liquidity market)) as [liquidity|e];
      cbn [bind]; [|right; exists c, e; auto].
    destruct (MarketWatch.initial_prices (MarketWatch.raw_outcome_prices market))
      as [yes no].
    left. unfold SeenMarkets.add_seen_market. rewrite Hseen. cbn [fst].
    eexists c, _, _. split; [reflexivity|]. split; [first [exact Hseen|reflexivity]|].
    split; [reflexivity|]. cbn. repeat split; reflexivity.
Qed.

(** A pass over the feed, from any state of the loop. *)
Lemma check_markets_appends (now : Z) (markets : list MarketWatch.raw_market) :
  forall (table : SeenMarkets.t) (alerts : list MarketWatch.alert) (n : Z),
    exists added new_alerts,
      MarketWatch.check_markets now markets (table, alerts, n)
      = ((table ++ added)%list, (alerts ++ new_alerts)%list,
         (n + Z.of_nat (List.length added))%Z)
      /\ List.length new_alerts = List.length added
      /\ NoDup (map SeenMarket.condition_id added)
      /\ Forall (fun row =>
                   fresh_row now row
                   /\ SeenMarkets.is_market_seen (SeenMarket.condition_id row) table = false
                   /\ exists market,
                        In market markets
                        /\ MarketWatch.condition_id_of market
                           = Some (SeenMarket.condition_id row))
                added.
Proof.
  induction markets as [|market rest IH]; intros table alerts n;
    cbn [MarketWatch.check_markets].
  - exists [], []. rewrite !app_nil_r, Z.add_0_r. repeat split; constructor.
  - destruct (check_market_cases now table alerts n market)
      as [(-> & _)|[(c & row & alert & Hc & Hseen & -> & Hrow & Hfresh)|
                    (c & e & _ & _ & ->)]].
    + destruct (IH table alerts n) as (added & new_alerts & Hrun & Hlen & Hnd & Hall).
      exists added, new_alerts. split; [exact Hrun|]. split; [exact Hlen|].
      split; [exact Hnd|]. eapply Forall_impl; [|exact Hall].
      intros r (Hf & Hs & m & Hm & Hid). split; [exact Hf|]. split; [exact Hs|].
      exists m. split; [now right|exact Hid].
    + destruct (IH (table ++ [row])%list (alerts ++ [alert])%list (n + 1)%Z)
        as (added & new_alerts & Hrun & Hlen & Hnd & Hall).
      exists (row :: added), (alert :: new_alerts). split; [|split; [|split]].
      * cbv beta iota. refine (eq_trans Hrun _). rewrite <- !app_assoc.
        cbn [app List.length]. apply f_equal2; [reflexivity|lia].
      * cbn [List.length]. now rewrite Hlen.
      * cbn [map]. constructor; [|exact Hnd]. intro Hin.
        apply in_map_iff in Hin as (r & Hr & Hin).
        destruct (proj1 (Forall_forall _ _) Hall r Hin) as (_ & Hs & _).
        rewrite is_market_seen_app in Hs. apply orb_false_iff in Hs as [_ Hs].
        cbn in Hs. rewrite <- Hr, String.eqb_refl in Hs. discriminate.
      * constructor.
        -- rewrite Hrow. split; [exact Hfresh|]. split; [exact Hseen|].
           exists market. split; [now left|exact Hc].
        -- eapply Forall_impl; [|exact Hall]. intros r (Hf & Hs & m & Hm & Hid).
           rewrite is_market_seen_app in Hs. apply orb_false_iff in Hs as [Hs _].
           split; [exact Hf|]. split; [exact Hs|].
           exists m. split; [now right|exact Hid].
    + exists [], []. rewrite !app_nil_r, Z.add_0_r. repeat split; constructor.
Qed.

(** A second pass over the same feed finds nothing new. *)
Lemma check_markets_again (now now' : Z) (markets : list MarketWatch.raw_market) :
  forall (table : SeenMarkets.t) (alerts : list MarketWatch.alert) (n : Z)
         (table' : SeenMarkets.t) (alerts' : list MarketWatch.alert) (n' : Z),
    same_markets_seen table'
      (watch_table (MarketWatch.check_markets now markets (table, alerts, n))) ->
    MarketWatch.check_markets now' markets (table', alerts', n') = (table', alerts', n').
Proof.
  induction markets as [|market rest IH]; intros table alerts n table' alerts' n' Hsame;
    cbn [MarketWatch.check_markets] in *; [reflexivity|].
  destruct (check_market_cases now table alerts n market)
    as [(E & Hskip)|[(c & row & alert & Hc & Hseen & E & Hrow & Hfresh)|
                     (c & e & Hc & Hseen & E)]]; rewrite E in Hsame;
    cbv beta iota in Hsame.
  - (* skipped on the first pass *)
    assert (E' : MarketWatch.check_market now' (table', alerts', n') market
                 = Return (table', alerts', n')).
    { destruct (check_market_cases now' table' alerts' n' market)
        as [(E' & _)|[(c & _ & _ & Hc & Hseen' & _)|(c & _ & Hc & Hseen' & _)]];
        [exact E'| |]; exfalso.
      - destruct (check_markets_appends now rest table alerts n)
          as (added & new_alerts & Hrun & _).
        unfold SeenMarkets.t in *. rewrite Hrun in Hsame.
        unfold watch_table in Hsame. cbn [fst] in Hsame.
        rewrite (Hsame c), is_market_seen_app, (Hskip c Hc) in Hseen'. discriminate.
      - destruct (check_markets_appends now rest table alerts n)
          as (added & new_alerts & Hrun & _).
        unfold SeenMarkets.t in *. rewrite Hrun in Hsame.
        unfold watch_table in Hsame. cbn [fst] in Hsame.
        rewrite (Hsame c), is_market_seen_app, (Hskip c Hc) in Hseen'. discriminate. }
    rewrite E'. now apply (IH table alerts n).
  - (* entered on the first pass *)
    assert (E' : MarketWatch.check_market now' (table', alerts', n') market
                 = Return (table', alerts', n')).
    { destruct (check_markets_appends now rest (table ++ [row])%list
                  (alerts ++ [alert])%list (n + 1)%Z)
        as (added & new_alerts & Hrun & _).
      unfold SeenMarkets.t in *. rewrite Hrun in Hsame.
      unfold watch_table in Hsame. cbn [fst] in Hsame.
      assert (Hnow : SeenMarkets.is_market_seen c table' = true).
      { rewrite (Hsame c), !is_market_seen_app. cbn. rewrite Hrow, String.eqb_refl.
        cbn. now rewrite orb_true_r. }
      destruct (check_market_cases now' table' alerts' n' market)
        as [(E' & _)|[(c' & _ & _ & Hc' & Hseen' & _)|(c' & _ & Hc' & Hseen' & _)]];
        [exact E'| |]; exfalso; congruence. }
    rewrite E'. now apply (IH (table ++ [row])%list (alerts ++ [alert])%list (n + 1)%Z).
  - (* the first pass stopped here, and so does the second *)
    unfold watch_table in Hsame. cbn [fst] in Hsame.
    destruct (check_market_cases now' table' alerts' n' market)
      as [(_ & Hskip')|[(c' & row' & alert' & Hc' & _ & E' & _)|(c' & e' & _ & _ & ->)]];
      [| |reflexivity]; exfalso.
    + rewrite <- (Hsame c), (Hskip' c Hc) in Hseen. discriminate.
    + unfold MarketWatch.check_market in E, E'. rewrite Hc in E, E'.
      rewrite Hseen in E. rewrite <- (Hsame c) in Hseen. rewrite Hseen in E'.
      destruct (MarketWatch.amount (MarketWatch.raw_volume market)); cbn [bind] in *;
        [|discriminate].
      destruct (MarketWatch.amount (MarketWatch.raw_liquidity market)); cbn [bind] in *;
        [|discriminate].
      destruct (MarketWatch.initial_prices _). discriminate.
Qed.

(** X29: a new market is announced once.  A pass of [check_new_markets] only
    appends to the markets seen: one row and one alert for each market of
    the feed whose condition id was not seen before, no condition id twice,
    each row as first seen at the time of the pass and with no checkpoint;
    the condition ids stay unique.  A later pass over the same feed enters
    and announces nothing, also after a pass that an exception cut short;
    a failed fetch changes nothing. *)
Theorem new_markets_are_announced_once :
  forall (now now' : Z) (markets : list MarketWatch.raw_market) (table : SeenMarkets.t),
    let w := MarketWatch.check_new_markets now (Return markets) table in
    (exists added,
       watch_table w = (table ++ added)%list
       /\ List.length (watch_alerts w) = List.length added
       /\ watch_count w = Z.of_nat (List.length added)
       /\ NoDup (map SeenMarket.condition_id added)
       /\ Forall (fun row =>
                    fresh_row now row
                    /\ SeenMarkets.is_market_seen (SeenMarket.condition_id row) table = false
                    /\ exists market,
                         In market markets
                         /\ MarketWatch.condition_id_of market
                            = Some (SeenMarket.condition_id row))
                 added)
    /\ (unique_condition_ids table -> unique_condition_ids (watch_table w))
    /\ MarketWatch.check_new_markets now' (Return markets) (watch_table w)
       = (watch_table w, [], 0%Z)
    /\ forall e, MarketWatch.check_new_markets now (Raise e) table = (table, [], 0%Z).
Proof.
  intros now now' markets table w. subst w. unfold MarketWatch.check_new_markets.
  destruct (check_markets_appends now markets table [] 0%Z)
    as (added & new_alerts & Hrun & Hlen & Hnd & Hall).
  split; [|split; [|split]].
  - exists added. rewrite Hrun. unfold watch_table, watch_alerts, watch_count.
    cbn [fst snd app]. repeat split; auto.
  - rewrite Hrun. unfold watch_table, unique_condition_ids. cbn [fst].
    rewrite map_app. intro H. apply NoDup_app; [exact H|exact Hnd|].
    intros c Hc Hin. apply in_map_iff in Hin as (r & Hr & Hin).
    destruct (proj1 (Forall_forall _ _) Hall r Hin) as (_ & Hs & _).
    apply is_market_seen_In in Hc. congruence.
  - apply (check_markets_again now now' markets table [] 0%Z). intro c. reflexivity.
  - reflexivity.
Qed.

(** ** A pass of price checkpoints *)

Lemma until_raise_invariant {A S : Type} (body : S -> A -> result S) (P : S -> Prop)
  (l : list A) :
  (forall s x s', P s -> body s x = Return s' -> P s') ->
  forall s, P s -> P (fst (MarketWatch.until_raise body l s)).
Proof.
  intro Hstep. induction l as [|x l IH]; intros s Hs; cbn [MarketWatch.until_raise]; [exact Hs|].
  destruct (body s x) as [s'|e] eqn:E; [|exact Hs].
  apply IH. now apply (Hstep s x s').
Qed.

Lemma until_raise_moves {A : Type}
  (body : SeenMarkets.t * list MarketWatch.move -> A
          -> result (SeenMarkets.t * list MarketWatch.move))
  (l : list A) :
  (forall s x s', body s x = Return s' ->
                  (List.length (snd s') <= S (List.length (snd s)))%nat) ->
  forall s,
    (List.length (snd (fst (MarketWatch.until_raise body l s)))
     <= List.length (snd s) + List.length l)%nat.
Proof.
  intro Hstep. induction l as [|x l IH]; intro s; cbn [MarketWatch.until_raise List.length];
    [cbn; lia|].
  destruct (body s x) as [s'|e] eqn:E; [|cbn; lia].
  specialize (IH s'). specialize (Hstep s x s' E). lia.
Qed.

Lemma update_keeps_quiet (prices : MarketWatch.price_feed) (c timeframe : string)
  (yes no : Q) (table0 table : SeenMarkets.t) :
  prices c = Return (Some (yes, no)) -> ~ yes == 0 ->
  (forall m, In m table0 -> quiet prices (SeenMarket.condition_id m) -> In m table) ->
  forall m, In m table0 -> quiet prices (SeenMarket.condition_id m) ->
            In m (SeenMarkets.update_market_price c timeframe yes table).
Proof.
  intros Hp Hyes H m Hm Hq.
  assert (Hne : (SeenMarket.condition_id m =? c)%string = false).
  { apply String.eqb_neq. intro E. rewrite E in Hq.
    destruct Hq as [Hq|(y & n & Hq & Hz)]; rewrite Hp in Hq; inversion Hq; subst.
    contradiction. }
  specialize (H m Hm Hq).
  assert (Hw : forall f, In m (SeenMarkets.update_where c f table)).
  { intro f. unfold SeenMarkets.update_where. apply in_map_iff. exists m.
    split; [now rewrite Hne|exact H]. }
  unfold SeenMarkets.update_market_price.
  destruct (timeframe =? "1hr")%string; [apply Hw|].
  destruct (timeframe =? "24hr")%string; [apply Hw|].
  destruct (timeframe =? "7d")%string; [apply Hw|exact H].
Qed.

Lemma update_checkpointed (prices : MarketWatch.price_feed) (table0 : SeenMarkets.t)
  (c timeframe : string) (yes no : Q) (table : SeenMarkets.t)
  (moves moves' : list MarketWatch.move) :
  prices c = Return (Some (yes, no)) -> ~ yes == 0 ->
  checkpointed prices table0 (table, moves) ->
  Forall large_move moves' ->
  checkpointed prices table0
    (SeenMarkets.update_market_price c timeframe yes table, moves').
Proof.
  intros Hp Hyes (Hc & Hf & Hi & Hq & _) Hm. unfold checkpointed. cbn [fst snd] in *.
  split; [|split; [|split; [|split]]].
  - rewrite <- Hc. now apply update_market_price_keeps.
  - rewrite <- Hf. now apply update_market_price_keeps.
  - rewrite <- Hi. now apply update_market_price_keeps.
  - now apply (update_keeps_quiet prices c timeframe yes no table0 table).
  - exact Hm.
Qed.

Lemma checkpoint_1hr_step (prices : MarketWatch.price_feed) (table0 : SeenMarkets.t)
  (acc acc' : SeenMarkets.t * list MarketWatch.move) (market : SeenMarket.t) :
  checkpointed prices table0 acc ->
  MarketWatch.checkpoint_1hr prices acc market = Return acc' ->
  checkpointed prices table0 acc'
  /\ (List.length (snd acc') <= S (List.length (snd acc)))%nat.
Proof.
  destruct acc as [table moves]. intros Hacc Hrun.
  unfold MarketWatch.checkpoint_1hr in Hrun.
  destruct (prices (SeenMarket.condition_id market)) as [[[yes no]|]|e] eqn:Hp;
    cbn [bind] in Hrun; [| |discriminate].
  2:{ inversion Hrun; subst. split; [exact Hacc|cbn; lia]. }
  destruct (Qeq_bool yes 0) eqn:Hz.
  { inversion Hrun; subst. split; [exact Hacc|cbn; lia]. }
  apply Qeq_bool_neq in Hz.
  assert (Hmoves : Forall large_move moves) by apply Hacc.
  destruct (negb (Qeq_bool (or_Q (SeenMarket.initial_yes_price market) 0) 0)
            && Qlt_bool 0 (or_Q (SeenMarket.initial_yes_price market) 0)) eqn:Hinit.
  2:{ inversion Hrun; subst. split; [|cbn; lia].
      now apply (update_checkpointed prices table0 _ _ yes no table moves). }
  apply andb_true_iff in Hinit as [_ Hpos]. apply Qlt_bool_iff in Hpos.
  unfold div in Hrun.
  destruct (Qeq_bool (or_Q (SeenMarket.initial_yes_price market) 0) 0) eqn:Hzero.
  { apply Qeq_bool_iff in Hzero. rewrite Hzero in Hpos. exfalso.
    exact (Qlt_irrefl 0 Hpos). }
  cbn [bind] in Hrun.
  destruct (Qlt_bool 20 _) eqn:Hbig; inversion Hrun; subst; cbn [snd].
  - split; [|rewrite length_app; cbn; lia].
    apply (update_checkpointed prices table0 _ _ yes no table moves); auto.
    apply Forall_app. split; [exact Hmoves|]. constructor; [|constructor].
    unfold large_move. cbn. apply Qlt_bool_iff in Hbig.
    repeat split; auto; reflexivity.
  - split; [|lia].
    now apply (update_checkpointed prices table0 _ _ yes no table moves).
Qed.

Lemma checkpoint_1hr_length (prices : MarketWatch.price_feed)
  (acc acc' : SeenMarkets.t * list MarketWatch.move) (market : SeenMarket.t) :
  MarketWatch.checkpoint_1hr prices acc market = Return acc' ->
  (List.length (snd acc') <= S (List.length (snd acc)))%nat.
Proof.
  destruct acc as [table moves]. unfold MarketWatch.checkpoint_1hr.
  destruct (prices (SeenMarket.condition_id market)) as [[[yes no]|]|e];
    cbn [bind]; [| |discriminate].
  2:{ intro Hrun. inversion Hrun; subst. cbn. lia. }
  destruct (Qeq_bool yes 0); [intro Hrun; inversion Hrun; subst; cbn; lia|].
  destruct (negb _ && _); [|intro Hrun; inversion Hrun; subst; cbn; lia].
  destruct (div _ _) as [ratio|e]; cbn [bind]; [|discriminate].
  destruct (Qlt_bool 20 _); intro Hrun; inversion Hrun; subst; cbn [snd];
    [rewrite length_app; cbn; lia|lia].
Qed.

Lemma checkpoint_24hr_step (prices : MarketWatch.price_feed) (table0 : SeenMarkets.t)
  (acc acc' : SeenMarkets.t * list MarketWatch.move) (market : SeenMarket.t) :
  checkpointed prices table0 acc ->
  MarketWatch.checkpoint_24hr prices acc market = Return acc' ->
  checkpointed prices table0 acc' /\ snd acc' = snd acc.
Proof.
  destruct acc as [table moves]. intros Hacc Hrun.
  unfold MarketWatch.checkpoint_24hr in Hrun.
  destruct (prices (SeenMarket.condition_id market)) as [[[yes no]|]|e] eqn:Hp;
    cbn [bind] in Hrun; [| |discriminate].
  2:{ inversion Hrun; subst. now split. }
  destruct (Qeq_bool yes 0) eqn:Hz; inversion Hrun; subst; [now split|].
  apply Qeq_bool_neq in Hz. split; [|reflexivity].
  apply (update_checkpointed prices table0 _ _ yes no table moves); auto. apply Hacc.
Qed.

(** X30: a pass of [check_market_price_updates] only records prices.  It adds
    and deletes no row of the markets seen and leaves their condition ids,
    first sightings and initial prices alone; a market whose live price is
    missing or 0 keeps its row as it is; it sends at most ten alerts, each
    for a 1hr checkpoint of a market with a positive initial price whose
    price moved by more than 20 per cent of it. *)
Theorem price_updates_only_record_prices :
  forall (prices : MarketWatch.price_feed) (now : Z) (table : SeenMarkets.t),
    let table' := fst (MarketWatch.check_market_price_updates prices now table) in
    let moves := snd (MarketWatch.check_market_price_updates prices now table) in
    map SeenMarket.condition_id table' = map SeenMarket.condition_id table
    /\ map SeenMarket.first_seen table' = map SeenMarket.first_seen table
    /\ map SeenMarket.initial_yes_price table' = map SeenMarket.initial_yes_price table
    /\ (forall m, In m table -> quiet prices (SeenMarket.condition_id m) -> In m table')
    /\ Forall large_move moves
    /\ (List.length moves <= 10)%nat.
Proof.
  intros prices now table table' moves. subst table' moves.
  unfold MarketWatch.check_market_price_updates. cbv zeta.
  set (first := firstn 10 (SeenMarkets.get_markets_needing_check "1hr" now table)).
  assert (Hstart : checkpointed prices table (table, [])).
  { unfold checkpointed. cbn. repeat split; auto. }
  assert (H1 : checkpointed prices table
                 (fst (MarketWatch.until_raise (MarketWatch.checkpoint_1hr prices) first
                                               (table, [])))).
  { apply until_raise_invariant; [|exact Hstart].
    intros s x s' Hs Hrun. now apply (checkpoint_1hr_step prices table s s' x). }
  assert (L1 : (List.length
                  (snd (fst (MarketWatch.until_raise (MarketWatch.checkpoint_1hr prices) first
                                         (table, []))))
                <= 10)%nat).
  { pose proof (until_raise_moves (MarketWatch.checkpoint_1hr prices) first) as H.
    specialize (H (fun s x s' => checkpoint_1hr_length prices s s' x) (table, [])).
    cbn [snd List.length] in H.
    assert (List.length first <= 10)%nat by (subst first; apply firstn_le_length).
    lia. }
  destruct (MarketWatch.until_raise (MarketWatch.checkpoint_1hr prices) first (table, []))
    as [acc [e|]] eqn:Hloop; cbn [fst] in H1, L1.
  - destruct H1 as (Hc & Hf & Hi & Hq & Hm). repeat split; auto.
  - set (second := firstn 10 (SeenMarkets.get_markets_needing_check "24hr" now (fst acc))).
    assert (H2 : checkpointed prices table
                   (fst (MarketWatch.until_raise (MarketWatch.checkpoint_24hr prices)
                                                 second acc))
                 /\ snd (fst (MarketWatch.until_raise (MarketWatch.checkpoint_24hr prices)
                                                      second acc))
                    = snd acc).
    { apply (until_raise_invariant (MarketWatch.checkpoint_24hr prices)
               (fun s => checkpointed prices table s /\ snd s = snd acc));
        [|now split].
      intros s x s' [Hs Hsame] Hrun.
      destruct (checkpoint_24hr_step prices table s s' x Hs Hrun) as [Hs' Hsnd].
      split; [exact Hs'|congruence]. }
    destruct H2 as [(Hc & Hf & Hi & Hq & Hm) Hsnd]. rewrite Hsnd in *.
    repeat split; auto.
Qed.
